(** * gpt_export: ChatGPT conversation export to Markdown

    A shallow embedding of [gpt_export.py] and the proofs of its
    specification.

    Conventions of the embedding.
    - A Python [str] is a [list ascii]: the 256 values of [ascii] stand for
      the code points U+0000 to U+00FF, on which the character predicates
      below agree with CPython's ([str.isalnum], [str.isspace],
      [str.lower]).  The single character of the script outside that range,
      the dash U+2014 of the log and index lines, is carried as its UTF-8
      bytes; the script never inspects it.
    - Python exceptions are the [Raise] case of [result].
    - The module-level accumulators ([media_log_entries], the files on
      disk) are threaded explicitly through the functions that touch them. *)

From Stdlib Require Import Ascii String.
From Stdlib Require Import List ZArith Lia Bool Arith.
From Stdlib Require DecimalString Decimal DecimalN SpecFloat.
Import ListNotations.

Set Implicit Arguments.

(* ================================================================== *)
(** ** Python strings *)
(* ================================================================== *)

Module PyStr.

Definition str := list ascii.

(** A string literal of the script. *)
Definition lit (s : string) : str := list_ascii_of_string s.

Definition code (c : ascii) : N := N_of_ascii c.

Definition in_range (lo hi : N) (c : ascii) : bool :=
  (N.leb lo (code c) && N.leb (code c) hi)%bool.

(** [c.isalnum()] on U+0000..U+00FF: letters, decimal digits, and the
    Latin-1 characters that are alphabetic, digits or numeric
    (U+00AA, U+00B2, U+00B3, U+00B5, U+00B9, U+00BA, U+00BC..U+00BE,
    U+00C0..U+00FF without the two operators U+00D7 and U+00F7). *)
Definition isalnum (c : ascii) : bool :=
  (in_range 48 57 c || in_range 65 90 c || in_range 97 122 c
   || N.eqb (code c) 170 || in_range 178 179 c || N.eqb (code c) 181
   || in_range 185 186 c || in_range 188 190 c
   || in_range 192 214 c || in_range 216 246 c || in_range 248 255 c)%bool.

(** [c.isspace()] on U+0000..U+00FF: what [str.strip()] removes. *)
Definition isspace (c : ascii) : bool :=
  (in_range 9 13 c || in_range 28 32 c
   || N.eqb (code c) 133 || N.eqb (code c) 160)%bool.

(** [c.lower()] on U+0000..U+00FF. *)
Definition lower_char (c : ascii) : ascii :=
  if (in_range 65 90 c || in_range 192 214 c || in_range 216 222 c)%bool
  then ascii_of_N (code c + 32) else c.

Definition lower (s : str) : str := map lower_char s.

Fixpoint lstrip (s : str) : str :=
  match s with
  | c :: s' => if isspace c then lstrip s' else s
  | [] => []
  end.

Definition rstrip (s : str) : str := rev (lstrip (rev s)).

(** [s.strip()] *)
Definition strip (s : str) : str := rstrip (lstrip s).

Definition eqb_char (a b : ascii) : bool := Ascii.eqb a b.

Fixpoint eqb (a b : str) : bool :=
  match a, b with
  | [], [] => true
  | x :: a', y :: b' => (eqb_char x y && eqb a' b')%bool
  | _, _ => false
  end.

(** [s.startswith(p)] *)
Fixpoint startswith (p s : str) : bool :=
  match p, s with
  | [], _ => true
  | x :: p', y :: s' => (eqb_char x y && startswith p' s')%bool
  | _ :: _, [] => false
  end.

(** [p in s] for strings: [p] occurs in [s]. *)
Fixpoint contains (p s : str) : bool :=
  (startswith p s ||
   match s with
   | [] => false
   | _ :: s' => contains p s'
   end)%bool.

(** [sep.join(xs)] *)
Fixpoint join (sep : str) (xs : list str) : str :=
  match xs with
  | [] => []
  | [x] => x
  | x :: xs' => x ++ sep ++ join sep xs'
  end.

End PyStr.
Export PyStr.

Open Scope list_scope.

(* ================================================================== *)
(** ** Text normalizer: [slugify] *)
(* ================================================================== *)

(** The character kept by the generator expression of [slugify]:
    [c if c.isalnum() or c in "-_" else "_"]. *)
Definition slug_char (c : ascii) : ascii :=
  if (isalnum c || contains [c] (lit "-_"))%bool then c else "_"%char.

(** [def slugify(text)] *)
Definition slugify (text : str) : str :=
  map slug_char (lower (strip text)).

(** The permitted character class of a slug. *)
Definition permitted (c : ascii) : Prop :=
  isalnum c = true \/ c = "-"%char \/ c = "_"%char.

(* ================================================================== *)
(** ** Python values and exceptions *)
(* ================================================================== *)

(** The exceptions the script can meet. *)
Inductive exn : Type :=
| AttributeError | TypeError | ValueError | IndexError | OSError.

(** The outcome of a call: a value, or an exception raised. *)
Inductive result (A : Type) : Type :=
| Ok (a : A)
| Raise (e : exn).
Arguments Ok {A} a.
Arguments Raise {A} e.

Definition bind {A B : Type} (r : result A) (k : A -> result B) : result B :=
  match r with
  | Ok a => k a
  | Raise e => Raise e
  end.

Notation "x <- r ;; k" := (bind r (fun x => k))
  (at level 61, r at next level, right associativity).

(** What [json.load] returns: [None], [bool], [int], [float], [str],
    [list], and [dict] with its keys in insertion order. *)
#[warnings="-register-all"]
Inductive json : Type :=
| JNull
| JBool (b : bool)
| JInt (z : Z)
| JFloat (f : SpecFloat.spec_float)
| JStr (s : str)
| JList (l : list json)
| JDict (kv : list (str * json)).

(** Truth value of an object, as [if x:] and [not x] take it. *)
Definition truthy (v : json) : bool :=
  match v with
  | JNull => false
  | JBool b => b
  | JInt z => negb (Z.eqb z 0)
  | JFloat (SpecFloat.S754_zero _) => false
  | JFloat _ => true
  | JStr s => negb (Nat.eqb (length s) 0)
  | JList l => negb (Nat.eqb (length l) 0)
  | JDict kv => negb (Nat.eqb (length kv) 0)
  end.

(** [d.get(key)] on the items of a dict: [None] when the key is absent. *)
Fixpoint lookup (key : str) (kv : list (str * json)) : option json :=
  match kv with
  | [] => None
  | (k, v) :: kv' => if eqb k key then Some v else lookup key kv'
  end.

(** [d.get(key, default)] *)
Definition get (kv : list (str * json)) (key : str) (default : json) : json :=
  match lookup key kv with
  | Some v => v
  | None => default
  end.

(* ================================================================== *)
(** ** Number formatting *)
(* ================================================================== *)

(** [str(n)] for a non-negative [int]. *)
Definition str_of_N (n : N) : str :=
  list_ascii_of_string (DecimalString.NilEmpty.string_of_uint (N.to_uint n)).

(** Left padding with zeros to a width: the format specs [:02], [:03] on a
    non-negative [int]. *)
Definition zfill (width : nat) (s : str) : str :=
  repeat "0"%char (width - length s) ++ s.

Definition fmt_N (width : nat) (n : N) : str := zfill width (str_of_N n).

(* ================================================================== *)
(** ** [hashlib.sha1] *)
(* ================================================================== *)

Module Sha1.

Local Open Scope Z_scope.

Definition mask32 : Z := 4294967295.

Definition w32 (x : Z) : Z := Z.land x mask32.

Definition add32 (a b : Z) : Z := w32 (a + b).

Definition rotl (n : Z) (x : Z) : Z :=
  w32 (Z.lor (Z.shiftl x n) (Z.shiftr x (32 - n))).

Definition not32 (x : Z) : Z := Z.lxor x mask32.

(** Big-endian bytes of a word of [n] bytes. *)
Fixpoint be_bytes (n : nat) (x : Z) : list Z :=
  match n with
  | O => []
  | S n' => Z.land (Z.shiftr x (8 * Z.of_nat n')) 255 :: be_bytes n' x
  end.

Fixpoint be_word (bs : list Z) (acc : Z) : Z :=
  match bs with
  | [] => acc
  | b :: bs' => be_word bs' (Z.lor (Z.shiftl acc 8) b)
  end.

(** The message followed by the bit 1, zeros up to 56 modulo 64, and the
    message length in bits on 8 bytes. *)
Definition pad (msg : list Z) : list Z :=
  let len := length msg in
  let zeros := ((64 - (len + 9) mod 64) mod 64)%nat in
  msg ++ 128 :: repeat 0 zeros ++ be_bytes 8 (8 * Z.of_nat len).

(** Words of 4 bytes. *)
Fixpoint words (fuel : nat) (bs : list Z) : list Z :=
  match fuel with
  | O => []
  | S f =>
      match bs with
      | [] => []
      | _ => be_word (firstn 4 bs) 0 :: words f (skipn 4 bs)
      end
  end.

(** Blocks of 16 words. *)
Fixpoint blocks (fuel : nat) (ws : list Z) : list (list Z) :=
  match fuel with
  | O => []
  | S f =>
      match ws with
      | [] => []
      | _ => firstn 16 ws :: blocks f (skipn 16 ws)
      end
  end.

(** The message schedule, latest word first. *)
Fixpoint schedule (n : nat) (wrev : list Z) : list Z :=
  match n with
  | O => wrev
  | S n' =>
      let x := Z.lxor (Z.lxor (nth 2 wrev 0) (nth 7 wrev 0))
                      (Z.lxor (nth 13 wrev 0) (nth 15 wrev 0)) in
      schedule n' (rotl 1 x :: wrev)
  end.

Definition state : Type := (Z * Z * Z * Z * Z)%type.

Definition round (i : nat) (st : state) (w : Z) : state :=
  let '(a, b, c, d, e) := st in
  let '(f, k) :=
    if Nat.ltb i 20 then (Z.lor (Z.land b c) (Z.land (not32 b) d), 1518500249)
    else if Nat.ltb i 40 then (Z.lxor (Z.lxor b c) d, 1859775393)
    else if Nat.ltb i 60 then
      (Z.lor (Z.lor (Z.land b c) (Z.land b d)) (Z.land c d), 2400959708)
    else (Z.lxor (Z.lxor b c) d, 3395469782) in
  let temp := add32 (add32 (add32 (add32 (rotl 5 a) f) e) k) w in
  (temp, a, rotl 30 b, c, d).

Fixpoint rounds (i : nat) (ws : list Z) (st : state) : state :=
  match ws with
  | [] => st
  | w :: ws' => rounds (S i) ws' (round i st w)
  end.

Definition compress (h : state) (block : list Z) : state :=
  let ws := rev (schedule 64 (rev block)) in
  let '(h0, h1, h2, h3, h4) := h in
  let '(a, b, c, d, e) := rounds 0 ws h in
  (add32 h0 a, add32 h1 b, add32 h2 c, add32 h3 d, add32 h4 e).

Definition init : state :=
  (1732584193, 4023233417, 2562383102, 271733878, 3285377520).

(** The 20 bytes of the digest. *)
Definition digest (msg : list Z) : list Z :=
  let bs := pad msg in
  let '(h0, h1, h2, h3, h4) :=
    fold_left compress (blocks (length bs) (words (length bs) bs)) init in
  be_bytes 4 h0 ++ be_bytes 4 h1 ++ be_bytes 4 h2 ++ be_bytes 4 h3
    ++ be_bytes 4 h4.

Definition hex_digit (x : Z) : ascii :=
  ascii_of_N (Z.to_N (if Z.ltb x 10 then 48 + x else 87 + x)).

Definition hex_byte (b : Z) : str :=
  [hex_digit (Z.shiftr b 4); hex_digit (Z.land b 15)].

(** [hashlib.sha1(data).hexdigest()] *)
Definition hexdigest (msg : list Z) : str := flat_map hex_byte (digest msg).

End Sha1.

(** [s.encode()]: UTF-8 of the code points U+0000..U+00FF. *)
Definition encode_char (c : ascii) : list Z :=
  let n := Z.of_N (code c) in
  if Z.ltb n 128 then [n]
  else [Z.lor 192 (Z.shiftr n 6); Z.lor 128 (Z.land n 63)].

Definition encode (s : str) : list Z := flat_map encode_char s.

(* ================================================================== *)
(** ** Thread identity: [make_slug_or_hash] *)
(* ================================================================== *)

(** The string hashed for an untitled thread: [f"{ts}_{idx}"]. *)
Definition hash_input (ts : str) (idx : N) : str :=
  ts ++ lit "_" ++ str_of_N idx.

(** [def make_slug_or_hash(title, ts, idx)].  [title] is whatever the
    thread carries under ["title"]; a title that is true but not a string
    has no [strip]. *)
Definition make_slug_or_hash (title : json) (ts : str) (idx : N)
  : result str :=
  if truthy title then
    match title with
    | JStr t => Ok (firstn 50 (slugify t))
    | _ => Raise AttributeError
    end
  else Ok (firstn 10 (Sha1.hexdigest (encode (hash_input ts idx)))).

(* ================================================================== *)
(** ** [str.replace] *)
(* ================================================================== *)

(** Left to right, without overlap; [fuel] bounds the characters left. *)
Fixpoint replace_from (fuel : nat) (old new s : str) : str :=
  match fuel with
  | O => s
  | S fuel' =>
      match s with
      | [] => []
      | c :: s' =>
          if startswith old s
          then new ++ replace_from fuel' old new (skipn (length old) s)
          else c :: replace_from fuel' old new s'
      end
  end.

(** [s.replace(old, new)].  An empty [old] matches before every character
    and at the end. *)
Definition replace (s old new : str) : str :=
  match old with
  | [] => new ++ flat_map (fun c => c :: new) s
  | _ :: _ => replace_from (length s) old new s
  end.

(* ================================================================== *)
(** ** Timestamp formatter: [format_ts] *)
(* ================================================================== *)

(** A [datetime]: the fields that [strftime] reads here, and the second. *)
Record datetime : Type := mk_datetime {
  year : Z; month : Z; day : Z; hour : Z; minute : Z; second : Z
}.

Module Calendar.

Local Open Scope Z_scope.

(** The first and last second that [datetime] holds: 0001-01-01 00:00:00
    and 9999-12-31 23:59:59. *)
Definition min_timestamp : Z := -62135596800.
Definition max_timestamp : Z := 253402300799.

(** Day number, counted from 1970-01-01, to year, month and day of the
    proleptic Gregorian calendar, by eras of 400 years that start on the
    first of March. *)
Definition civil_from_days (days : Z) : Z * Z * Z :=
  let z := days + 719468 in
  let era := z / 146097 in
  let doe := z - era * 146097 in
  let yoe := (doe - doe / 1460 + doe / 36524 - doe / 146096) / 365 in
  let doy := doe - (365 * yoe + yoe / 4 - yoe / 100) in
  let mp := (5 * doy + 2) / 153 in
  let d := doy - (153 * mp + 2) / 5 + 1 in
  let m := if mp <? 10 then mp + 3 else mp - 9 in
  let y := yoe + era * 400 in
  ((if m <=? 2 then y + 1 else y), m, d).

(** The calendar itself, to say what the fields of a [datetime] mean. *)
Definition is_leap (y : Z) : bool :=
  ((y mod 4 =? 0) && negb (y mod 100 =? 0) || (y mod 400 =? 0))%bool.

Definition days_in_month (y m : Z) : Z :=
  if m =? 2 then (if is_leap y then 29 else 28)
  else if (m =? 4) || (m =? 6) || (m =? 9) || (m =? 11) then 30
  else 31.

(** Leap years among the years 1 to [y]. *)
Definition leaps_through (y : Z) : Z := y / 4 - y / 100 + y / 400.

(** Days from 1970-01-01 to the first of January of year [y]. *)
Definition days_before_year (y : Z) : Z :=
  365 * (y - 1970) + (leaps_through (y - 1) - leaps_through 1969).

(** Days of the months of year [y] before month [m]. *)
Definition days_before_month (y m : Z) : Z :=
  fold_left Z.add
    (map (days_in_month y) (map Z.of_nat (seq 1 (Z.to_nat (m - 1))))) 0.

Definition epoch_days (y m d : Z) : Z :=
  days_before_year y + days_before_month y m + (d - 1).

(** The second of the epoch that a [datetime] names. *)
Definition epoch_seconds (dt : datetime) : Z :=
  86400 * epoch_days (year dt) (month dt) (day dt)
  + 3600 * hour dt + 60 * minute dt + second dt.

(** A date of the calendar and a time of the day. *)
Definition valid (dt : datetime) : Prop :=
  1 <= year dt <= 9999 /\ 1 <= month dt <= 12
  /\ 1 <= day dt <= days_in_month (year dt) (month dt)
  /\ 0 <= hour dt <= 23 /\ 0 <= minute dt <= 59 /\ 0 <= second dt <= 59.

End Calendar.

(** [datetime.utcfromtimestamp(t)] for a whole number of seconds.  Outside
    the years 1 to 9999 CPython raises [ValueError], [OverflowError] or
    [OSError] by magnitude and platform; the script catches them all. *)
Definition utcfromtimestamp (t : Z) : result datetime :=
  if ((Calendar.min_timestamp <=? t) && (t <=? Calendar.max_timestamp))%bool%Z
  then
    let '(y, m, d) := Calendar.civil_from_days (t / 86400) in
    let r := (t mod 86400)%Z in
    Ok (mk_datetime y m d (r / 3600) (r mod 3600 / 60) (r mod 60))
  else Raise ValueError.

Module PyFloat.

Local Open Scope Z_scope.
Import SpecFloat.

(** The nearest integer to [m * 2^e], ties to even, for [0 <= m]. *)
Definition round_half_even (m e : Z) : Z :=
  if 0 <=? e then m * 2 ^ e
  else
    let d := 2 ^ (- e) in
    let q := m / d in
    match 2 * (m mod d) ?= d with
    | Lt => q
    | Gt => q + 1
    | Eq => if Z.even q then q else q + 1
    end.

(** [modf]: the integer part of the magnitude of a finite float, and the
    numerator of its fractional part over [2^(-e)]. *)
Definition modf (m : positive) (e : Z) : Z * Z :=
  if 0 <=? e then (Zpos m * 2 ^ e, 0)
  else (Zpos m / 2 ^ (- e), Zpos m mod 2 ^ (- e)).


(** The fraction of a second in microseconds as CPython takes it: the
    fractional part times [1e6], rounded to a binary64, then to the nearest
    integer, ties to even. *)
Definition microseconds (m : positive) (e : Z) : Z :=
  match binary_normalize 53 1024 (snd (modf m e) * 1000000) e false with
  | S754_finite _ pm pe => round_half_even (Zpos pm) pe
  | _ => 0
  end.

(** The second in which a float timestamp falls once rounded to the
    microsecond.  NaN and the infinities are refused. *)
Definition to_seconds (f : spec_float) : result Z :=
  match f with
  | S754_nan => Raise ValueError
  | S754_infinity _ => Raise ValueError
  | S754_zero _ => Ok 0
  | S754_finite s m e =>
      let ip := fst (modf m e) in
      let us := microseconds m e in
      if s then Ok (if 0 <? us then - ip - 1 else - ip)
      else Ok (if 1000000 <=? us then ip + 1 else ip)
  end.

End PyFloat.

(** [dt.strftime("%Y-%m-%d %H:%M")].  The C library prints the year
    without padding and the other fields on two digits. *)
Definition strftime (dt : datetime) : str :=
  str_of_N (Z.to_N (year dt)) ++ lit "-" ++ fmt_N 2 (Z.to_N (month dt))
    ++ lit "-" ++ fmt_N 2 (Z.to_N (day dt)) ++ lit " "
    ++ fmt_N 2 (Z.to_N (hour dt)) ++ lit ":" ++ fmt_N 2 (Z.to_N (minute dt)).

Definition is_digit (c : ascii) : bool := in_range 48 57 c.


Section Formatter.

(** [datetime.fromisoformat], the parser of the standard library: it
    returns a [datetime] or raises [ValueError]. *)
Variable fromisoformat : str -> result datetime.

(** The body of the [try] of [format_ts]. *)
Definition format_ts_body (ts : json) : result str :=
  match ts with
  | JBool b =>
      dt <- utcfromtimestamp (if b then 1 else 0)%Z ;; Ok (strftime dt)
  | JInt t =>
      dt <- utcfromtimestamp t ;; Ok (strftime dt)
  | JFloat f =>
      t <- PyFloat.to_seconds f ;;
      dt <- utcfromtimestamp t ;; Ok (strftime dt)
  | JStr s =>
      dt <- fromisoformat (replace s (lit "Z") (lit "+00:00")) ;;
      Ok (strftime dt)
  | _ => Ok (lit "unknown")
  end.

(** [def format_ts(ts)]: every exception gives ["unknown"]. *)
Definition format_ts (ts : json) : str :=
  match format_ts_body ts with
  | Ok s => s
  | Raise _ => lit "unknown"
  end.

End Formatter.

(* ================================================================== *)
(** ** Configuration *)
(* ================================================================== *)

(** The constants of the script that the functions below read. *)
Record config : Type := mk_config {
  INCLUDE_SYSTEM_MESSAGES : bool;
  MAX_MESSAGES_PER_FILE : nat
}.

Definition default_config : config := mk_config true 100.

Definition OUTPUT_FOLDER : str := lit "gpt_export_markdown".
Definition CONVERSATION_FOLDER : str := lit "conversations".
Definition MANUAL_EDIT_KEY : str := lit "manual_edit".

(** The characters that a Rocq string cannot hold as they are. *)
Definition nl : str := ["010"%char].
Definition dq : str := ["034"%char].

(** [os.path.join(a, b)] on POSIX. *)
Definition path_join (a b : str) : str :=
  if startswith (lit "/") b then b
  else match rev a with
       | [] => b
       | c :: _ => if eqb_char c "/" then a ++ b else a ++ lit "/" ++ b
       end.

Definition CONV_PATH : str := path_join OUTPUT_FOLDER CONVERSATION_FOLDER.

(* ================================================================== *)
(** ** Media reference resolver *)
(* ================================================================== *)

(** One line of the media log: [f"{name} — from '{title}'"]. *)
Definition log_entry (name title : str) : str :=
  name ++ lit " — from '" ++ title ++ lit "'".

(** The image line: [f"![image](media/{name})"]. *)
Definition image_ref (name : str) : str :=
  lit "![image](media/" ++ name ++ lit ")".

(** The longest prefix of characters that satisfy [p], and the rest. *)
Fixpoint span (p : ascii -> bool) (s : str) : str * str :=
  match s with
  | [] => ([], [])
  | c :: s' =>
      if p c then let '(a, b) := span p s' in (c :: a, b) else ([], s)
  end.

Definition url_prefix : str := lit "https://files.oaiusercontent.com/".

(** The class [[\w\-/]]: [\w] is a letter, a digit or the underscore. *)
Definition url_char (c : ascii) : bool :=
  (isalnum c || eqb_char c "_" || eqb_char c "-" || eqb_char c "/")%bool.

(** The match of [https://files\.oaiusercontent\.com/[\w\-/]+\.png] at the
    head of [s].  The class has no dot, so the only run of the class that
    a dot can follow is the longest one: the greedy [+] has nothing to
    give back. *)
Definition match_url (s : str) : option str :=
  if startswith url_prefix s then
    let '(body, rest) := span url_char (skipn (length url_prefix) s) in
    match body with
    | [] => None
    | _ :: _ =>
        if startswith (lit ".png") rest
        then Some (url_prefix ++ body ++ lit ".png")
        else None
    end
  else None.

(** [re.findall]: the matches from left to right, each search starting
    where the match before it ended. *)
Fixpoint findall_from (fuel : nat) (s : str) : list str :=
  match fuel with
  | O => []
  | S fuel' =>
      match s with
      | [] => []
      | _ :: s' =>
          match match_url s with
          | Some u => u :: findall_from fuel' (skipn (length u) s)
          | None => findall_from fuel' s'
          end
      end
  end.

Definition findall_urls (content : str) : list str :=
  findall_from (length content) content.

(** [f"{slugify(title) or 'image'}_{idx:03}_{count:02}.png"] *)
Definition base_name (title : str) (idx count : N) : str :=
  (match slugify title with [] => lit "image" | _ :: _ => slugify title end)
    ++ lit "_" ++ fmt_N 3 idx ++ lit "_" ++ fmt_N 2 count ++ lit ".png".

(** The body of the loop of [sanitize_and_log_images], from the match
    numbered [count] on. *)
Fixpoint sanitize_loop (urls : list str) (count : N) (title : str) (idx : N)
  (content : str) (media_log : list str) : str * list str :=
  match urls with
  | [] => (content, media_log)
  | url :: urls' =>
      let name := base_name title idx count in
      let content := replace content url (lit "media/" ++ name) in
      let content := content ++ nl ++ nl ++ image_ref name in
      sanitize_loop urls' (count + 1) title idx content
        (media_log ++ [log_entry name title])
  end.

(** [def sanitize_and_log_images(content, title, idx)], with the media log
    before and after. *)
Definition sanitize_and_log_images (content title : str) (idx : N)
  (media_log : list str) : str * list str :=
  sanitize_loop (findall_urls content) 1 title idx content media_log.

(* ================================================================== *)
(** ** Content parts: [process_parts] *)
(* ================================================================== *)

(** [s.split(sep)] for a separator that is not empty; [cur] holds the
    piece being read, latest character first. *)
Fixpoint split_from (fuel : nat) (sep s cur : str) : list str :=
  match fuel with
  | O => [rev cur ++ s]
  | S fuel' =>
      match s with
      | [] => [rev cur]
      | c :: s' =>
          if startswith sep s
          then rev cur :: split_from fuel' sep (skipn (length sep) s) []
          else split_from fuel' sep s' (c :: cur)
      end
  end.

Definition split (s sep : str) : list str := split_from (length s) sep s [].

(** [v == s] for a string [s]. *)
Definition is_str (v : json) (s : str) : bool :=
  match v with
  | JStr t => eqb t s
  | _ => false
  end.

(** What one part adds to [results] and to the media log. *)
Definition process_part (part : json) (title : str)
  : result (list json * list str) :=
  match part with
  | JStr _ => Ok ([part], [])
  | JDict kv =>
      if is_str (get kv (lit "content_type") JNull) (lit "image_asset_pointer")
      then
        match get kv (lit "asset_pointer") (JStr []) with
        | JStr asset =>
            if startswith (lit "file-service://file-") asset then
              let asset_id := last (split asset (lit "file-")) [] in
              let name := lit "file-" ++ asset_id ++ lit ".png" in
              Ok ([JStr (image_ref name)], [log_entry name title])
            else Ok ([], [])
        | _ => Raise AttributeError
        end
      else
        match lookup (lit "text") kv with
        | Some text => Ok ([text], [])
        | None => Ok ([], [])
        end
  | _ => Ok ([], [])
  end.

Fixpoint process_parts_loop (parts : list json) (title : str)
  (results : list json) (media_log : list str)
  : result (list json * list str) :=
  match parts with
  | [] => Ok (results, media_log)
  | part :: parts' =>
      r <- process_part part title ;;
      process_parts_loop parts' title (results ++ fst r) (media_log ++ snd r)
  end.

(** [sep.join] wants strings. *)
Fixpoint all_str (vs : list json) : result (list str) :=
  match vs with
  | [] => Ok []
  | JStr s :: vs' => ss <- all_str vs' ;; Ok (s :: ss)
  | _ :: _ => Raise TypeError
  end.

(** [def process_parts(parts, title, idx)] on the items of [parts], with
    the media log before and after. *)
Definition process_parts (parts : list json) (title : str) (idx : N)
  (media_log : list str) : result (str * list str) :=
  r <- process_parts_loop parts title [] media_log ;;
  ss <- all_str (fst r) ;;
  Ok (strip (join nl ss), snd r).

(* ================================================================== *)
(** ** Message extraction *)
(* ================================================================== *)

(** [x.get], [x.values()]: only a dict has them. *)
Definition as_dict (v : json) : result (list (str * json)) :=
  match v with
  | JDict kv => Ok kv
  | _ => Raise AttributeError
  end.

(** What [for ... in enumerate(v, 1)] runs over: the items of a list, the
    characters of a string, the keys of a dict. *)
Definition iter (v : json) : result (list json) :=
  match v with
  | JList l => Ok l
  | JStr s => Ok (map (fun c => JStr [c]) s)
  | JDict kv => Ok (map (fun p => JStr (fst p)) kv)
  | _ => Raise TypeError
  end.

(** A message of the output: role and text. *)
Definition message : Type := (json * str)%type.

(** The accumulators that extraction touches. *)
Record extraction : Type := mk_extraction {
  messages : list message;
  total_messages : nat;
  media_log_entries : list str
}.

Section Extraction.

Variable cfg : config.

(** One turn of [for node in thread.get("mapping", {}).values()]. *)
Definition extract_node (title : str) (idx : N) (node : json)
  (acc : extraction) : result extraction :=
  node_kv <- as_dict node ;;
  let msg := get node_kv (lit "message") JNull in
  if negb (truthy msg) then Ok acc
  else
    msg_kv <- as_dict msg ;;
    author <- as_dict (get msg_kv (lit "author") (JDict [])) ;;
    let role := get author (lit "role") (JStr (lit "unknown")) in
    if (is_str role (lit "system") && negb (INCLUDE_SYSTEM_MESSAGES cfg))%bool
    then Ok acc
    else
      content_kv <- as_dict (get msg_kv (lit "content") (JDict [])) ;;
      parts <- iter (get content_kv (lit "parts") (JList [])) ;;
      r <- process_parts parts title idx (media_log_entries acc) ;;
      match fst r with
      | [] => Ok (mk_extraction (messages acc) (total_messages acc) (snd r))
      | _ :: _ =>
          Ok (mk_extraction (messages acc ++ [(role, fst r)])
                (S (total_messages acc)) (snd r))
      end.

Fixpoint extract_nodes (title : str) (idx : N) (nodes : list json)
  (acc : extraction) : result extraction :=
  match nodes with
  | [] => Ok acc
  | node :: nodes' =>
      acc' <- extract_node title idx node acc ;;
      extract_nodes title idx nodes' acc'
  end.

(** The extraction loop of a thread: [messages] starts empty, the counter
    and the media log go on. *)
Definition extract_messages (thread : list (str * json)) (title : str)
  (idx : N) (total : nat) (media_log : list str) : result extraction :=
  mapping <- as_dict (get thread (lit "mapping") (JDict [])) ;;
  extract_nodes title idx (map snd mapping) (mk_extraction [] total media_log).

End Extraction.

(* ================================================================== *)
(** ** The files on disk and the skip check *)
(* ================================================================== *)

(** What is at a path: text; bytes that are not UTF-8, which [read]
    refuses; or something that [open] refuses (a directory, a file
    without permission). *)
Inductive file : Type :=
| Text (content : str)
| Binary
| Blocked.

Definition disk : Type := str -> option file.

Definition write_file (fs : disk) (path content : str) : disk :=
  fun p => if eqb p path then Some (Text content) else fs p.

(** The text before the first occurrence of [sep], if there is one. *)
Fixpoint before (sep s : str) : option str :=
  if startswith sep s then Some []
  else match s with
       | [] => None
       | c :: s' => option_map (cons c) (before sep s')
       end.

(** Group 1 of [---\n(.*?)\n---] when it matches at the head of [s]: the
    lazy group stops at the first closing mark. *)
Definition match_header (s : str) : option str :=
  if startswith (lit "---" ++ nl) s
  then before (nl ++ lit "---") (skipn 4 s)
  else None.

(** [re.search] with [re.DOTALL | re.MULTILINE]: the first position, at
    the start of the text or after a newline, where the match succeeds.
    [bol] tells that the head of [s] is such a position. *)
Fixpoint search_header (bol : bool) (s : str) : option str :=
  match (if bol then match_header s else None) with
  | Some g => Some g
  | None =>
      match s with
      | [] => None
      | c :: s' => search_header (eqb_char c "010") s'
      end
  end.

(** [def should_skip_file(filepath)] *)
Definition should_skip_file (fs : disk) (filepath : str) : bool :=
  match fs filepath with
  | None => false
  | Some (Text content) =>
      match search_header true content with
      | Some header =>
          if contains MANUAL_EDIT_KEY header
          then contains (MANUAL_EDIT_KEY ++ lit ": true") header
          else false
      | None => false
      end
  | Some Binary => false
  | Some Blocked => false
  end.

(* ================================================================== *)
(** ** Conversation writer *)
(* ================================================================== *)

(** [range(start, stop, step)] for a positive step. *)
Fixpoint range_from (fuel start stop step : nat) : list nat :=
  match fuel with
  | O => []
  | S fuel' =>
      if Nat.ltb start stop
      then start :: range_from fuel' (start + step) stop step
      else []
  end.

Definition range (start stop step : nat) : result (list nat) :=
  match step with
  | O => Raise ValueError
  | S _ => Ok (range_from stop start stop step)
  end.

(** [l[i:j]] *)
Definition slice {A : Type} (l : list A) (i j : nat) : list A :=
  firstn (j - i) (skipn i l).

(** [[messages[i:i + n] for i in range(0, len(messages), n)]] *)
Definition chunks {A : Type} (n : nat) (l : list A) : result (list (list A)) :=
  starts <- range 0 (length l) n ;;
  Ok (map (fun i => slice l i (i + n)) starts).

(** [s.split()[0]]: the first word. *)
Definition first_word (s : str) : result str :=
  match lstrip s with
  | [] => Raise IndexError
  | _ :: _ => Ok (fst (span (fun c => negb (isspace c)) (lstrip s)))
  end.

(** The files and the media log: what the writer reads and changes. *)
Record world : Type := mk_world {
  files : disk;
  media_log : list str
}.

(** [open(filepath, "w")] and the writes: the text replaces what was
    there, unless the path cannot be opened. *)
Definition write_text (w : world) (path content : str) (log : list str)
  : result world :=
  match files w path with
  | Some Blocked => Raise OSError
  | _ => Ok (mk_world (write_file (files w) path content) log)
  end.

Section Writer.

Variable cfg : config.

(** [str(role)] for a role that is not a string: the text of Python for
    the value, left open. *)
Variable repr : json -> str.

Definition role_text (role : json) : str :=
  match role with
  | JStr s => s
  | _ => repr role
  end.

(** The header and heading of a document; [shown] is the title as the
    header shows it and [heading] as the heading does. *)
Definition preamble (shown heading timestamp created : str) : str :=
  lit "---" ++ nl
  ++ lit "title: " ++ dq ++ shown ++ dq ++ nl
  ++ lit "created: " ++ dq ++ created ++ dq ++ nl
  ++ lit "tags:" ++ nl ++ lit "  - ai" ++ nl
  ++ lit "source: " ++ dq ++ lit "AI" ++ dq ++ nl
  ++ lit "---" ++ nl ++ nl
  ++ lit "# " ++ heading ++ nl
  ++ lit "_Started: " ++ timestamp ++ lit "_" ++ nl ++ nl.

(** The blocks of the messages, each text through
    [sanitize_and_log_images]; [rule] is what ends a block. *)
Fixpoint render_messages (rule title : str) (idx : N) (msgs : list message)
  (log : list str) : str * list str :=
  match msgs with
  | [] => ([], log)
  | (role, content) :: msgs' =>
      let '(content', log') := sanitize_and_log_images content title idx log in
      let '(rest, log'') := render_messages rule title idx msgs' log' in
      (lit "**[" ++ role_text role ++ lit "]**:" ++ nl ++ content' ++ rule
         ++ rest, log'')
  end.

(** [def write_single_convo(slug, title, timestamp, messages, idx)]: the
    world after, and the lines for the index. *)
Definition write_single_convo (w : world) (slug title timestamp : str)
  (msgs : list message) (idx : N) : result (world * list str) :=
  let filename := slug ++ lit ".md" in
  let filepath := path_join CONV_PATH filename in
  if should_skip_file (files w) filepath then
    Ok (w, [lit "- " ++ title ++ lit " (" ++ timestamp
              ++ lit ") — *manual edit skipped*"])
  else
    match files w filepath with
    | Some Blocked => Raise OSError
    | _ =>
        created <- first_word timestamp ;;
        let '(body, log) :=
          render_messages (nl ++ nl ++ lit "---" ++ nl ++ nl) title idx msgs
            (media_log w) in
        w' <- write_text w filepath
                (preamble title title timestamp created ++ body) log ;;
        Ok (w', [lit "- [" ++ title ++ lit " (" ++ timestamp ++ lit ")]("
                   ++ CONVERSATION_FOLDER ++ lit "/" ++ filename ++ lit ")"])
    end.

(** [f"{slug}_part_{i+1}_of_{len(parts)}.md"] *)
Definition partname (slug : str) (i total : nat) : str :=
  slug ++ lit "_part_" ++ str_of_N (N.of_nat (i + 1)) ++ lit "_of_"
    ++ str_of_N (N.of_nat total) ++ lit ".md".

(** [f"Part {i+1} of {len(parts)}"] *)
Definition part_label (i total : nat) : str :=
  lit "Part " ++ str_of_N (N.of_nat (i + 1)) ++ lit " of "
    ++ str_of_N (N.of_nat total).

(** One turn of [for i, part in enumerate(parts)]. *)
Definition write_part (w : world) (slug title timestamp : str) (idx : N)
  (total i : nat) (part : list message) : result (world * str) :=
  let subfolder := path_join CONV_PATH slug in
  let name := partname slug i total in
  let filepath := path_join subfolder name in
  if should_skip_file (files w) filepath then
    Ok (w, lit "  - [" ++ part_label i total
             ++ lit "] — *manual edit skipped*")
  else
    match files w filepath with
    | Some Blocked => Raise OSError
    | _ =>
        created <- first_word timestamp ;;
        let '(body, log) :=
          render_messages (nl ++ nl) title idx part (media_log w) in
        w' <- write_text w filepath
                (preamble
                   (title ++ lit " (Part " ++ str_of_N (N.of_nat (i + 1))
                      ++ lit ")")
                   (title ++ lit " (" ++ part_label i total ++ lit ")")
                   timestamp created ++ body) log ;;
        Ok (w', lit "  - [" ++ part_label i total ++ lit "]("
                  ++ CONVERSATION_FOLDER ++ lit "/" ++ slug ++ lit "/" ++ name
                  ++ lit ")")
    end.

Fixpoint write_parts (w : world) (slug title timestamp : str) (idx : N)
  (total i : nat) (parts : list (list message)) : result (world * list str) :=
  match parts with
  | [] => Ok (w, [])
  | part :: parts' =>
      r <- write_part w slug title timestamp idx total i part ;;
      r' <- write_parts (fst r) slug title timestamp idx total (S i) parts' ;;
      Ok (fst r', snd r :: snd r')
  end.

(** [def write_chunked_convo(slug, title, timestamp, messages, idx)] *)
Definition write_chunked_convo (w : world) (slug title timestamp : str)
  (msgs : list message) (idx : N) : result (world * list str) :=
  parts <- chunks (MAX_MESSAGES_PER_FILE cfg) msgs ;;
  write_parts w slug title timestamp idx (length parts) 0 parts.

(** The routing of the main loop: what a thread adds to the index. *)
Definition route (w : world) (slug title timestamp : str)
  (msgs : list message) (idx : N) : result (world * list str) :=
  if Nat.ltb (MAX_MESSAGES_PER_FILE cfg) (length msgs) then
    r <- write_chunked_convo w slug title timestamp msgs idx ;;
    Ok (fst r, (lit "- " ++ title ++ lit " (" ++ timestamp ++ lit ")") :: snd r)
  else write_single_convo w slug title timestamp msgs idx.

End Writer.

(* ================================================================== *)
(** ** The writers on the title that a thread carries *)
(* ================================================================== *)

(** A thread can carry any value under ["title"].  [make_slug_or_hash]
    lets through the strings and the values that are false; the f-strings
    print the title with [str]; and [slugify], which
    [sanitize_and_log_images] calls at each match, wants a string.  The
    functions of this module are the resolver and the writers with the
    title as the loop over the threads passes it; on a title that is a
    string they are the functions above. *)
Module AnyTitle.

(** [str(title)], as the f-strings print the title: a string as it is,
    [None], [True] and [False] by their names; the text of Python for a
    number, a list or a dict is left open, as it is for a role. *)
Definition title_text (repr : json -> str) (title : json) : str :=
  match title with
  | JStr s => s
  | JNull => lit "None"
  | JBool true => lit "True"
  | JBool false => lit "False"
  | _ => repr title
  end.

(** [def sanitize_and_log_images(content, title, idx)]: without a match
    the loop does not run; at the first match [slugify(title)] calls
    [title.strip()]. *)
Definition sanitize_and_log_images (content : str) (title : json) (idx : N)
  (media_log : list str) : result (str * list str) :=
  match title with
  | JStr t => Ok (sanitize_and_log_images content t idx media_log)
  | _ =>
      match findall_urls content with
      | [] => Ok (content, media_log)
      | _ :: _ => Raise AttributeError
      end
  end.

Section Writer.

Variable cfg : config.
Variable repr : json -> str.

Fixpoint render_messages (rule : str) (title : json) (idx : N)
  (msgs : list message) (log : list str) : result (str * list str) :=
  match msgs with
  | [] => Ok ([], log)
  | (role, content) :: msgs' =>
      r <- sanitize_and_log_images content title idx log ;;
      r' <- render_messages rule title idx msgs' (snd r) ;;
      Ok (lit "**[" ++ role_text repr role ++ lit "]**:" ++ nl ++ fst r
            ++ rule ++ fst r', snd r')
  end.

(** [def write_single_convo(slug, title, timestamp, messages, idx)] *)
Definition write_single_convo (w : world) (slug : str) (title : json)
  (timestamp : str) (msgs : list message) (idx : N)
  : result (world * list str) :=
  let filename := slug ++ lit ".md" in
  let filepath := path_join CONV_PATH filename in
  if should_skip_file (files w) filepath then
    Ok (w, [lit "- " ++ title_text repr title ++ lit " (" ++ timestamp
              ++ lit ") — *manual edit skipped*"])
  else
    match files w filepath with
    | Some Blocked => Raise OSError
    | _ =>
        created <- first_word timestamp ;;
        r <- render_messages (nl ++ nl ++ lit "---" ++ nl ++ nl) title idx
               msgs (media_log w) ;;
        w' <- write_text w filepath
                (preamble (title_text repr title) (title_text repr title)
                   timestamp created ++ fst r) (snd r) ;;
        Ok (w', [lit "- [" ++ title_text repr title ++ lit " (" ++ timestamp
                   ++ lit ")](" ++ CONVERSATION_FOLDER ++ lit "/" ++ filename
                   ++ lit ")"])
    end.

(** One turn of [for i, part in enumerate(parts)]. *)
Definition write_part (w : world) (slug : str) (title : json)
  (timestamp : str) (idx : N) (total i : nat) (part : list message)
  : result (world * str) :=
  let subfolder := path_join CONV_PATH slug in
  let name := partname slug i total in
  let filepath := path_join subfolder name in
  if should_skip_file (files w) filepath then
    Ok (w, lit "  - [" ++ part_label i total
             ++ lit "] — *manual edit skipped*")
  else
    match files w filepath with
    | Some Blocked => Raise OSError
    | _ =>
        created <- first_word timestamp ;;
        r <- render_messages (nl ++ nl) title idx part (media_log w) ;;
        w' <- write_text w filepath
                (preamble
                   (title_text repr title ++ lit " (Part "
                      ++ str_of_N (N.of_nat (i + 1)) ++ lit ")")
                   (title_text repr title ++ lit " (" ++ part_label i total
                      ++ lit ")")
                   timestamp created ++ fst r) (snd r) ;;
        Ok (w', lit "  - [" ++ part_label i total ++ lit "]("
                  ++ CONVERSATION_FOLDER ++ lit "/" ++ slug ++ lit "/" ++ name
                  ++ lit ")")
    end.

Fixpoint write_parts (w : world) (slug : str) (title : json)
  (timestamp : str) (idx : N) (total i : nat) (parts : list (list message))
  : result (world * list str) :=
  match parts with
  | [] => Ok (w, [])
  | part :: parts' =>
      r <- write_part w slug title timestamp idx total i part ;;
      r' <- write_parts (fst r) slug title timestamp idx total (S i) parts' ;;
      Ok (fst r', snd r :: snd r')
  end.

(** [def write_chunked_convo(slug, title, timestamp, messages, idx)] *)
Definition write_chunked_convo (w : world) (slug : str) (title : json)
  (timestamp : str) (msgs : list message) (idx : N)
  : result (world * list str) :=
  parts <- chunks (MAX_MESSAGES_PER_FILE cfg) msgs ;;
  write_parts w slug title timestamp idx (length parts) 0 parts.

(** The routing of the main loop. *)
Definition route (w : world) (slug : str) (title : json) (timestamp : str)
  (msgs : list message) (idx : N) : result (world * list str) :=
  if Nat.ltb (MAX_MESSAGES_PER_FILE cfg) (length msgs) then
    r <- write_chunked_convo w slug title timestamp msgs idx ;;
    Ok (fst r,
        (lit "- " ++ title_text repr title ++ lit " (" ++ timestamp ++ lit ")")
          :: snd r)
  else write_single_convo w slug title timestamp msgs idx.

End Writer.

End AnyTitle.

(* ================================================================== *)
(** ** The run: input format, loop over the threads, index, media log *)
(* ================================================================== *)

Definition MEDIA_LOG : str := lit "media_references.txt".

Definition media_log_path : str := path_join OUTPUT_FOLDER MEDIA_LOG.

(** [os.path.join(OUTPUT_FOLDER, "index.md")] *)
Definition index_path : str := path_join OUTPUT_FOLDER (lit "index.md").

(** The threads of the input, by its format: a dict with the key
    ["conversations"], or a list. *)
Definition conversations_of (raw_data : json) : result json :=
  match raw_data with
  | JDict kv =>
      match lookup (lit "conversations") kv with
      | Some conversations => Ok conversations
      | None => Raise ValueError
      end
  | JList _ => Ok raw_data
  | _ => Raise ValueError
  end.

Module Main.

(** The module-level variables that the loop over the threads changes:
    the files and [media_log_entries], [toc], and the two counters. *)
Record state : Type := mk_state {
  disk_log : world;
  toc : list str;
  total_threads : nat;
  total_messages : nat
}.

Section Run.

Variable cfg : config.
Variable GENERATE_TOC : bool.
Variable fromisoformat : str -> result datetime.
Variable repr : json -> str.

(** One turn of [for idx, thread in enumerate(conversations)]. *)
Definition thread_step (st : state) (idx : nat) (thread : json)
  : result state :=
  kv <- as_dict thread ;;
  let title := get kv (lit "title") (JStr (lit "Untitled")) in
  let create_time := get kv (lit "create_time") (JStr []) in
  let timestamp := format_ts fromisoformat create_time in
  slug <- make_slug_or_hash title timestamp (N.of_nat idx) ;;
  ex <- extract_messages cfg kv (AnyTitle.title_text repr title) (N.of_nat idx)
          (total_messages st) (media_log (disk_log st)) ;;
  let '(mk_extraction msgs total log) := ex in
  r <- AnyTitle.route cfg repr (mk_world (files (disk_log st)) log) slug
         title timestamp msgs (N.of_nat idx) ;;
  Ok (mk_state (fst r) (toc st ++ snd r) (S (total_threads st)) total).

Fixpoint thread_loop (st : state) (idx : nat) (threads : list json)
  : result state :=
  match threads with
  | [] => Ok st
  | thread :: threads' =>
      st' <- thread_step st idx thread ;;
      thread_loop st' (S idx) threads'
  end.

(** The state before the first thread, on the files that are there. *)
Definition start (fs : disk) : state :=
  mk_state (mk_world fs []) [lit "# ChatGPT Conversation Index" ++ nl] 0 0.

(** The index and the media log, after the loop. *)
Definition finish (st : state) : result state :=
  w1 <- (if GENERATE_TOC
         then write_text (disk_log st) index_path (join nl (toc st))
                (media_log (disk_log st))
         else Ok (disk_log st)) ;;
  w2 <- (match media_log w1 with
         | [] => Ok w1
         | _ :: _ =>
             write_text w1 media_log_path (join nl (media_log w1))
               (media_log w1)
         end) ;;
  Ok (mk_state w2 (toc st) (total_threads st) (total_messages st)).

(** The script from the loaded input to the files written; the summary
    that it prints at the end, with the clock and the sizes of the files,
    is left out, and so is what [log] prints. *)
Definition main (fs : disk) (raw_data : json) : result state :=
  conversations <- conversations_of raw_data ;;
  threads <- iter conversations ;;
  st <- thread_loop (start fs) 0 threads ;;
  finish st.

End Run.

End Main.

(* ================================================================== *)
(** * Proofs *)
(* ================================================================== *)

(** ** Facts on characters and strings *)

Module PyStrFacts.

(** A property of all 256 characters is checked on each of them. *)
Lemma forall_ascii (P : ascii -> bool) :
  forallb P (map ascii_of_nat (seq 0 256)) = true -> forall c, P c = true.
Proof.
  intros H c. rewrite forallb_forall in H. apply H.
  rewrite <- (ascii_nat_embedding c). apply in_map, in_seq.
  pose proof (nat_ascii_bounded c). lia.
Qed.

Lemma eqb_char_eq a b : eqb_char a b = true <-> a = b.
Proof. unfold eqb_char. apply Ascii.eqb_eq. Qed.

Lemma eqb_char_refl a : eqb_char a a = true.
Proof. apply eqb_char_eq. reflexivity. Qed.

Lemma eqb_eq (a b : str) : eqb a b = true <-> a = b.
Proof.
  revert b. induction a as [|x a IH]; intros [|y b]; simpl;
    try (split; [discriminate | discriminate]); try tauto.
  rewrite andb_true_iff, eqb_char_eq, IH. split.
  - intros [-> ->]. reflexivity.
  - intros E. injection E. auto.
Qed.




End PyStrFacts.
Import PyStrFacts.

(** ** The text normalizer (C8) *)

Section Slugify.



Lemma slug_char_permitted (c : ascii) : permitted (slug_char c).
Proof.
  unfold slug_char, permitted.
  destruct (isalnum c) eqn:Ha; simpl; [left; exact Ha|].
  unfold contains; simpl. rewrite !andb_true_r, !orb_false_r.
  destruct (eqb_char c "-") eqn:E1; simpl.
  - apply eqb_char_eq in E1. auto.
  - destruct (eqb_char c "_") eqn:E2; simpl; auto.
    apply eqb_char_eq in E2. auto.
Qed.


End Slugify.


(** ** Thread identity (C1) *)

Module Sha1Facts.

(** The model of [hashlib.sha1] on the test vectors of FIPS 180: one block,
    and two blocks. *)
Example sha1_abc :
  Sha1.hexdigest (encode (lit "abc"))
  = lit "a9993e364706816aba3e25717850c26c9cd0d89d".
Proof. vm_compute. reflexivity. Qed.

Example sha1_two_blocks :
  Sha1.hexdigest
    (encode (lit "abcdbcdecdefdefgefghfghighijhijkijkljklmklmnlmnomnopnopq"))
  = lit "84983e441c3bd26ebaae4aa1f95129e5e54670f1".
Proof. vm_compute. reflexivity. Qed.

End Sha1Facts.

Section SlugOrHash.

Lemma list_ascii_of_string_inj (a b : string) :
  list_ascii_of_string a = list_ascii_of_string b -> a = b.
Proof.
  intros H. rewrite <- (string_of_list_ascii_of_string a),
    <- (string_of_list_ascii_of_string b), H. reflexivity.
Qed.

Lemma str_of_N_inj (n m : N) : str_of_N n = str_of_N m -> n = m.
Proof.
  unfold str_of_N. intros H. apply list_ascii_of_string_inj in H.
  apply DecimalN.Unsigned.to_uint_inj.
  assert (E : Some (N.to_uint n) = Some (N.to_uint m)).
  { rewrite <- !DecimalString.NilEmpty.usu, H. reflexivity. }
  injection E. auto.
Qed.

Lemma hash_input_inj (ts : str) (i j : N) :
  hash_input ts i = hash_input ts j -> i = j.
Proof.
  unfold hash_input. intros H.
  apply app_inv_head in H. apply app_inv_head in H.
  apply str_of_N_inj. exact H.
Qed.

(** UTF-8 can be read back, so distinct strings are distinct messages. *)
Fixpoint decode (bs : list Z) : str :=
  match bs with
  | [] => []
  | b :: rest =>
      if Z.ltb b 128 then ascii_of_N (Z.to_N b) :: decode rest
      else
        match rest with
        | [] => []
        | b2 :: rest' =>
            ascii_of_N (Z.to_N (Z.lor (Z.shiftl (Z.land b 3) 6) (Z.land b2 63)))
              :: decode rest'
        end
  end.

Lemma decode_encode_char (c : ascii) (bs : list Z) :
  decode (encode_char c ++ bs) = c :: decode bs.
Proof.
  destruct c as [[] [] [] [] [] [] [] []]; reflexivity.
Qed.

Lemma decode_encode (s : str) : decode (encode s) = s.
Proof.
  induction s as [|c s IH]; [reflexivity|].
  unfold encode in *. simpl. rewrite decode_encode_char, IH. reflexivity.
Qed.

Lemma encode_inj (a b : str) : encode a = encode b -> a = b.
Proof.
  intros H. rewrite <- (decode_encode a), <- (decode_encode b), H.
  reflexivity.
Qed.

(** A title of white space only is a true value: it takes the slug branch,
    and its slug is empty whatever the index. *)
Lemma whitespace_title_slug (ts : str) (idx : N) :
  make_slug_or_hash (JStr (lit "   ")) ts idx = Ok [].
Proof. reflexivity. Qed.

End SlugOrHash.

(** C1 (as amended).  For a thread whose title is false as a condition (the
    empty string, or [None]) the slug is the first ten hexadecimal digits
    of the SHA-1 of ["<timestamp>_<index>"]: a function of that pair; and
    for one timestamp and two distinct indices the strings, and the bytes,
    that are hashed differ. *)
Theorem untitled_slug_is_truncated_hash (title : json) (ts : str) (i j : N) :
  truthy title = false ->
  i <> j ->
  make_slug_or_hash title ts i
    = Ok (firstn 10 (Sha1.hexdigest (encode (hash_input ts i))))
  /\ make_slug_or_hash title ts j
    = Ok (firstn 10 (Sha1.hexdigest (encode (hash_input ts j))))
  /\ hash_input ts i <> hash_input ts j
  /\ encode (hash_input ts i) <> encode (hash_input ts j).
Proof.
  intros Ht Hij. unfold make_slug_or_hash. rewrite Ht.
  repeat split.
  - intros E. apply Hij. exact (hash_input_inj _ _ _ E).
  - intros E. apply Hij. apply encode_inj in E.
    exact (hash_input_inj _ _ _ E).
Qed.

Lemma untitled_slug_is_truncated_hash_witness :
  make_slug_or_hash (JStr []) (lit "2023-11-14 22:13") 0
    = Ok (lit "bf545e1a58")
  /\ make_slug_or_hash (JStr []) (lit "2023-11-14 22:13") 1
    = Ok (lit "bb2c7a5bfd").
Proof.
  destruct (@untitled_slug_is_truncated_hash
              (JStr []) (lit "2023-11-14 22:13") 0%N 1%N)
    as [H0 [H1 _]]; [reflexivity | discriminate |].
  split; [rewrite H0 | rewrite H1]; vm_compute; reflexivity.
Defined.

(** C1 as it stands fails twice.  A title of white space only does not get
    a hash: threads 0 and 1 both get the empty slug.  And the ten digits
    kept of the hash do not separate all indices: with the timestamp
    ["unknown"] the untitled threads 154961 and 269694 get one slug. *)
Lemma untitled_slug_counterexample :
  (make_slug_or_hash (JStr (lit "  ")) (lit "unknown") 0 = Ok []
   /\ make_slug_or_hash (JStr (lit "  ")) (lit "unknown") 1 = Ok [])
  /\ (154961 <> 269694)%N
  /\ make_slug_or_hash (JStr []) (lit "unknown") 154961
     = Ok (lit "dde32da6ab")
  /\ make_slug_or_hash (JStr []) (lit "unknown") 269694
     = Ok (lit "dde32da6ab").
Proof.
  repeat split; try discriminate; vm_compute; reflexivity.
Qed.

(** ** The timestamp formatter (C3) *)

Module CalendarFacts.

Import Calendar.
Local Open Scope Z_scope.

(** A check of [n] consecutive integers from [z] on. *)
Fixpoint check_from (P : Z -> bool) (z : Z) (n : nat) : bool :=
  match n with
  | O => true
  | S n' => (P z && check_from P (z + 1) n')%bool
  end.

Lemma check_from_sound (P : Z -> bool) (n : nat) :
  forall z, check_from P z n = true ->
  forall x, z <= x < z + Z.of_nat n -> P x = true.
Proof.
  induction n as [|n IH]; intros z H x Hx; [lia|].
  simpl in H. apply andb_true_iff in H. destruct H as [Hz Hrest].
  destruct (Z.eq_dec x z) as [->|Hne]; [exact Hz|].
  apply (IH (z + 1) Hrest). lia.
Qed.

(** March-based year and day of year of a day of the era that starts on
    0000-03-01, and the month and day of a day of year, as
    [civil_from_days] computes them. *)
Definition year_of_era (doe : Z) : Z :=
  (doe - doe / 1460 + doe / 36524 - doe / 146096) / 365.

Definition day_of_year (doe : Z) : Z :=
  let yoe := year_of_era doe in
  doe - (365 * yoe + yoe / 4 - yoe / 100).

Definition month_day (doy : Z) : Z * Z :=
  let mp := (5 * doy + 2) / 153 in
  (if mp <? 10 then mp + 3 else mp - 9, doy - (153 * mp + 2) / 5 + 1).

Lemma civil_from_days_unfold (doe : Z) :
  0 <= doe < 146097 ->
  civil_from_days (doe - 719468) =
  let '(m, d) := month_day (day_of_year doe) in
  ((if m <=? 2 then year_of_era doe + 1 else year_of_era doe), m, d).
Proof.
  intros H. unfold civil_from_days, month_day, day_of_year, year_of_era.
  cbv zeta.
  replace (doe - 719468 + 719468) with doe by lia.
  rewrite (Z.div_small doe 146097) by exact H.
  replace (doe - 0 * 146097) with doe by lia.
  rewrite Z.add_0_r. reflexivity.
Qed.

Definition leapZ (y : Z) : Z := if is_leap y then 1 else 0.

Lemma is_leap_iff (y : Z) :
  is_leap y = true <->
  y mod 4 = 0 /\ (y mod 100 <> 0 \/ y mod 400 = 0).
Proof.
  unfold is_leap.
  rewrite orb_true_iff, andb_true_iff, negb_true_iff, !Z.eqb_eq, Z.eqb_neq.
  split; [|tauto].
  intros [H|H]; [tauto|]. split; [|tauto].
  Z.div_mod_to_equations. lia.
Qed.

Lemma year_of_era_bounds (doe : Z) :
  0 <= doe < 146097 ->
  0 <= year_of_era doe <= 399 /\ 0 <= day_of_year doe <= 365
  /\ (day_of_year doe = 365 -> is_leap (year_of_era doe + 1) = true).
Proof.
  intros H. rewrite is_leap_iff. unfold day_of_year, year_of_era.
  repeat split; Z.div_mod_to_equations; lia.
Qed.

(** A year stands for all years that are leap, or not, as it is. *)
Definition ref_year (leap : bool) : Z := if leap then 4 else 1.

Lemma days_in_month_ref (y m : Z) :
  days_in_month y m = days_in_month (ref_year (is_leap y)) m.
Proof. unfold days_in_month. destruct (is_leap y); reflexivity. Qed.

Lemma days_before_month_ref (y m : Z) :
  days_before_month y m = days_before_month (ref_year (is_leap y)) m.
Proof.
  unfold days_before_month. f_equal. apply map_ext.
  intros k. apply days_in_month_ref.
Qed.

(** The months and days of a year that starts in March of year [ya] and
    ends in February of year [yb]. *)
Definition month_day_ok (ya yb doy : Z) : bool :=
  let '(m, d) := month_day doy in
  ((1 <=? m) && (m <=? 12) && (1 <=? d)
   && if m <=? 2
      then (d <=? days_in_month yb m) && (306 <=? doy)
           && (days_before_month yb m + (d - 1) =? doy - 306)
      else (d <=? days_in_month ya m) && (doy <? 306)
           && (days_before_month ya m + (d - 1) =? doy + 59 + leapZ ya))%bool.

Lemma month_day_checked (la lb : bool) :
  check_from (month_day_ok (ref_year la) (ref_year lb)) 0
    (if lb then 366 else 365) = true.
Proof. destruct la, lb; vm_compute; reflexivity. Qed.

Lemma month_day_spec (ya yb doy : Z) :
  0 <= doy <= 365 -> (doy = 365 -> is_leap yb = true) ->
  let '(m, d) := month_day doy in
  1 <= m <= 12 /\ 1 <= d /\
  if m <=? 2
  then d <= days_in_month yb m /\ 306 <= doy
       /\ days_before_month yb m + (d - 1) = doy - 306
  else d <= days_in_month ya m /\ doy < 306
       /\ days_before_month ya m + (d - 1) = doy + 59 + leapZ ya.
Proof.
  intros Hd Hl.
  assert (H : month_day_ok (ref_year (is_leap ya)) (ref_year (is_leap yb)) doy
              = true).
  { apply (@check_from_sound _ _ _ (month_day_checked (is_leap ya) (is_leap yb))).
    destruct (is_leap yb); [lia|].
    assert (doy <> 365) by (intros E; specialize (Hl E); discriminate). lia. }
  unfold month_day_ok in H.
  destruct (month_day doy) as [m d].
  rewrite (days_in_month_ref ya m), (days_in_month_ref yb m),
    (days_before_month_ref ya m), (days_before_month_ref yb m).
  replace (leapZ ya) with (leapZ (ref_year (is_leap ya)))
    by (unfold leapZ; destruct (is_leap ya); reflexivity).
  rewrite !andb_true_iff in H. destruct H as [[[H1 H2] H3] H4].
  apply Z.leb_le in H1, H2, H3.
  destruct (m <=? 2);
    rewrite !andb_true_iff, Z.leb_le, Z.eqb_eq in H4;
    rewrite ?Z.leb_le, ?Z.ltb_lt in H4;
    repeat split; lia || tauto.
Qed.

Lemma year_start_march (yoe : Z) :
  0 <= yoe <= 399 ->
  days_before_year yoe + 59 + leapZ yoe
  = 365 * yoe + yoe / 4 - yoe / 100 - 719468.
Proof.
  intros H. unfold days_before_year, leaps_through, leapZ.
  destruct (is_leap yoe) eqn:E.
  - apply is_leap_iff in E. Z.div_mod_to_equations. lia.
  - assert (N : ~ (yoe mod 4 = 0 /\ (yoe mod 100 <> 0 \/ yoe mod 400 = 0)))
      by (rewrite <- is_leap_iff, E; discriminate).
    Z.div_mod_to_equations. lia.
Qed.

Lemma year_start_january (yoe : Z) :
  0 <= yoe <= 399 ->
  days_before_year (yoe + 1) - 306
  = 365 * yoe + yoe / 4 - yoe / 100 - 719468.
Proof.
  intros H. unfold days_before_year, leaps_through.
  replace (yoe + 1 - 1) with yoe by lia.
  Z.div_mod_to_equations. lia.
Qed.

(** What holds of the day [doe] of the era: the date found is a date of
    the calendar, it counts back to the day, and its year is that of the
    era. *)
Definition era_day_ok (doe : Z) : Prop :=
  let '(y, m, d) := civil_from_days (doe - 719468) in
  0 <= y <= 400 /\ 1 <= m <= 12 /\ 1 <= d <= days_in_month y m
  /\ epoch_days y m d = doe - 719468
  /\ (306 <= doe -> 1 <= y) /\ (doe <= 146036 -> y <= 399).

Lemma era_day (doe : Z) : 0 <= doe < 146097 -> era_day_ok doe.
Proof.
  intros H. unfold era_day_ok. rewrite civil_from_days_unfold by exact H.
  destruct (year_of_era_bounds H) as (Hy & Hd & Hleap).
  pose proof (month_day_spec (year_of_era doe) (year_of_era doe + 1) Hd Hleap)
    as Hmd.
  pose proof (year_start_march Hy) as Ha.
  pose proof (year_start_january Hy) as Hb.
  assert (Hdoe : doe = 365 * year_of_era doe + year_of_era doe / 4
                       - year_of_era doe / 100 + day_of_year doe)
    by (unfold day_of_year; lia).
  assert (Hlo : 306 <= doe -> 306 <= day_of_year doe \/ 1 <= year_of_era doe).
  { unfold day_of_year, year_of_era. Z.div_mod_to_equations. lia. }
  assert (Hhi : doe <= 146036 ->
                day_of_year doe < 306 \/ year_of_era doe <= 398).
  { unfold day_of_year, year_of_era. Z.div_mod_to_equations. lia. }
  set (yoe := year_of_era doe) in *. set (doy := day_of_year doe) in *.
  destruct (month_day doy) as [m d]. unfold epoch_days.
  destruct (m <=? 2) eqn:Em;
    [apply Z.leb_le in Em | apply Z.leb_gt in Em];
    destruct Hmd as (Hm & Hd1 & Hd2 & Hd3 & Hd4).
  - repeat split; try lia.
  - repeat split; try lia.
Qed.

(** The eras repeat: the date of a day is the date of its day of era, 400
    years later per era. *)
Lemma civil_from_days_era (days : Z) :
  civil_from_days days =
  let era := (days + 719468) / 146097 in
  let doe := (days + 719468) mod 146097 in
  let '(y, m, d) := civil_from_days (doe - 719468) in
  (y + 400 * era, m, d).
Proof.
  cbv zeta. unfold civil_from_days. cbv zeta.
  set (z := days + 719468).
  assert (Hdoe : 0 <= z mod 146097 < 146097) by (apply Z.mod_pos_bound; lia).
  replace (z mod 146097 - 719468 + 719468) with (z mod 146097) by lia.
  rewrite (Z.div_small (z mod 146097) 146097) by exact Hdoe.
  replace (z - z / 146097 * 146097) with (z mod 146097)
    by (rewrite Z.mod_eq; lia).
  replace (z mod 146097 - 0 * 146097) with (z mod 146097) by lia.
  set (doe := z mod 146097).
  set (yoe := (doe - doe / 1460 + doe / 36524 - doe / 146096) / 365).
  set (mp := (5 * (doe - (365 * yoe + yoe / 4 - yoe / 100)) + 2) / 153).
  destruct (mp <? 10); destruct (_ <=? 2); f_equal; f_equal; lia.
Qed.

Lemma is_leap_era (y e : Z) : is_leap (y + 400 * e) = is_leap y.
Proof.
  unfold is_leap.
  replace (y + 400 * e) with (y + (100 * e) * 4) at 1 by lia.
  replace (y + 400 * e) with (y + (4 * e) * 100) at 1 by lia.
  replace (y + 400 * e) with (y + e * 400) by lia.
  rewrite !Z_mod_plus_full. reflexivity.
Qed.

Lemma days_in_month_era (y e m : Z) :
  days_in_month (y + 400 * e) m = days_in_month y m.
Proof. unfold days_in_month. rewrite is_leap_era. reflexivity. Qed.

Lemma leaps_through_era (y e : Z) :
  leaps_through (y + 400 * e) = leaps_through y + 97 * e.
Proof.
  unfold leaps_through.
  replace (y + 400 * e) with (y + (100 * e) * 4) at 1 by lia.
  replace (y + 400 * e) with (y + (4 * e) * 100) at 1 by lia.
  replace (y + 400 * e) with (y + e * 400) by lia.
  rewrite !Z.div_add by lia. lia.
Qed.

Lemma epoch_days_era (y e m d : Z) :
  epoch_days (y + 400 * e) m d = epoch_days y m d + 146097 * e.
Proof.
  unfold epoch_days, days_before_year, days_before_month.
  replace (y + 400 * e - 1) with (y - 1 + 400 * e) by lia.
  rewrite leaps_through_era.
  rewrite (map_ext (days_in_month (y + 400 * e)) (days_in_month y))
    by (intros; apply days_in_month_era).
  lia.
Qed.

(** The date of a day: a date of the calendar that counts back to it. *)
Lemma civil_from_days_spec (days : Z) :
  -719162 <= days <= 2932896 ->
  let '(y, m, d) := civil_from_days days in
  1 <= y <= 9999 /\ 1 <= m <= 12 /\ 1 <= d <= days_in_month y m
  /\ epoch_days y m d = days
  /\ (0 <= days -> 1000 <= y).
Proof.
  intros Hr. rewrite civil_from_days_era. cbv zeta.
  set (z := days + 719468).
  assert (Hdoe : 0 <= z mod 146097 < 146097) by (apply Z.mod_pos_bound; lia).
  pose proof (era_day Hdoe) as Hok. unfold era_day_ok in Hok.
  assert (Hz : z = 146097 * (z / 146097) + z mod 146097)
    by (apply Z.div_mod; lia).
  set (era := z / 146097) in *. set (doe := z mod 146097) in *.
  destruct (civil_from_days (doe - 719468)) as [[y m] d].
  rewrite days_in_month_era, epoch_days_era.
  destruct Hok as (Hy & Hm & Hd & He & Hlo & Hhi).
  assert (0 <= era <= 24) by (subst z; lia).
  assert (306 <= doe \/ 1 <= era) by (subst z; lia).
  assert (doe <= 146036 \/ era <= 23) by (subst z; lia).
  repeat split; try lia; intros; subst z; lia.
Qed.

(** [utcfromtimestamp] of a second that [datetime] holds: a valid
    [datetime] that names this second. *)
Lemma utcfromtimestamp_spec (t : Z) :
  min_timestamp <= t <= max_timestamp ->
  exists dt, utcfromtimestamp t = Ok dt /\ valid dt /\ epoch_seconds dt = t
             /\ (0 <= t -> 1000 <= year dt).
Proof.
  unfold min_timestamp, max_timestamp. intros Hr.
  unfold utcfromtimestamp, min_timestamp, max_timestamp.
  replace ((-62135596800 <=? t) && (t <=? 253402300799))%bool with true
    by (symmetry; apply andb_true_iff; split; apply Z.leb_le; lia).
  assert (Hd : -719162 <= t / 86400 <= 2932896)
    by (Z.div_mod_to_equations; lia).
  pose proof (civil_from_days_spec Hd) as Hc.
  destruct (civil_from_days (t / 86400)) as [[y m] d].
  destruct Hc as (Hy & Hm & Hdd & He & Hk).
  eexists. split; [reflexivity|].
  unfold valid, epoch_seconds. cbn [year month day hour minute second].
  rewrite He.
  repeat split; try lia; Z.div_mod_to_equations; lia.
Qed.


End CalendarFacts.

Section FormatTs.

Import Calendar CalendarFacts.
Local Open Scope Z_scope.








Variable fromisoformat : str -> result datetime.



End FormatTs.




(** With the C library of Linux a year before 1000 is printed short. *)
Example format_ts_year_one :
  format_ts (fun _ => Raise ValueError) (JInt (-62135596800))
  = lit "1-01-01 00:00".
Proof. vm_compute. reflexivity. Qed.


(** ** Content parts (C9) *)

Section ProcessParts.

Variable title : str.

(** The parts that C9 speaks of. *)
Definition inert_part (part : json) : Prop :=
  match part with
  | JStr _ => False
  | JDict kv =>
      if is_str (get kv (lit "content_type") JNull) (lit "image_asset_pointer")
      then match lookup (lit "asset_pointer") kv with
           | None => True
           | Some (JStr asset) =>
               startswith (lit "file-service://file-") asset = false
           | Some _ => False
           end
      else lookup (lit "text") kv = None
  | _ => True
  end.

Lemma process_part_inert (part : json) :
  inert_part part -> process_part part title = Ok ([], []).
Proof.
  destruct part as [| b | z | f | s | l | kv];
    unfold inert_part, process_part; try reflexivity; try contradiction.
  unfold get.
  destruct (is_str _ _).
  - destruct (lookup (lit "asset_pointer") kv) as [[| | | | asset | |]|];
      try contradiction; intros H; try rewrite H; reflexivity.
  - intros ->. reflexivity.
Qed.

Lemma process_parts_loop_app (a b : list json) :
  forall results log,
    process_parts_loop (a ++ b) title results log =
    (r <- process_parts_loop a title results log ;;
     process_parts_loop b title (fst r) (snd r)).
Proof.
  induction a as [|part a IH]; intros results log; [reflexivity|].
  simpl. destruct (process_part part title) as [r|e]; [|reflexivity].
  simpl. apply IH.
Qed.

Lemma process_parts_loop_inert (parts : list json) :
  Forall inert_part parts ->
  forall results log,
    process_parts_loop parts title results log = Ok (results, log).
Proof.
  induction 1 as [|part parts Hp _ IH]; intros results log; [reflexivity|].
  simpl. rewrite (process_part_inert _ Hp). simpl.
  rewrite !app_nil_r. apply IH.
Qed.

End ProcessParts.

(** C9 (as amended).  Resolution of a part that is neither a string nor a
    dict, of a dict that is neither an image-asset pointer nor carries
    ["text"], and of an image-asset pointer whose [asset_pointer] is absent
    or is a string that does not start with ["file-service://file-"]
    returns without raising and adds nothing, to the text or to the media
    log: such a part can be taken out of the parts without changing what
    [process_parts] returns, and parts that are all such give the empty
    text and leave the log as it was. *)
Theorem process_parts_skips_inert_parts
  (title : str) (idx : N) (part : json) :
  inert_part part ->
  process_part part title = Ok ([], [])
  /\ (forall before after log,
        process_parts (before ++ part :: after) title idx log
        = process_parts (before ++ after) title idx log)
  /\ (forall parts log,
        Forall inert_part parts ->
        process_parts parts title idx log = Ok ([], log)).
Proof.
  intros Hp. split; [exact (process_part_inert title _ Hp)|]. split.
  - intros before after log. unfold process_parts.
    rewrite !process_parts_loop_app.
    destruct (process_parts_loop before title [] log) as [r|e];
      [|reflexivity].
    cbn [bind process_parts_loop]. rewrite (process_part_inert title _ Hp).
    cbn [bind fst snd]. rewrite !app_nil_r. reflexivity.
  - intros parts log Hall. unfold process_parts.
    rewrite (process_parts_loop_inert title Hall). reflexivity.
Qed.

Lemma process_parts_skips_inert_parts_witness :
  process_parts
    [JStr (lit "a"); JDict [(lit "content_type", JStr (lit "image_asset_pointer"));
                           (lit "asset_pointer", JStr (lit "sediment://x"))];
     JStr (lit "b")] (lit "T") 0 []
  = Ok (lit "a" ++ nl ++ lit "b", []).
Proof.
  destruct (@process_parts_skips_inert_parts (lit "T") 0%N
              (JDict [(lit "content_type", JStr (lit "image_asset_pointer"));
                      (lit "asset_pointer", JStr (lit "sediment://x"))]))
    as (_ & H & _); [reflexivity|].
  etransitivity; [exact (H [JStr (lit "a")] [JStr (lit "b")] []) | reflexivity].
Defined.

(** C9 as it stands fails on an image-asset pointer whose [asset_pointer]
    is [null]: it does not start with ["file-service://file-"], and
    [asset.startswith] raises. *)
Lemma process_parts_counterexample :
  process_part
    (JDict [(lit "content_type", JStr (lit "image_asset_pointer"));
            (lit "asset_pointer", JNull)]) (lit "T")
  = Raise AttributeError
  /\ process_parts
       [JDict [(lit "content_type", JStr (lit "image_asset_pointer"));
               (lit "asset_pointer", JNull)]] (lit "T") 0 []
     = Raise AttributeError.
Proof. split; reflexivity. Qed.


(** ** Message extraction (C5) *)

Section ExtractionFacts.

Variable cfg : config.
Variable title : str.
Variable idx : N.



(** A role that the configuration leaves out. *)
Definition excluded (role : json) : bool :=
  (is_str role (lit "system") && negb (INCLUDE_SYSTEM_MESSAGES cfg))%bool.


(** A node adds at most one message, at the end, and counts it. *)
Lemma extract_node_appends (node : json) (acc acc' : extraction) :
  extract_node cfg title idx node acc = Ok acc' ->
  (messages acc' = messages acc /\ total_messages acc' = total_messages acc)
  \/ (exists m, messages acc' = messages acc ++ [m]
                /\ total_messages acc' = S (total_messages acc)).
Proof.
  unfold extract_node.
  destruct (as_dict node) as [kv|e]; [|discriminate]. cbn [bind].
  destruct (negb (truthy _)); [intros [= <-]; left; split; reflexivity|].
  destruct (as_dict (get kv _ _)) as [msg_kv|e]; [|discriminate]. cbn [bind].
  destruct (as_dict (get msg_kv (lit "author") _)) as [author|e];
    [|discriminate]. cbn [bind].
  destruct (is_str _ _ && _)%bool;
    [intros [= <-]; left; split; reflexivity|].
  destruct (as_dict (get msg_kv (lit "content") _)) as [content_kv|e];
    [|discriminate]. cbn [bind].
  destruct (iter _) as [parts|e]; [|discriminate]. cbn [bind].
  destruct (process_parts _ _ _ _) as [[text log']|e]; [|discriminate].
  cbn [bind fst snd].
  destruct text; intros [= <-]; cbn [messages total_messages].
  - left. split; reflexivity.
  - right. eexists. split; reflexivity.
Qed.


Lemma extract_nodes_appends (nodes : list json) :
  forall acc acc',
    extract_nodes cfg title idx nodes acc = Ok acc' ->
    exists new, messages acc' = messages acc ++ new
                /\ total_messages acc' = total_messages acc + length new
                /\ length new <= length nodes.
Proof.
  induction nodes as [|node nodes IH]; intros acc acc' H.
  - injection H as <-. exists []. rewrite app_nil_r. simpl. auto.
  - cbn [extract_nodes] in H.
    destruct (extract_node cfg title idx node acc) as [acc1|e] eqn:E;
      [|discriminate].
    cbn [bind] in H. destruct (IH _ _ H) as (new & Hm & Ht & Hl).
    destruct (extract_node_appends _ _ E) as [[Hm1 Ht1] | (m & Hm1 & Ht1)].
    + exists new. rewrite Hm, Ht, Hm1, Ht1. simpl. auto.
    + exists (m :: new). rewrite Hm, Ht, Hm1, Ht1, <- app_assoc. simpl.
      repeat split; lia.
Qed.

End ExtractionFacts.




(** ** The conversation writer (C2, C7) *)

Lemma range_positive_step (start stop step : nat) :
  0 < step -> range start stop step = Ok (range_from stop start stop step).
Proof. destruct step; [lia | reflexivity]. Qed.

Section Chunks.

Variable A : Type.
Variable l : list A.
Variable n : nat.
Hypothesis n_pos : 0 < n.

Lemma concat_slices (fuel : nat) :
  forall start,
    length l - start <= fuel ->
    concat (map (fun i => slice l i (i + n))
              (range_from fuel start (length l) n))
    = skipn start l.
Proof.
  induction fuel as [|fuel IH]; intros start Hf.
  - simpl. symmetry. apply skipn_all2. lia.
  - cbn [range_from]. destruct (Nat.ltb_spec start (length l)) as [Hlt|Hge].
    + cbn [map concat]. rewrite IH by lia. unfold slice.
      replace (start + n - start) with n by lia.
      rewrite Nat.add_comm, <- skipn_skipn. apply firstn_skipn.
    + simpl. symmetry. apply skipn_all2. lia.
Qed.

Lemma slices_shape (fuel : nat) :
  forall start,
    length l - start <= fuel -> start < length l ->
    exists front lst,
      map (fun i => slice l i (i + n)) (range_from fuel start (length l) n)
      = front ++ [lst]
      /\ Forall (fun p => length p = n) front
      /\ 1 <= length lst <= n.
Proof.
  induction fuel as [|fuel IH]; intros start Hf Hlt; [lia|].
  cbn [range_from]. destruct (Nat.ltb_spec start (length l)) as [_|Hge];
    [|lia].
  cbn [map].
  assert (Hlen : length (slice l start (start + n))
                 = Nat.min n (length l - start)).
  { unfold slice. rewrite length_firstn, length_skipn. lia. }
  destruct (Nat.ltb_spec (start + n) (length l)) as [Hmore|Hlast].
  - destruct (IH (start + n)) as (front & lst & E & Hfront & Hlst);
      [lia | lia |].
    exists (slice l start (start + n) :: front), lst. rewrite E.
    split; [reflexivity|]. split; [|exact Hlst].
    constructor; [lia | exact Hfront].
  - exists [], (slice l start (start + n)).
    replace (range_from fuel (start + n) (length l) n) with (@nil nat).
    + split; [reflexivity|]. split; [constructor | lia].
    + destruct fuel; [reflexivity|]. cbn [range_from].
      destruct (Nat.ltb_spec (start + n) (length l)); [lia | reflexivity].
Qed.

(** The chunks: all of [n] messages but the last, which has from 1 to
    [n]; put end to end they are the list. *)
Lemma chunks_spec :
  l <> [] ->
  exists front lst,
    chunks n l = Ok (front ++ [lst])
    /\ concat (front ++ [lst]) = l
    /\ Forall (fun p => length p = n) front
    /\ 1 <= length lst <= n.
Proof.
  intros Hne. assert (0 < length l) by (destruct l; [contradiction | simpl; lia]).
  destruct (@slices_shape (length l) 0) as (front & lst & E & Hf & Hl);
    [lia | lia |].
  exists front, lst. unfold chunks.
  rewrite range_positive_step by exact n_pos. cbn [bind]. rewrite E.
  split; [reflexivity|]. split; [|split; assumption].
  rewrite <- E. apply (@concat_slices (length l) 0). lia.
Qed.

End Chunks.

Section WriterFacts.

Variable cfg : config.
Variable repr : json -> str.
Variables slug title timestamp : str.
Variable idx : N.

Lemma eqb_refl (a : str) : eqb a a = true.
Proof. apply eqb_eq. reflexivity. Qed.

Lemma write_file_same (fs : disk) (path content : str) :
  write_file fs path content path = Some (Text content).
Proof. unfold write_file. rewrite eqb_refl. reflexivity. Qed.

Lemma write_file_other (fs : disk) (path content p : str) :
  p <> path -> write_file fs path content p = fs p.
Proof.
  intros H. unfold write_file. destruct (eqb p path) eqn:E; [|reflexivity].
  apply eqb_eq in E. contradiction.
Qed.

(** A path that exists afterwards, and was not refused before. *)
Definition present (w : world) (path : str) : Prop :=
  exists content, files w path = Some (Text content).

Definition open_ok (w : world) (path : str) : Prop :=
  files w path <> Some Blocked.

Lemma should_skip_present (w : world) (path : str) :
  should_skip_file (files w) path = true -> present w path.
Proof.
  unfold should_skip_file, present.
  destruct (files w path) as [[content| |]|]; try discriminate. eauto.
Qed.

(** The path and the two index lines of the part numbered [i + 1]. *)
Definition part_path (i total : nat) : str :=
  path_join (path_join CONV_PATH slug) (partname slug i total).

Definition part_skipped (i total : nat) : str :=
  lit "  - [" ++ part_label i total ++ lit "] — *manual edit skipped*".

Definition part_link (i total : nat) : str :=
  lit "  - [" ++ part_label i total ++ lit "]("
    ++ CONVERSATION_FOLDER ++ lit "/" ++ slug ++ lit "/"
    ++ partname slug i total ++ lit ")".

Lemma write_part_spec (w w' : world) (total i : nat) (part : list message)
  (line : str) :
  write_part repr w slug title timestamp idx total i part = Ok (w', line) ->
  present w' (part_path i total)
  /\ (line = part_skipped i total \/ line = part_link i total)
  /\ (forall p, p <> part_path i total -> files w' p = files w p).
Proof.
  unfold write_part. fold (part_path i total).
  destruct (should_skip_file (files w) (part_path i total)) eqn:Es.
  - intros [= <- <-]. split; [apply should_skip_present; exact Es|].
    split; [left; reflexivity | reflexivity].
  - destruct (files w (part_path i total)) as [[c| |]|] eqn:Ef;
      try discriminate;
      (destruct (first_word timestamp) as [created|e]; [|discriminate];
       cbn [bind];
       destruct (render_messages _ _ _ _ _ _) as [body log];
       unfold write_text; rewrite Ef; cbn [bind];
       intros [= <- <-]; cbn [files];
       split; [eexists; apply write_file_same|];
       split; [right; reflexivity | intros p Hp; apply write_file_other, Hp]).
Qed.

Lemma write_part_total (w : world) (total i : nat) (part : list message) :
  (exists created, first_word timestamp = Ok created) ->
  open_ok w (part_path i total) ->
  exists w' line,
    write_part repr w slug title timestamp idx total i part = Ok (w', line).
Proof.
  intros [created Hc] Ho. unfold write_part. fold (part_path i total).
  destruct (should_skip_file _ _); [eauto|].
  unfold open_ok in Ho. rewrite Hc. cbn [bind].
  destruct (render_messages _ _ _ _ _ _) as [body log]. unfold write_text.
  destruct (files w (part_path i total)) as [[c| |]|];
    try contradiction; cbn [bind]; eauto.
Qed.

Lemma write_parts_spec (total : nat) (parts : list (list message)) :
  forall w i w' toc,
    write_parts repr w slug title timestamp idx total i parts = Ok (w', toc) ->
    length toc = length parts
    /\ (forall j, j < length parts ->
          present w' (part_path (i + j) total)
          /\ (nth j toc [] = part_skipped (i + j) total
              \/ nth j toc [] = part_link (i + j) total))
    /\ (forall p, present w p -> present w' p).
Proof.
  induction parts as [|part parts IH]; intros w i w' toc H.
  - injection H as <- <-. split; [reflexivity|].
    split; [simpl; lia | auto].
  - cbn [write_parts] in H.
    destruct (write_part repr w slug title timestamp idx total i part)
      as [[w1 line]|e] eqn:E1; [|discriminate].
    cbn [bind fst snd] in H.
    destruct (write_parts repr w1 slug title timestamp idx total (S i) parts)
      as [[w2 toc2]|e] eqn:E2; [|discriminate].
    cbn [bind fst snd] in H. injection H as <- <-.
    destruct (write_part_spec _ _ _ _ E1) as (Hp1 & Hl1 & Ho1).
    destruct (IH _ _ _ _ E2) as (Hlen & Hparts & Hmono).
    assert (Hmono1 : forall p, present w p -> present w1 p).
    { intros p [c Hc].
      destruct (list_eq_dec ascii_dec p (part_path i total)) as [->|Hne];
        [exact Hp1|]. exists c. rewrite Ho1 by exact Hne. exact Hc. }
    split; [simpl; lia|]. split; [|auto].
    intros [|j] Hj.
    + rewrite Nat.add_0_r. split; [apply Hmono; exact Hp1 | exact Hl1].
    + replace (i + S j) with (S i + j) by lia. apply Hparts.
      simpl in Hj. lia.
Qed.

Lemma write_part_open_ok (w w' : world) (total i : nat)
  (part : list message) (line p : str) :
  write_part repr w slug title timestamp idx total i part = Ok (w', line) ->
  open_ok w p -> open_ok w' p.
Proof.
  intros H Ho. destruct (write_part_spec _ _ _ _ H) as ([c Hc] & _ & Hother).
  destruct (list_eq_dec ascii_dec p (part_path i total)) as [->|Hne].
  - unfold open_ok. rewrite Hc. discriminate.
  - unfold open_ok. rewrite Hother by exact Hne. exact Ho.
Qed.

Lemma write_parts_total (total : nat) (parts : list (list message)) :
  (exists created, first_word timestamp = Ok created) ->
  forall w i,
    (forall j, j < length parts -> open_ok w (part_path (i + j) total)) ->
    exists w' toc,
      write_parts repr w slug title timestamp idx total i parts = Ok (w', toc).
Proof.
  intros Hc. induction parts as [|part parts IH]; intros w i Ho.
  - simpl. eauto.
  - cbn [write_parts].
    destruct (@write_part_total w total i part Hc) as (w1 & line & E1).
    { specialize (Ho 0). rewrite Nat.add_0_r in Ho. apply Ho. simpl. lia. }
    rewrite E1. cbn [bind fst snd].
    destruct (IH w1 (S i)) as (w2 & toc2 & E2).
    { intros j Hj. eapply write_part_open_ok; [exact E1|].
      replace (S i + j) with (i + S j) by lia. apply Ho. simpl. lia. }
    rewrite E2. cbn [bind]. eauto.
Qed.

(** The parts are numbered from 1 to the total, and no two names are the
    same. *)
Lemma partname_numbers (total : nat) :
  map (fun i => partname slug i total) (seq 0 total)
  = map (fun k => slug ++ lit "_part_" ++ str_of_N (N.of_nat k) ++ lit "_of_"
                    ++ str_of_N (N.of_nat total) ++ lit ".md")
      (seq 1 total).
Proof.
  rewrite <- seq_shift, map_map. apply map_ext. intros i.
  unfold partname. rewrite Nat.add_1_r. reflexivity.
Qed.

Lemma partname_inj (total i j : nat) :
  partname slug i total = partname slug j total -> i = j.
Proof.
  unfold partname. intros H. apply app_inv_head in H. apply app_inv_head in H.
  apply app_inv_tail in H. apply str_of_N_inj in H. lia.
Qed.

End WriterFacts.

Section RoutingFacts.

Variable cfg : config.
Variable repr : json -> str.
Variables slug title timestamp : str.
Variable idx : N.

(** The path of the single document of a thread. *)
Definition single_path : str := path_join CONV_PATH (slug ++ lit ".md").

Lemma write_single_spec (w w' : world) (msgs : list message)
  (toc : list str) :
  write_single_convo repr w slug title timestamp msgs idx = Ok (w', toc) ->
  length toc = 1
  /\ present w' single_path
  /\ (forall p, p <> single_path -> files w' p = files w p).
Proof.
  unfold write_single_convo. fold single_path.
  destruct (should_skip_file (files w) single_path) eqn:Es.
  - intros [= <- <-]. split; [reflexivity|].
    split; [apply should_skip_present; exact Es | reflexivity].
  - destruct (files w single_path) as [[c| |]|] eqn:Ef;
      try discriminate;
      (destruct (first_word timestamp) as [created|e]; [|discriminate];
       cbn [bind];
       destruct (render_messages _ _ _ _ _ _) as [body log];
       unfold write_text; rewrite Ef; cbn [bind];
       intros [= <- <-]; cbn [files];
       split; [reflexivity|];
       split; [eexists; apply write_file_same
              | intros p Hp; apply write_file_other, Hp]).
Qed.

Lemma write_single_total (w : world) (msgs : list message) :
  should_skip_file (files w) single_path = true
  \/ (open_ok w single_path /\ exists created, first_word timestamp = Ok created) ->
  exists w' toc,
    write_single_convo repr w slug title timestamp msgs idx = Ok (w', toc).
Proof.
  unfold write_single_convo. fold single_path.
  intros [Hs | [Ho [created Hc]]].
  - rewrite Hs. eauto.
  - destruct (should_skip_file _ _); [eauto|].
    unfold open_ok in Ho. rewrite Hc. cbn [bind].
    destruct (render_messages _ _ _ _ _ _) as [body log]. unfold write_text.
    destruct (files w single_path) as [[c| |]|];
      try contradiction; cbn [bind]; eauto.
Qed.

Lemma length_concat_uniform (A : Type) (n : nat) (ls : list (list A)) :
  Forall (fun p => length p = n) ls -> length (concat ls) = n * length ls.
Proof.
  induction 1 as [|p ls Hp _ IH]; simpl; [lia|].
  rewrite length_app, IH, Hp. lia.
Qed.

Lemma NoDup_map_injective (A B : Type) (f : A -> B) (xs : list A) :
  (forall x y, f x = f y -> x = y) -> NoDup xs -> NoDup (map f xs).
Proof.
  intros Hf. induction 1 as [|x xs Hx _ IH]; simpl; constructor;
    [|exact IH].
  intros Hin. apply in_map_iff in Hin. destruct Hin as (y & Hy & Hin).
  apply Hf in Hy. subst y. contradiction.
Qed.

(** More messages than the threshold make at least two parts. *)
Lemma chunks_many (msgs : list message) :
  0 < MAX_MESSAGES_PER_FILE cfg ->
  MAX_MESSAGES_PER_FILE cfg < length msgs ->
  exists front lst,
    chunks (MAX_MESSAGES_PER_FILE cfg) msgs = Ok (front ++ [lst])
    /\ concat (front ++ [lst]) = msgs
    /\ Forall (fun p => length p = MAX_MESSAGES_PER_FILE cfg) front
    /\ 1 <= length lst <= MAX_MESSAGES_PER_FILE cfg
    /\ 2 <= length (front ++ [lst]).
Proof.
  intros Hpos Hlen.
  destruct (@chunks_spec _ msgs _ Hpos) as (front & lst & E & Hc & Hf & Hl).
  { intros ->. simpl in Hlen. lia. }
  exists front, lst. repeat split; try assumption; try lia.
  rewrite length_app. simpl.
  assert (Hn : length msgs = length (concat (front ++ [lst]))) by (rewrite Hc; reflexivity).
  rewrite concat_app, length_app, (length_concat_uniform Hf) in Hn.
  simpl in Hn. rewrite app_nil_r in Hn.
  destruct front; simpl in *; lia.
Qed.

End RoutingFacts.

(** C7.  A list of messages longer than the threshold is cut into
    consecutive groups: each of the threshold size but the last, which has
    from one message to the threshold; put end to end the groups are the
    list.  There are at least two, the files are named with the slug, the
    number of the part and the total, the numbers run from 1 to the total,
    and no two names are the same.  When the writer returns, there is one
    index line per part, in order, and the file of each part is there. *)
Theorem chunked_output_partition (cfg : config) (repr : json -> str)
  (w : world) (slug title timestamp : str) (msgs : list message) (idx : N) :
  0 < MAX_MESSAGES_PER_FILE cfg ->
  MAX_MESSAGES_PER_FILE cfg < length msgs ->
  exists front lst,
    let parts := front ++ [lst] in
    let total := length parts in
    chunks (MAX_MESSAGES_PER_FILE cfg) msgs = Ok parts
    /\ concat parts = msgs
    /\ Forall (fun p => length p = MAX_MESSAGES_PER_FILE cfg) front
    /\ 1 <= length lst <= MAX_MESSAGES_PER_FILE cfg
    /\ 2 <= total
    /\ map (fun i => partname slug i total) (seq 0 total)
       = map (fun k => slug ++ lit "_part_" ++ str_of_N (N.of_nat k)
                         ++ lit "_of_" ++ str_of_N (N.of_nat total)
                         ++ lit ".md") (seq 1 total)
    /\ NoDup (map (fun i => partname slug i total) (seq 0 total))
    /\ (forall w' toc,
          write_chunked_convo cfg repr w slug title timestamp msgs idx
          = Ok (w', toc) ->
          length toc = total
          /\ forall i, i < total ->
               present w' (part_path slug i total)
               /\ (nth i toc [] = part_skipped i total
                   \/ nth i toc [] = part_link slug i total))
    /\ ((exists created, first_word timestamp = Ok created) ->
        (forall i, i < total -> open_ok w (part_path slug i total)) ->
        exists w' toc,
          write_chunked_convo cfg repr w slug title timestamp msgs idx
          = Ok (w', toc)).
Proof.
  intros Hpos Hlen.
  destruct (chunks_many cfg msgs Hpos Hlen)
    as (front & lst & E & Hc & Hf & Hl & H2).
  exists front, lst. cbv zeta.
  repeat apply conj; try assumption; try lia.
  - apply partname_numbers.
  - apply NoDup_map_injective; [|apply seq_NoDup].
    intros i j. apply partname_inj.
  - intros w' toc H. unfold write_chunked_convo in H. rewrite E in H.
    cbn [bind] in H.
    apply write_parts_spec in H. destruct H as (Hlt & Hparts & _).
    split; [exact Hlt|]. intros i Hi. apply (Hparts i Hi).
  - intros Hw Ho. unfold write_chunked_convo. rewrite E. cbn [bind].
    apply write_parts_total; [exact Hw|]. intros j Hj. apply Ho. exact Hj.
Qed.

Lemma chunked_output_partition_witness :
  exists front lst,
    chunks 2 [(JStr (lit "user"), lit "a"); (JStr (lit "assistant"), lit "b");
              (JStr (lit "user"), lit "c"); (JStr (lit "assistant"), lit "d");
              (JStr (lit "user"), lit "e")]
    = Ok (front ++ [lst])
    /\ length (front ++ [lst]) = 3 /\ length lst = 1.
Proof.
  destruct (@chunked_output_partition (mk_config true 2) (fun _ => [])
              (mk_world (fun _ => None) []) (lit "s") (lit "t")
              (lit "unknown")
              [(JStr (lit "user"), lit "a"); (JStr (lit "assistant"), lit "b");
               (JStr (lit "user"), lit "c"); (JStr (lit "assistant"), lit "d");
               (JStr (lit "user"), lit "e")] 0%N)
    as (front & lst & E & _); [simpl; lia | simpl; lia |].
  exists front, lst. split; [exact E|].
  cbn [MAX_MESSAGES_PER_FILE] in E.
  change (Ok [[(JStr (lit "user"), lit "a"); (JStr (lit "assistant"), lit "b")];
              [(JStr (lit "user"), lit "c"); (JStr (lit "assistant"), lit "d")];
              [(JStr (lit "user"), lit "e")]] = Ok (front ++ [lst])) in E.
  injection E as E.
  assert (Hl : length (front ++ [lst]) = 3) by (rewrite <- E; reflexivity).
  split; [exact Hl|].
  assert (Hlast : last (front ++ [lst]) [] = lst) by apply last_last.
  rewrite <- E in Hlast. rewrite <- Hlast. reflexivity.
Defined.

(** C2.  A thread of at most the threshold of messages goes to the single
    writer: when it returns there is one index line, the one document of
    the thread is there, and no other path has changed.  A thread of more
    messages goes to the chunked writer, under a heading line in the
    index, and (the threshold being positive) gets at least two parts. *)
Theorem routing_by_threshold (cfg : config) (repr : json -> str)
  (w : world) (slug title timestamp : str) (msgs : list message) (idx : N) :
  (length msgs <= MAX_MESSAGES_PER_FILE cfg ->
   route cfg repr w slug title timestamp msgs idx
   = write_single_convo repr w slug title timestamp msgs idx
   /\ (forall w' toc,
         route cfg repr w slug title timestamp msgs idx = Ok (w', toc) ->
         length toc = 1
         /\ present w' (single_path slug)
         /\ forall p, p <> single_path slug -> files w' p = files w p)
   /\ (should_skip_file (files w) (single_path slug) = true
       \/ (open_ok w (single_path slug)
           /\ exists created, first_word timestamp = Ok created) ->
       exists w' toc,
         route cfg repr w slug title timestamp msgs idx = Ok (w', toc)))
  /\ (MAX_MESSAGES_PER_FILE cfg < length msgs ->
      route cfg repr w slug title timestamp msgs idx
      = (r <- write_chunked_convo cfg repr w slug title timestamp msgs idx ;;
         Ok (fst r,
             (lit "- " ++ title ++ lit " (" ++ timestamp ++ lit ")") :: snd r))
      /\ (0 < MAX_MESSAGES_PER_FILE cfg ->
          forall w' toc,
            route cfg repr w slug title timestamp msgs idx = Ok (w', toc) ->
            exists parts,
              chunks (MAX_MESSAGES_PER_FILE cfg) msgs = Ok parts
              /\ 2 <= length parts
              /\ length toc = S (length parts)
              /\ forall i, i < length parts ->
                   present w' (part_path slug i (length parts)))).
Proof.
  split.
  - intros Hle.
    assert (E : route cfg repr w slug title timestamp msgs idx
                = write_single_convo repr w slug title timestamp msgs idx).
    { unfold route.
      destruct (Nat.ltb_spec (MAX_MESSAGES_PER_FILE cfg) (length msgs));
        [lia | reflexivity]. }
    rewrite E. split; [reflexivity|]. split.
    + intros w' toc H. apply write_single_spec in H. exact H.
    + apply write_single_total.
  - intros Hgt.
    assert (E : route cfg repr w slug title timestamp msgs idx
                = (r <- write_chunked_convo cfg repr w slug title timestamp
                          msgs idx ;;
                   Ok (fst r,
                       (lit "- " ++ title ++ lit " (" ++ timestamp ++ lit ")")
                         :: snd r))).
    { unfold route.
      destruct (Nat.ltb_spec (MAX_MESSAGES_PER_FILE cfg) (length msgs));
        [reflexivity | lia]. }
    rewrite E. split; [reflexivity|].
    intros Hpos w' toc H.
    destruct (chunks_many cfg msgs Hpos Hgt)
      as (front & lst & Ec & _ & _ & _ & H2).
    exists (front ++ [lst]). split; [exact Ec|]. split; [exact H2|].
    unfold write_chunked_convo in H. rewrite Ec in H. cbn [bind] in H.
    destruct (write_parts repr w slug title timestamp idx
                (length (front ++ [lst])) 0 (front ++ [lst]))
      as [[w1 toc1]|e] eqn:Ew; [|discriminate].
    cbn [bind fst snd] in H. injection H as <- <-.
    apply write_parts_spec in Ew. destruct Ew as (Hlt & Hparts & _).
    split; [simpl; rewrite Hlt; reflexivity|].
    intros i Hi. apply (Hparts i Hi).
Qed.

Lemma routing_by_threshold_witness :
  route default_config (fun _ => []) (mk_world (fun _ => None) [])
    (lit "test") (lit "Test") (lit "2023-11-14 22:13")
    (repeat (JStr (lit "user"), lit "Hello") 100) 0
  = write_single_convo (fun _ => []) (mk_world (fun _ => None) [])
      (lit "test") (lit "Test") (lit "2023-11-14 22:13")
      (repeat (JStr (lit "user"), lit "Hello") 100) 0
  /\ exists parts,
       chunks 100 (repeat (JStr (lit "user"), lit "Hello") 101) = Ok parts
       /\ 2 <= length parts.
Proof.
  split.
  - apply (@routing_by_threshold default_config (fun _ => [])
             (mk_world (fun _ => None) []) (lit "test") (lit "Test")
             (lit "2023-11-14 22:13")
             (repeat (JStr (lit "user"), lit "Hello") 100) 0%N).
    rewrite repeat_length. simpl. lia.
  - destruct (@routing_by_threshold default_config (fun _ => [])
                (mk_world (fun _ => None) []) (lit "test") (lit "Test")
                (lit "2023-11-14 22:13")
                (repeat (JStr (lit "user"), lit "Hello") 101) 0%N)
      as [_ H].
    destruct H as [E H]; [rewrite repeat_length; simpl; lia|].
    destruct (@write_chunked_convo default_config (fun _ => [])
                (mk_world (fun _ => None) []) (lit "test") (lit "Test")
                (lit "2023-11-14 22:13")
                (repeat (JStr (lit "user"), lit "Hello") 101) 0%N)
      as [[w' toc]|e] eqn:Ew; [|vm_compute in Ew; discriminate].
    destruct (H ltac:(simpl; lia) w'
                ((lit "- " ++ lit "Test" ++ lit " (" ++ lit "2023-11-14 22:13"
                    ++ lit ")") :: toc))
      as (parts & Ec & H2 & _).
    + rewrite E. reflexivity.
    + exists parts. split; assumption.
Defined.


(** ** The skip check (C6) *)

Section SkipCheck.

Lemma startswith_iff (p s : str) :
  startswith p s = true <-> exists t, s = p ++ t.
Proof.
  revert s. induction p as [|x p IH]; intros s; simpl.
  - split; [eauto | reflexivity].
  - destruct s as [|y s].
    + split; [discriminate | intros [t H]; discriminate].
    + rewrite andb_true_iff, eqb_char_eq, IH. split.
      * intros [-> [t ->]]. eauto.
      * intros [t H]. injection H as -> ->. eauto.
Qed.

Lemma startswith_app (p t : str) : startswith p (p ++ t) = true.
Proof. apply startswith_iff. eauto. Qed.

Lemma contains_iff (p s : str) :
  contains p s = true <-> exists a b, s = a ++ p ++ b.
Proof.
  induction s as [|c s IH]; cbn [contains]; rewrite orb_true_iff.
  - rewrite startswith_iff. split.
    + intros [[t H] | H]; [|discriminate]. exists [], t. exact H.
    + intros (a & b & H). left. destruct a; [eauto|discriminate].
  - rewrite startswith_iff, IH. split.
    + intros [[t H] | (a & b & ->)]; [exists [], t; exact H|].
      exists (c :: a), b. reflexivity.
    + intros (a & b & H). destruct a as [|x a]; [left; eauto|].
      injection H as -> ->. right. eauto.
Qed.

Lemma contains_prefix (p q s : str) :
  contains (p ++ q) s = true -> contains p s = true.
Proof.
  rewrite !contains_iff. intros (a & b & ->).
  exists a, (q ++ b). rewrite <- app_assoc. reflexivity.
Qed.

(** [g] ends where [sep] first occurs in [g ++ sep ++ rest]. *)
Definition first_at (sep g rest : str) : Prop :=
  forall g1 g2, g = g1 ++ g2 -> g2 <> [] ->
                startswith sep (g2 ++ sep ++ rest) = false.

Lemma before_some (sep s g : str) :
  before sep s = Some g <->
  exists rest, s = g ++ sep ++ rest /\ first_at sep g rest.
Proof.
  revert g. induction s as [|c s IH]; intros g; cbn [before].
  - destruct (startswith sep []) eqn:E.
    + apply startswith_iff in E. destruct E as [t E].
      symmetry in E. apply app_eq_nil in E. destruct E as [-> ->].
      split.
      * intros [= <-]. exists []. split; [reflexivity|].
        intros g1 g2 H. symmetry in H. apply app_eq_nil in H.
        destruct H as [_ ->]. contradiction.
      * intros (rest & H & _). symmetry in H.
        apply app_eq_nil in H. destruct H as [-> _]. reflexivity.
    + split; [discriminate|]. intros (rest & H & _).
      symmetry in H. apply app_eq_nil in H. destruct H as [-> H].
      apply app_eq_nil in H. destruct H as [-> _]. discriminate.
  - destruct (startswith sep (c :: s)) eqn:E.
    + split.
      * intros [= <-]. apply startswith_iff in E. destruct E as [t E].
        exists t. split; [exact E|]. intros g1 g2 H.
        symmetry in H. apply app_eq_nil in H. destruct H as [_ ->].
        contradiction.
      * intros (rest & H & Hfirst). destruct g as [|x g]; [reflexivity|].
        exfalso. specialize (Hfirst [] (x :: g) eq_refl ltac:(discriminate)).
        rewrite <- H in Hfirst. congruence.
    + split.
      * intros H. destruct (before sep s) as [g'|] eqn:Eb; [|discriminate].
        cbn [option_map] in H. injection H as <-.
        destruct (proj1 (IH g') eq_refl) as (rest & Hs & Hfirst).
        exists rest. split; [rewrite Hs; reflexivity|].
        intros g1 g2 H Hne. destruct g1 as [|y g1].
        -- simpl in H. subst g2. simpl. rewrite <- Hs. exact E.
        -- injection H as -> H. apply (Hfirst g1 g2 H Hne).
      * intros (rest & H & Hfirst). destruct g as [|x g].
        -- simpl in H. rewrite H, startswith_app in E. discriminate.
        -- injection H as <- H.
           assert (Hg : before sep s = Some g).
           { apply IH. exists rest. split; [exact H|].
             intros g1 g2 Hg Hne. apply (Hfirst (c :: g1) g2); [|exact Hne].
             rewrite Hg. reflexivity. }
           rewrite Hg. reflexivity.
Qed.

Lemma before_eq (sep s : str) :
  before sep s =
  if startswith sep s then Some []
  else match s with
       | [] => None
       | c :: s' => option_map (cons c) (before sep s')
       end.
Proof. destruct s; reflexivity. Qed.


(** Where [sep] occurs, [before] finds a first occurrence. *)
Lemma before_of_occurrence (sep a b : str) :
  before sep (a ++ sep ++ b) <> None.
Proof.
  induction a as [|c a IH]; rewrite before_eq.
  - cbn [app]. rewrite startswith_app. discriminate.
  - cbn [app]. destruct (startswith sep (c :: a ++ sep ++ b)); [discriminate|].
    destruct (before sep (a ++ sep ++ b)); [discriminate | contradiction].
Qed.

End SkipCheck.

Section HeaderSearch.

(** The opening line and the closing mark of a header block. *)
Definition header_open : str := lit "---" ++ nl.
Definition header_close : str := nl ++ lit "---".

(** [pre] ends a line: it ends with a newline, or it is empty and [bol]
    tells that a line starts here. *)
Definition line_start (bol : bool) (pre : str) : bool :=
  match rev pre with
  | [] => bol
  | c :: _ => eqb_char c "010"
  end.

(** No line that starts in [pre], with [tail] after it, is an opening
    line. *)
Definition no_open_before (bol : bool) (pre tail : str) : Prop :=
  forall p1 p2, pre = p1 ++ p2 -> p2 <> [] -> line_start bol p1 = true ->
                startswith header_open (p2 ++ tail) = false.

Lemma line_start_cons (bol : bool) (c : ascii) (pre : str) :
  line_start bol (c :: pre) = line_start (eqb_char c "010") pre.
Proof.
  unfold line_start. cbn [rev]. destruct (rev pre); reflexivity.
Qed.

Lemma search_header_eq (bol : bool) (s : str) :
  search_header bol s =
  match (if bol then match_header s else None) with
  | Some g => Some g
  | None =>
      match s with
      | [] => None
      | c :: s' => search_header (eqb_char c "010") s'
      end
  end.
Proof. destruct s; reflexivity. Qed.

Lemma match_header_some (s g : str) :
  match_header s = Some g <->
  exists rest, s = header_open ++ g ++ header_close ++ rest
               /\ first_at header_close g rest.
Proof.
  unfold match_header. fold header_open. fold header_close.
  destruct (startswith header_open s) eqn:E.
  - apply startswith_iff in E. destruct E as [t ->].
    change (skipn 4 (header_open ++ t)) with t.
    rewrite before_some. split.
    + intros (rest & -> & H). eauto.
    + intros (rest & H & Hf). apply app_inv_head in H. eauto.
  - split; [discriminate|]. intros (rest & -> & _).
    rewrite startswith_app in E. discriminate.
Qed.

Lemma match_header_of_later (s pre g rest : str) :
  startswith header_open s = true ->
  s = pre ++ header_open ++ g ++ header_close ++ rest -> pre <> [] ->
  match_header s <> None.
Proof.
  intros Ho Hs Hne. unfold match_header. fold header_open. rewrite Ho.
  fold header_close.
  assert (Hlen : 4 <= length (pre ++ header_open ++ g)).
  { rewrite !length_app. destruct pre; [contradiction|]. simpl. lia. }
  rewrite Hs.
  replace (pre ++ header_open ++ g ++ header_close ++ rest)
    with ((pre ++ header_open ++ g) ++ header_close ++ rest)
    by (rewrite <- !app_assoc; reflexivity).
  rewrite skipn_app.
  replace (4 - length (pre ++ header_open ++ g)) with 0 by lia.
  cbn [skipn]. apply before_of_occurrence.
Qed.

Lemma search_header_some (s : str) :
  forall bol g,
    search_header bol s = Some g <->
    exists pre rest,
      s = pre ++ header_open ++ g ++ header_close ++ rest
      /\ line_start bol pre = true
      /\ no_open_before bol pre (header_open ++ g ++ header_close ++ rest)
      /\ first_at header_close g rest.
Proof.
  induction s as [|c s IH]; intros bol g; rewrite search_header_eq.
  - assert (Hnone : match_header [] = None) by reflexivity.
    destruct bol; rewrite ?Hnone; (split; [discriminate|]);
      intros (pre & rest & H & _); destruct pre; discriminate.
  - split.
    + intros H.
      destruct (if bol then match_header (c :: s) else None) as [g0|] eqn:Em.
      * injection H as ->. destruct bol; [|discriminate].
        apply match_header_some in Em. destruct Em as (rest & Hs & Hf).
        exists [], rest. split; [exact Hs|]. split; [reflexivity|].
        split; [|exact Hf].
        intros p1 p2 Hp Hne. symmetry in Hp. apply app_eq_nil in Hp.
        destruct Hp as [_ ->]. contradiction.
      * apply IH in H. destruct H as (pre & rest & Hs & Hl & Hno & Hf).
        exists (c :: pre), rest. split; [rewrite Hs; reflexivity|].
        split; [rewrite line_start_cons; exact Hl|]. split; [|exact Hf].
        intros p1 p2 Hp Hne Hl1. destruct p1 as [|x p1].
        -- cbn [app] in Hp. subst p2. cbn [line_start rev] in Hl1.
           subst bol. cbn [app]. rewrite <- Hs.
           destruct (startswith header_open (c :: s)) eqn:Eo; [|reflexivity].
           exfalso.
           apply (@match_header_of_later (c :: s) (c :: pre) g rest Eo);
             [rewrite Hs; reflexivity | discriminate | exact Em].
        -- injection Hp as <- Hp. rewrite line_start_cons in Hl1.
           apply (Hno p1 p2 Hp Hne Hl1).
    + intros (pre & rest & Hs & Hl & Hno & Hf).
      destruct pre as [|x pre].
      * cbn [line_start rev] in Hl. subst bol. cbn [app] in Hs.
        assert (Hm : match_header (c :: s) = Some g)
          by (apply match_header_some; eauto).
        rewrite Hm. reflexivity.
      * rewrite <- app_comm_cons in Hs.
        assert (Hx : x = c) by congruence. subst x.
        assert (Hs' : s = pre ++ header_open ++ g ++ header_close ++ rest)
          by congruence.
        clear Hs. rename Hs' into Hs.
        assert (Hm : (if bol then match_header (c :: s) else None) = None).
        { destruct bol; [|reflexivity].
          specialize (Hno [] (c :: pre) eq_refl ltac:(discriminate) eq_refl).
          rewrite <- app_comm_cons, <- Hs in Hno.
          unfold match_header. fold header_open. rewrite Hno. reflexivity. }
        rewrite Hm. apply IH. exists pre, rest. split; [exact Hs|].
        split; [rewrite <- line_start_cons with (bol := bol); exact Hl|].
        split; [|exact Hf].
        intros p1 p2 Hp Hne Hl1. apply (Hno (c :: p1) p2).
        -- rewrite Hp. reflexivity.
        -- exact Hne.
        -- rewrite line_start_cons. exact Hl1.
Qed.

End HeaderSearch.






(** ** The media reference resolver (C4, C10) *)

Lemma skipn_length_app (A : Type) (a b : list A) :
  skipn (length a) (a ++ b) = b.
Proof. induction a; simpl; auto. Qed.

Section ReplaceFacts.

Variables old new : str.
Hypothesis old_nonempty : old <> [].

Lemma replace_from_fuel (s : str) :
  forall f1 f2, length s <= f1 -> length s <= f2 ->
                replace_from f1 old new s = replace_from f2 old new s.
Proof.
  remember (length s) as n eqn:Hn.
  revert s Hn. induction n as [n IH] using lt_wf_ind. intros s Hn f1 f2 H1 H2.
  destruct s as [|c s].
  - destruct f1, f2; reflexivity.
  - simpl in Hn. destruct f1 as [|f1]; [lia|]. destruct f2 as [|f2]; [lia|].
    cbn [replace_from]. destruct (startswith old (c :: s)) eqn:E.
    + f_equal. destruct old as [|o old']; [contradiction|].
      apply (IH (length (skipn (length (o :: old')) (c :: s)))); try reflexivity;
        rewrite length_skipn; simpl; lia.
    + f_equal. apply (IH (length s)); try reflexivity; lia.
Qed.

Lemma replace_nonempty (s : str) :
  replace s old new = replace_from (length s) old new s.
Proof. unfold replace. destruct old; [contradiction | reflexivity]. Qed.

Lemma replace_nil : replace [] old new = [].
Proof. rewrite replace_nonempty. reflexivity. Qed.

Lemma replace_skip (c : ascii) (s : str) :
  startswith old (c :: s) = false ->
  replace (c :: s) old new = c :: replace s old new.
Proof.
  intros E. rewrite !replace_nonempty. cbn [length replace_from].
  rewrite E. reflexivity.
Qed.

Lemma replace_hit (s : str) :
  replace (old ++ s) old new = new ++ replace s old new.
Proof.
  rewrite !replace_nonempty.
  assert (Hlen : 0 < length old) by (destruct old; [contradiction | simpl; lia]).
  destruct (old ++ s) as [|c t] eqn:E.
  - apply app_eq_nil in E. destruct E. contradiction.
  - cbn [length replace_from]. rewrite <- E, startswith_app, skipn_length_app.
    f_equal. apply replace_from_fuel; [|lia].
    apply (f_equal (@length ascii)) in E. rewrite length_app in E.
    simpl in E. lia.
Qed.

(** No occurrence of [old] starts within [a], in [a ++ b]. *)
Definition no_start (a b : str) : Prop :=
  forall a1 a2, a = a1 ++ a2 -> a2 <> [] -> startswith old (a2 ++ b) = false.

Lemma replace_pass (a b : str) :
  no_start a b -> replace (a ++ b) old new = a ++ replace b old new.
Proof.
  induction a as [|c a IH]; intros H; [reflexivity|].
  cbn [app]. rewrite replace_skip.
  - f_equal. apply IH. intros a1 a2 Ha Hne.
    apply (H (c :: a1) a2); [rewrite Ha; reflexivity | exact Hne].
  - apply (H [] (c :: a)); [reflexivity | discriminate].
Qed.

End ReplaceFacts.

(** *** The text as matches and other characters *)

(** What the scan of [re.findall] goes through: a match, or a character
    where no match starts. *)
Inductive token : Type :=
| Ch (c : ascii)
| Url (u : str).

Fixpoint tokens_from (fuel : nat) (s : str) : list token :=
  match fuel with
  | O => []
  | S fuel' =>
      match s with
      | [] => []
      | c :: s' =>
          match match_url s with
          | Some u => Url u :: tokens_from fuel' (skipn (length u) s)
          | None => Ch c :: tokens_from fuel' s'
          end
      end
  end.

Definition tokens (content : str) : list token :=
  tokens_from (length content) content.

(** The text of the tokens, with [f u] in the place of each match [u]. *)
Definition token_text (f : str -> str) (t : token) : str :=
  match t with
  | Ch c => [c]
  | Url u => f u
  end.

Definition rewrite_with (f : str -> str) (ts : list token) : str :=
  flat_map (token_text f) ts.

Definition spell (ts : list token) : str := rewrite_with (fun u => u) ts.

Fixpoint urls_of (ts : list token) : list str :=
  match ts with
  | [] => []
  | Ch _ :: ts' => urls_of ts'
  | Url u :: ts' => u :: urls_of ts'
  end.


(** A text that the pattern matches whole. *)
Definition is_url (u : str) : Prop :=
  exists body, u = url_prefix ++ body ++ lit ".png"
               /\ body <> [] /\ Forall (fun c => url_char c = true) body.

(** The host prefix occurs in the text only where a match starts. *)
Fixpoint host_only_in_matches (s : str) : bool :=
  ((if startswith url_prefix s
    then match match_url s with Some _ => true | None => false end
    else true)
   && match s with
      | [] => true
      | _ :: s' => host_only_in_matches s'
      end)%bool.

Section TokenFacts.

Lemma span_spec (p : ascii -> bool) (s a b : str) :
  span p s = (a, b) -> s = a ++ b /\ Forall (fun c => p c = true) a.
Proof.
  revert a b. induction s as [|c s IH]; intros a b; cbn [span].
  - intros [= <- <-]. split; [reflexivity | constructor].
  - destruct (p c) eqn:E.
    + destruct (span p s) as [a' b']. intros [= <- <-].
      destruct (IH a' b' eq_refl) as [-> Hall].
      split; [reflexivity | constructor; assumption].
    + intros [= <- <-]. split; [reflexivity | constructor].
Qed.

Lemma match_url_spec (s u : str) :
  match_url s = Some u -> is_url u /\ exists t, s = u ++ t.
Proof.
  unfold match_url. destruct (startswith url_prefix s) eqn:E; [|discriminate].
  apply startswith_iff in E. destruct E as [t ->].
  rewrite skipn_length_app.
  destruct (span url_char t) as [body rest] eqn:Es.
  apply span_spec in Es. destruct Es as [-> Hall].
  destruct body as [|c body]; [discriminate|].
  destruct (startswith (lit ".png") rest) eqn:Ep; [|discriminate].
  apply startswith_iff in Ep. destruct Ep as [t' ->].
  intros H.
  assert (Hu : u = url_prefix ++ (c :: body) ++ lit ".png") by congruence.
  clear H. subst u. split.
  - exists (c :: body). split; [reflexivity|].
    split; [discriminate | exact Hall].
  - exists t'. rewrite <- !app_assoc. reflexivity.
Qed.

Lemma is_url_nonempty (u : str) : is_url u -> 0 < length u.
Proof. intros (body & -> & _). simpl. lia. Qed.

Lemma tokens_from_spell (fuel : nat) :
  forall s, length s <= fuel -> spell (tokens_from fuel s) = s.
Proof.
  induction fuel as [|fuel IH]; intros s Hf.
  - destruct s; [reflexivity | simpl in Hf; lia].
  - destruct s as [|c s]; [reflexivity|]. cbn [tokens_from].
    destruct (match_url (c :: s)) as [u|] eqn:Em.
    + destruct (match_url_spec _ Em) as [Hu [t Ht]].
      pose proof (is_url_nonempty Hu) as Hlen.
      rewrite Ht, skipn_length_app.
      unfold spell, rewrite_with. cbn [flat_map token_text].
      f_equal. apply IH.
      apply (f_equal (@length ascii)) in Ht. rewrite length_app in Ht.
      simpl in Ht, Hf. lia.
    + unfold spell, rewrite_with. cbn [flat_map token_text app].
      f_equal. apply IH. simpl in Hf. lia.
Qed.

Lemma tokens_spell (content : str) : spell (tokens content) = content.
Proof. apply tokens_from_spell. lia. Qed.

Lemma findall_from_tokens (fuel : nat) :
  forall s, findall_from fuel s = urls_of (tokens_from fuel s).
Proof.
  induction fuel as [|fuel IH]; intros s; [reflexivity|].
  destruct s as [|c s]; [reflexivity|]. cbn [findall_from tokens_from].
  destruct (match_url (c :: s)) as [u|]; cbn [urls_of]; rewrite IH;
    reflexivity.
Qed.

Lemma findall_urls_tokens (content : str) :
  findall_urls content = urls_of (tokens content).
Proof. apply findall_from_tokens. Qed.

(** The tokens of a text where the host prefix only starts matches: the
    matches are matches, and no host prefix starts at a character. *)
Fixpoint aligned (ts : list token) : Prop :=
  match ts with
  | [] => True
  | Ch c :: ts' =>
      startswith url_prefix (c :: spell ts') = false /\ aligned ts'
  | Url u :: ts' => is_url u /\ aligned ts'
  end.

Lemma host_only_skipn (n : nat) :
  forall s, host_only_in_matches s = true ->
            host_only_in_matches (skipn n s) = true.
Proof.
  induction n as [|n IH]; intros s H; [exact H|].
  destruct s as [|c s]; [exact H|]. cbn [skipn]. apply IH.
  cbn [host_only_in_matches] in H. apply andb_true_iff in H. apply H.
Qed.

Lemma tokens_from_aligned (fuel : nat) :
  forall s, length s <= fuel -> host_only_in_matches s = true ->
            aligned (tokens_from fuel s).
Proof.
  induction fuel as [|fuel IH]; intros s Hf H; [exact I|].
  destruct s as [|c s]; [exact I|]. cbn [tokens_from].
  destruct (match_url (c :: s)) as [u|] eqn:Em.
  - destruct (match_url_spec _ Em) as [Hu [t Ht]].
    pose proof (is_url_nonempty Hu) as Hlen.
    split; [exact Hu|]. apply IH; [|apply host_only_skipn; exact H].
    rewrite length_skipn. cbn [length] in *. lia.
  - cbn [aligned]. simpl in Hf.
    rewrite tokens_from_spell by lia.
    cbn [host_only_in_matches] in H. rewrite Em in H.
    apply andb_true_iff in H. destruct H as [H1 H2].
    split; [|apply IH; [lia | exact H2]].
    destruct (startswith url_prefix (c :: s)); [discriminate | reflexivity].
Qed.

Lemma tokens_aligned (content : str) :
  host_only_in_matches content = true -> aligned (tokens content).
Proof. apply tokens_from_aligned. lia. Qed.

End TokenFacts.

(** *** Where the host prefix can start *)

Section HostPrefix.

(** Two texts differ at a place that both have. *)
Fixpoint clash (a b : str) : bool :=
  match a, b with
  | x :: a', y :: b' => (negb (eqb_char x y) || clash a' b')%bool
  | _, _ => false
  end.

Lemma clash_startswith (q w t : str) :
  clash q w = true -> startswith q (w ++ t) = false.
Proof.
  revert w. induction q as [|x q IH]; intros [|y w]; try discriminate.
  cbn [clash app startswith]. destruct (eqb_char x y); cbn [negb orb andb].
  - apply IH.
  - reflexivity.
Qed.

Lemma startswith_prefix (p q s : str) :
  startswith (p ++ q) s = true -> startswith p s = true.
Proof.
  rewrite !startswith_iff. intros [t ->]. exists (q ++ t).
  rewrite <- app_assoc. reflexivity.
Qed.

Lemma forallb_seq (f : nat -> bool) (start len k : nat) :
  forallb f (seq start len) = true -> start <= k < start + len -> f k = true.
Proof.
  intros H Hk. rewrite forallb_forall in H. apply H, in_seq. exact Hk.
Qed.

(** The host prefix does not start again inside itself, and what is left
    of it at a place inside does not go on with a name, a match or a
    newline. *)
Lemma url_prefix_clashes :
  forallb (fun k => clash url_prefix (skipn k url_prefix)
                    && clash (skipn k url_prefix) (lit "h")
                    && clash (skipn k url_prefix) (lit "media/")
                    && clash (skipn k url_prefix) nl)%bool (seq 1 32) = true.
Proof. vm_compute. reflexivity. Qed.

Lemma url_prefix_clash (k : nat) :
  1 <= k <= 32 ->
  clash url_prefix (skipn k url_prefix) = true
  /\ clash (skipn k url_prefix) (lit "h") = true
  /\ clash (skipn k url_prefix) (lit "media/") = true
  /\ clash (skipn k url_prefix) nl = true.
Proof.
  intros Hk.
  pose proof (@forallb_seq _ 1 32 k url_prefix_clashes ltac:(lia)) as H.
  cbv beta in H. rewrite !andb_true_iff in H. tauto.
Qed.

(** The scheme does not fit a run of the class followed by a dot. *)
Lemma scheme_not_in_run (b t : str) :
  Forall (fun c => url_char c = true) b ->
  forall k, k < 6 ->
    startswith (skipn k (lit "https:")) (b ++ lit "." ++ t) = false.
Proof.
  induction 1 as [|c b Hc _ IH]; intros k Hk.
  - do 6 (destruct k as [|k]; [reflexivity|]). lia.
  - assert (Hstep : forall q Q,
               (eqb_char q c = true -> startswith Q (b ++ lit "." ++ t) = false) ->
               startswith (q :: Q) ((c :: b) ++ lit "." ++ t) = false).
    { intros q Q HQ. cbn [app startswith].
      destruct (eqb_char q c); [apply HQ; reflexivity | reflexivity]. }
    destruct k as [|[|[|[|[|[|k]]]]]]; try lia;
      cbn [skipn lit list_ascii_of_string]; apply Hstep; intros E;
      first [ exact (IH 1 ltac:(lia)) | exact (IH 2 ltac:(lia))
            | exact (IH 3 ltac:(lia)) | exact (IH 4 ltac:(lia))
            | exact (IH 5 ltac:(lia)) | idtac ].
    apply eqb_char_eq in E. subst c. discriminate Hc.
Qed.

Lemma host_not_in_run (b t : str) :
  Forall (fun c => url_char c = true) b ->
  startswith url_prefix (b ++ lit ".png" ++ t) = false.
Proof.
  intros Hb. destruct (startswith url_prefix _) eqn:E; [|reflexivity].
  change url_prefix with (lit "https:" ++ skipn 6 url_prefix) in E.
  apply startswith_prefix in E.
  pose proof (@scheme_not_in_run b (lit "png" ++ t) Hb 0 ltac:(lia)) as H.
  cbn [skipn] in H.
  change (lit "." ++ lit "png" ++ t) with (lit ".png" ++ t) in H.
  congruence.
Qed.

(** No host prefix starts within a run of the class and its [.png]. *)
Lemma host_not_in_tail_of_run (b a1 a2 rest : str) :
  Forall (fun c => url_char c = true) b ->
  b ++ lit ".png" = a1 ++ a2 -> a2 <> [] ->
  startswith url_prefix (a2 ++ rest) = false.
Proof.
  intros Hb E Hne. apply app_eq_app in E.
  destruct E as [l [[-> ->] | [-> E]]].
  - rewrite <- app_assoc. apply host_not_in_run.
    apply Forall_app in Hb. apply Hb.
  - do 4 (destruct l as [|? l];
          [cbn [app] in E; subst a2; reflexivity|];
          injection E as <- E).
    symmetry in E. apply app_eq_nil in E. destruct E as [_ ->].
    contradiction.
Qed.

Definition is_name (r : str) : Prop :=
  exists b, r = lit "media/" ++ b ++ lit ".png"
            /\ Forall (fun c => url_char c = true) b.

Lemma host_not_in_name (r a1 a2 rest : str) :
  is_name r -> r = a1 ++ a2 -> a2 <> [] ->
  startswith url_prefix (a2 ++ rest) = false.
Proof.
  intros (b & -> & Hb) E Hne.
  apply (@host_not_in_tail_of_run (lit "media/" ++ b) a1 a2 rest).
  - apply Forall_app. split; [|exact Hb].
    repeat constructor.
  - rewrite <- E, <- app_assoc. reflexivity.
  - exact Hne.
Qed.

Lemma host_not_inside_url (u a1 a2 rest : str) :
  is_url u -> u = a1 ++ a2 -> a1 <> [] -> a2 <> [] ->
  startswith url_prefix (a2 ++ rest) = false.
Proof.
  intros (body & -> & _ & Hb) E H1 H2. apply app_eq_app in E.
  destruct E as [l [[E ->] | [-> E]]].
  - (* the cut is within the prefix *)
    destruct l as [|x l].
    + cbn [app]. rewrite <- app_assoc. apply host_not_in_run. exact Hb.
    + assert (Hl : x :: l = skipn (length a1) url_prefix)
        by (rewrite E, skipn_length_app; reflexivity).
      assert (Hk : 1 <= length a1 <= 32).
      { apply (f_equal (@length ascii)) in E. rewrite length_app in E.
        destruct a1; [contradiction|]. simpl in E. simpl. lia. }
      rewrite Hl, <- app_assoc. apply clash_startswith.
      apply (url_prefix_clash Hk).
  - (* the cut is after the prefix *)
    apply (@host_not_in_tail_of_run body l a2 rest Hb E H2).
Qed.

End HostPrefix.

(** *** One replacement over the tokens *)

Section ReplaceTokens.

(** What follows the tokens: the image lines appended so far. *)
Definition safe_tail (tail : str) : Prop :=
  Forall (fun c => c <> ":"%char) tail
  /\ (tail = [] \/ exists t, tail = nl ++ t).

Variable g : str -> str.
Hypothesis g_renames : forall u, g u = u \/ is_name (g u).

Variable tail : str.
Hypothesis tail_safe : safe_tail tail.

Lemma skipn_step (A : Type) (k : nat) :
  forall (l : list A) q Q, skipn k l = q :: Q -> skipn (S k) l = Q.
Proof.
  induction k as [|k IH]; intros [|x l] q Q H; try discriminate.
  - injection H as _ <-. reflexivity.
  - cbn [skipn] in *. apply (IH _ _ _ H).
Qed.

Lemma skipn_nonempty (A : Type) (k : nat) (l : list A) q Q :
  skipn k l = q :: Q -> k < length l.
Proof.
  intros H. destruct (Nat.lt_ge_cases k (length l)) as [Hlt|Hge];
    [exact Hlt|].
  rewrite skipn_all2 in H by exact Hge. discriminate.
Qed.

(** What is left of a host prefix begun before the tokens is read in the
    characters alone: it is there in the text as it was. *)
Lemma host_run (ts : list token) :
  aligned ts ->
  forall k, 1 <= k ->
    startswith (skipn k url_prefix) (rewrite_with g ts ++ tail) = true ->
    startswith (skipn k url_prefix) (spell ts) = true.
Proof.
  induction ts as [|[c|u] ts IH]; intros Hal k Hk H.
  - destruct (skipn k url_prefix) as [|q Q] eqn:EQ; [reflexivity|].
    exfalso. pose proof (skipn_nonempty _ _ EQ) as Hlt.
    change (length url_prefix) with 33 in Hlt.
    destruct (@url_prefix_clash k ltac:(lia)) as (_ & _ & _ & Hnl).
    rewrite EQ in Hnl. cbn [rewrite_with flat_map app] in H.
    destruct tail_safe as [_ [-> | [t ->]]]; [discriminate H|].
    rewrite (clash_startswith _ _ t Hnl) in H. discriminate.
  - destruct (skipn k url_prefix) as [|q Q] eqn:EQ; [reflexivity|].
    pose proof (skipn_nonempty _ _ EQ) as Hlt.
    change (length url_prefix) with 33 in Hlt.
    apply skipn_step in EQ. destruct Hal as [_ Hal].
    unfold spell, rewrite_with in *. cbn [flat_map token_text app] in *.
    cbn [startswith] in *. apply andb_true_iff in H. destruct H as [H1 H2].
    rewrite H1. cbn [andb]. rewrite <- EQ in *.
    apply (IH Hal (S k)); [lia | exact H2].
  - destruct (skipn k url_prefix) as [|q Q] eqn:EQ; [reflexivity|].
    exfalso. pose proof (skipn_nonempty _ _ EQ) as Hlt.
    change (length url_prefix) with 33 in Hlt.
    destruct (@url_prefix_clash k ltac:(lia)) as (_ & Hh & Hm & _).
    rewrite EQ in Hh, Hm. destruct Hal as [(body & Hu & _) _].
    unfold rewrite_with in H. cbn [flat_map token_text] in H.
    destruct (g_renames u) as [Eg | (b & Eg & _)]; rewrite Eg in H.
    + rewrite Hu in H.
      change url_prefix with (lit "h" ++ skipn 1 url_prefix) in H.
      rewrite <- !app_assoc in H.
      rewrite (clash_startswith _ _ _ Hh) in H. discriminate.
    + rewrite <- !app_assoc in H.
      rewrite (clash_startswith _ _ _ Hm) in H. discriminate.
Qed.

Variables v r : str.
Hypothesis v_url : is_url v.
Hypothesis r_name : is_name r.

Lemma url_nonempty : v <> [].
Proof. destruct v_url as (body & -> & _). discriminate. Qed.

Lemma url_starts_with_host (s : str) :
  startswith v s = true -> startswith url_prefix s = true.
Proof.
  destruct v_url as (body & -> & _). apply startswith_prefix.
Qed.

Lemma url_not_in_tail (a2 : str) :
  Forall (fun c => c <> ":"%char) a2 -> startswith v a2 = false.
Proof.
  intros Ha. destruct (startswith v a2) eqn:H; [|reflexivity]. exfalso.
  apply url_starts_with_host in H.
  change url_prefix with (lit "https:" ++ skipn 6 url_prefix) in H.
  apply startswith_prefix, startswith_iff in H. destruct H as [t ->].
  rewrite Forall_forall in Ha. apply (Ha ":"%char); [|reflexivity].
  apply in_or_app. left. simpl. tauto.
Qed.

Lemma replace_tail : replace tail v r = tail.
Proof.
  rewrite <- (app_nil_r tail) at 1.
  rewrite replace_pass; [|exact url_nonempty|].
  - rewrite replace_nil by exact url_nonempty. apply app_nil_r.
  - intros a1 a2 E Hne. rewrite app_nil_r. apply url_not_in_tail.
    destruct tail_safe as [Hc _]. rewrite E in Hc.
    apply Forall_app in Hc. apply Hc.
Qed.

Lemma startswith_app_same (p a b : str) :
  startswith (p ++ a) (p ++ b) = startswith a b.
Proof.
  induction p as [|x p IH]; [reflexivity|].
  cbn [app startswith]. rewrite eqb_char_refl. exact IH.
Qed.

Lemma body_unique (bv : str) :
  Forall (fun c => url_char c = true) bv ->
  forall bu X,
    Forall (fun c => url_char c = true) bu ->
    startswith (bv ++ lit ".png") (bu ++ lit ".png" ++ X) = true ->
    bv = bu.
Proof.
  induction 1 as [|c bv Hc _ IH]; intros bu X Hu H.
  - destruct Hu as [|d bu Hd _]; [reflexivity|]. exfalso.
    cbn [app lit list_ascii_of_string startswith] in H.
    apply andb_true_iff in H. destruct H as [H _].
    apply eqb_char_eq in H. subst d. discriminate Hd.
  - destruct Hu as [|d bu Hd Hu].
    + exfalso. cbn [app lit list_ascii_of_string startswith] in H.
      apply andb_true_iff in H. destruct H as [H _].
      apply eqb_char_eq in H. subst c. discriminate Hc.
    + cbn [app startswith] in H. apply andb_true_iff in H.
      destruct H as [H1 H2]. apply eqb_char_eq in H1. subst d.
      f_equal. apply (IH bu X Hu H2).
Qed.

Lemma url_unique (u X : str) :
  is_url u -> startswith v (u ++ X) = true -> v = u.
Proof.
  destruct v_url as (bv & -> & _ & Hbv). intros (bu & -> & _ & Hbu) H.
  rewrite <- !app_assoc, startswith_app_same in H.
  rewrite (body_unique Hbv X Hbu H). reflexivity.
Qed.

(** One turn of the loop on the text of the tokens: the matches equal to
    [v] that still stand are replaced, and nothing else. *)
Lemma replace_tokens (ts : list token) :
  aligned ts ->
  replace (rewrite_with g ts ++ tail) v r
  = rewrite_with (fun u => if (eqb u v && eqb (g u) u)%bool then r else g u)
      ts ++ tail.
Proof.
  induction ts as [|[c|u] ts IH]; intros Hal.
  - apply replace_tail.
  - destruct Hal as [Hc Hal]. unfold rewrite_with in *.
    cbn [flat_map token_text app]. rewrite replace_skip.
    + f_equal. apply IH. exact Hal.
    + exact url_nonempty.
    + destruct (startswith v _) eqn:E; [|reflexivity]. exfalso.
      apply url_starts_with_host in E.
      change url_prefix with ("h"%char :: skipn 1 url_prefix) in E, Hc.
      cbn [startswith] in E, Hc. apply andb_true_iff in E.
      destruct E as [E1 E2]. rewrite E1 in Hc. cbn [andb] in Hc.
      apply (host_run ts Hal (k := 1)) in E2; [|lia].
      unfold spell, rewrite_with in *. congruence.
  - destruct Hal as [Hu Hal]. unfold rewrite_with in *.
    cbn [flat_map token_text]. rewrite <- !app_assoc.
    destruct (eqb (g u) u) eqn:Egu.
    + apply eqb_eq in Egu. rewrite Egu.
      destruct (eqb u v) eqn:Euv; cbn [andb].
      * apply eqb_eq in Euv. subst u.
        rewrite replace_hit by exact url_nonempty. f_equal.
        apply IH. exact Hal.
      * rewrite replace_pass; [f_equal; apply IH; exact Hal
                              | exact url_nonempty |].
        intros a1 a2 E Hne. destruct a1 as [|x a1].
        -- cbn [app] in E. subst a2.
           destruct (startswith v _) eqn:Es; [|reflexivity]. exfalso.
           apply (url_unique _ Hu) in Es. subst u.
           rewrite eqb_refl in Euv. discriminate.
        -- destruct (startswith v _) eqn:Es; [|reflexivity]. exfalso.
           apply url_starts_with_host in Es.
           rewrite (host_not_inside_url _ Hu E) in Es;
             [discriminate | discriminate | exact Hne].
    + rewrite andb_false_r.
      destruct (g_renames u) as [Eg | Hn];
        [rewrite Eg, eqb_refl in Egu; discriminate|].
      rewrite replace_pass; [f_equal; apply IH; exact Hal
                            | exact url_nonempty |].
      intros a1 a2 E Hne.
      destruct (startswith v _) eqn:Es; [|reflexivity]. exfalso.
      apply url_starts_with_host in Es.
      rewrite (@host_not_in_name (g u) a1 a2 _ Hn E Hne) in Es.
      discriminate.
Qed.

End ReplaceTokens.

(** *** The loop of [sanitize_and_log_images] *)

(** The place of the first occurrence of [u] in [l]. *)
Fixpoint index_of (u : str) (l : list str) : nat :=
  match l with
  | [] => 0
  | x :: l' => if eqb u x then 0 else S (index_of u l')
  end.

Definition mem (u : str) (l : list str) : bool := existsb (eqb u) l.

Section SanitizeLoop.

Variable title : str.
Variable idx : N.

(** The name, the image line and the log line of the match number [k]. *)
Definition name_of (k : nat) : str := base_name title idx (N.of_nat k).

Definition image_lines (start len : nat) : str :=
  flat_map (fun k => nl ++ nl ++ image_ref (name_of k)) (seq start len).

Definition log_lines (start len : nat) : list str :=
  map (fun k => log_entry (name_of k) title) (seq start len).

(** What stands in the place of a match once the matches [done] have been
    through the loop. *)
Definition renamed (done : list str) (u : str) : str :=
  if mem u done then lit "media/" ++ name_of (S (index_of u done)) else u.

Lemma uint_digits (d : Decimal.uint) :
  Forall (fun c => is_digit c = true)
    (list_ascii_of_string (DecimalString.NilEmpty.string_of_uint d)).
Proof. induction d; simpl; constructor; auto. Qed.

Lemma fmt_N_digits (w : nat) (n : N) :
  Forall (fun c => is_digit c = true) (fmt_N w n).
Proof.
  unfold fmt_N, zfill, str_of_N. apply Forall_app. split.
  - apply Forall_forall. intros c Hc. apply repeat_spec in Hc. subst c.
    reflexivity.
  - apply uint_digits.
Qed.

Lemma digit_url_char (c : ascii) : is_digit c = true -> url_char c = true.
Proof.
  intros H.
  assert (E : (negb (is_digit c) || url_char c)%bool = true).
  { revert c H. intros c _. revert c. apply forall_ascii. vm_compute.
    reflexivity. }
  rewrite H in E. exact E.
Qed.

Lemma slug_char_url_char (c : ascii) : url_char (slug_char c) = true.
Proof. revert c. apply forall_ascii. vm_compute. reflexivity. Qed.

Lemma name_of_shape (k : nat) :
  exists b, name_of k = b ++ lit ".png"
            /\ Forall (fun c => url_char c = true) b.
Proof.
  unfold name_of, base_name.
  exists ((match slugify title with [] => lit "image" | _ :: _ => slugify title end)
            ++ lit "_" ++ fmt_N 3 idx ++ lit "_" ++ fmt_N 2 (N.of_nat k)).
  split; [rewrite <- !app_assoc; reflexivity|].
  assert (Hd : forall w n, Forall (fun c => url_char c = true) (fmt_N w n)).
  { intros w n. eapply Forall_impl; [|apply fmt_N_digits].
    apply digit_url_char. }
  apply Forall_app. split.
  - destruct (slugify title) as [|c s] eqn:E; [repeat constructor|].
    rewrite <- E. unfold slugify. apply Forall_forall. intros x Hx.
    apply in_map_iff in Hx. destruct Hx as [y [<- _]].
    apply slug_char_url_char.
  - apply Forall_app. split; [repeat constructor|].
    apply Forall_app. split; [apply Hd|].
    apply Forall_app. split; [repeat constructor | apply Hd].
Qed.

Lemma renamed_is_name (k : nat) : is_name (lit "media/" ++ name_of k).
Proof.
  destruct (name_of_shape k) as (b & -> & Hb). exists b. split; [reflexivity | exact Hb].
Qed.

Lemma renamed_renames (done : list str) (u : str) :
  renamed done u = u \/ is_name (renamed done u).
Proof.
  unfold renamed. destruct (mem u done); [right | left; reflexivity].
  apply renamed_is_name.
Qed.

Lemma url_char_not_colon (c : ascii) : url_char c = true -> c <> ":"%char.
Proof. intros H ->. discriminate H. Qed.

Lemma image_lines_safe (len : nat) : safe_tail (image_lines 1 len).
Proof.
  unfold safe_tail, image_lines. split.
  - apply Forall_forall. intros c Hc. apply in_flat_map in Hc.
    destruct Hc as (k & _ & Hc). unfold image_ref in Hc.
    destruct (name_of_shape k) as (b & E & Hb). rewrite E in Hc.
    repeat (apply in_app_or in Hc; destruct Hc as [Hc|Hc]);
      try (simpl in Hc; intuition (subst; discriminate)).
    rewrite Forall_forall in Hb. apply url_char_not_colon, Hb, Hc.
  - destruct len; [left; reflexivity|]. right. cbn [seq flat_map].
    rewrite <- !app_assoc. eexists. reflexivity.
Qed.

Lemma name_not_url (k : nat) (u : str) :
  is_url u -> eqb (lit "media/" ++ name_of k) u = false.
Proof.
  intros (body & -> & _). reflexivity.
Qed.

Lemma mem_app (u : str) (a b : list str) :
  mem u (a ++ b) = (mem u a || mem u b)%bool.
Proof. apply existsb_app. Qed.

Lemma index_of_app_in (u : str) (a b : list str) :
  mem u a = true -> index_of u (a ++ b) = index_of u a.
Proof.
  induction a as [|x a IH]; [discriminate|]. cbn [mem existsb app index_of].
  destruct (eqb u x); [reflexivity|]. cbn [orb]. intros H.
  f_equal. apply IH. exact H.
Qed.

Lemma index_of_app_out (u : str) (a b : list str) :
  mem u a = false -> index_of u (a ++ b) = length a + index_of u b.
Proof.
  induction a as [|x a IH]; [reflexivity|]. cbn [mem existsb app index_of].
  destruct (eqb u x); [discriminate|]. cbn [orb]. intros H.
  cbn [length]. rewrite IH by exact H. reflexivity.
Qed.

Lemma rewrite_with_ext (f1 f2 : str -> str) (ts : list token) :
  aligned ts -> (forall u, is_url u -> f1 u = f2 u) ->
  rewrite_with f1 ts = rewrite_with f2 ts.
Proof.
  intros Hal Hf. induction ts as [|[c|u] ts IH].
  - reflexivity.
  - destruct Hal as [_ Hal]. unfold rewrite_with in *. cbn [flat_map].
    f_equal. apply IH. exact Hal.
  - destruct Hal as [Hu Hal]. unfold rewrite_with in *.
    cbn [flat_map token_text]. rewrite (Hf u Hu). f_equal. apply IH.
    exact Hal.
Qed.

Lemma renamed_step (done : list str) (v u : str) :
  is_url u ->
  (if (eqb u v && eqb (renamed done u) u)%bool
   then lit "media/" ++ name_of (S (length done)) else renamed done u)
  = renamed (done ++ [v]) u.
Proof.
  intros Hu. unfold renamed. rewrite mem_app.
  destruct (mem u done) eqn:Em; cbn [orb].
  - rewrite name_not_url by exact Hu. rewrite andb_false_r.
    rewrite index_of_app_in by exact Em. reflexivity.
  - rewrite eqb_refl, andb_true_r. cbn [mem existsb]. rewrite orb_false_r.
    destruct (eqb u v) eqn:Euv; [|reflexivity].
    rewrite index_of_app_out by exact Em. cbn [index_of]. rewrite Euv.
    rewrite Nat.add_0_r. reflexivity.
Qed.

Lemma image_lines_S (len : nat) :
  image_lines 1 (S len)
  = image_lines 1 len ++ nl ++ nl ++ image_ref (name_of (S len)).
Proof.
  unfold image_lines. rewrite seq_S, flat_map_app. cbn [flat_map].
  rewrite app_nil_r. reflexivity.
Qed.

Lemma log_lines_S (len : nat) :
  log_lines 1 (S len) = log_lines 1 len ++ [log_entry (name_of (S len)) title].
Proof. unfold log_lines. rewrite seq_S, map_app. reflexivity. Qed.

Lemma sanitize_loop_tokens (ts : list token) (log : list str) :
  aligned ts ->
  forall todo done,
    Forall is_url todo ->
    sanitize_loop todo (N.of_nat (S (length done))) title idx
      (rewrite_with (renamed done) ts ++ image_lines 1 (length done))
      (log ++ log_lines 1 (length done))
    = (rewrite_with (renamed (done ++ todo)) ts
         ++ image_lines 1 (length (done ++ todo)),
       log ++ log_lines 1 (length (done ++ todo))).
Proof.
  intros Hal todo. induction todo as [|v todo IH]; intros done Hurls.
  - rewrite app_nil_r. reflexivity.
  - inversion Hurls as [|? ? Hv Htodo]; subst.
    cbn [sanitize_loop]. fold (name_of (S (length done))).
    rewrite (@replace_tokens (renamed done) (renamed_renames done)
               (image_lines 1 (length done)) (image_lines_safe _)
               v (lit "media/" ++ name_of (S (length done))) Hv ts Hal).
    rewrite (@rewrite_with_ext _ (renamed (done ++ [v])) ts Hal)
      by (intros u Hu; apply renamed_step; exact Hu).
    rewrite <- !app_assoc.
    replace (image_lines 1 (length done) ++ nl ++ nl
               ++ image_ref (name_of (S (length done))))
      with (image_lines 1 (length (done ++ [v])))
      by (rewrite length_app, Nat.add_1_r, image_lines_S; reflexivity).
    replace (log_lines 1 (length done)
               ++ [log_entry (name_of (S (length done))) title])
      with (log_lines 1 (length (done ++ [v])))
      by (rewrite length_app, Nat.add_1_r, log_lines_S; reflexivity).
    replace (N.of_nat (S (length done)) + 1)%N
      with (N.of_nat (S (length (done ++ [v]))))
      by (rewrite length_app; simpl; lia).
    rewrite (IH (done ++ [v]) Htodo), <- app_assoc. reflexivity.
Qed.

Lemma urls_of_aligned (ts : list token) :
  aligned ts -> Forall is_url (urls_of ts).
Proof.
  induction ts as [|[c|u] ts IH]; intros Hal.
  - constructor.
  - apply IH. apply Hal.
  - destruct Hal as [Hu Hal]. constructor; [exact Hu | apply IH, Hal].
Qed.

Lemma mem_true_iff (u : str) (l : list str) : mem u l = true <-> In u l.
Proof.
  unfold mem. rewrite existsb_exists. split.
  - intros (x & Hx & E). apply eqb_eq in E. subst x. exact Hx.
  - intros H. exists u. split; [exact H | apply eqb_refl].
Qed.

Lemma rewrite_with_in (f1 f2 : str -> str) (ts : list token) :
  (forall u, In u (urls_of ts) -> f1 u = f2 u) ->
  rewrite_with f1 ts = rewrite_with f2 ts.
Proof.
  induction ts as [|[c|u] ts IH]; intros Hf; unfold rewrite_with in *.
  - reflexivity.
  - cbn [flat_map]. f_equal. apply IH. exact Hf.
  - cbn [flat_map token_text]. rewrite (Hf u) by (left; reflexivity).
    f_equal. apply IH. intros x Hx. apply Hf. right. exact Hx.
Qed.

(** The whole function, for a text where the host prefix only starts
    matches: every match stands replaced by the name of the first match
    of its URL, then come the image lines, one per match. *)
Lemma sanitize_spec (content : str) (log : list str) :
  host_only_in_matches content = true ->
  sanitize_and_log_images content title idx log
  = (rewrite_with
       (fun u => lit "media/"
                   ++ name_of (S (index_of u (findall_urls content))))
       (tokens content)
       ++ image_lines 1 (length (findall_urls content)),
     log ++ log_lines 1 (length (findall_urls content))).
Proof.
  intros H. pose proof (tokens_aligned _ H) as Hal.
  unfold sanitize_and_log_images.
  pose proof (@sanitize_loop_tokens (tokens content) log Hal
                (findall_urls content) []) as E.
  cbn [length app] in E. change (N.of_nat 1) with 1%N in E.
  replace (rewrite_with (renamed []) (tokens content) ++ image_lines 1 0)
    with content in E.
  - unfold log_lines at 1 in E. cbn [seq map] in E. rewrite app_nil_r in E.
    rewrite E by (rewrite findall_urls_tokens; apply urls_of_aligned, Hal).
    f_equal. f_equal. apply rewrite_with_in. intros u Hu.
    unfold renamed. rewrite <- findall_urls_tokens in Hu.
    apply mem_true_iff in Hu. rewrite Hu. reflexivity.
  - unfold image_lines. cbn [seq flat_map]. rewrite app_nil_r.
    symmetry. apply tokens_spell.
Qed.

End SanitizeLoop.

Section Names.

Variable title : str.
Variable idx : N.

(** The number that a decimal text stands for. *)
Definition parse_N (s : str) : N :=
  match DecimalString.NilEmpty.uint_of_string (string_of_list_ascii s) with
  | Some d => N.of_uint d
  | None => 0
  end.

Lemma parse_fmt_N (w : nat) (n : N) : parse_N (fmt_N w n) = n.
Proof.
  unfold fmt_N, zfill. induction (w - length (str_of_N n)) as [|k IH].
  - cbn [repeat app]. unfold parse_N, str_of_N.
    rewrite string_of_list_ascii_of_string, DecimalString.NilEmpty.usu.
    apply DecimalN.Unsigned.of_to.
  - cbn [repeat app]. unfold parse_N in *. cbn [string_of_list_ascii].
    cbn [DecimalString.NilEmpty.uint_of_string].
    destruct (DecimalString.NilEmpty.uint_of_string _) as [d|];
      [|exact IH]. exact IH.
Qed.



End Names.









(* ================================================================== *)
(** * Further properties of the script *)
(* ================================================================== *)

(** ** The shape of a slug *)

Section SlugShape.

Local Open Scope Z_scope.

Definition is_hex (c : ascii) : bool :=
  (in_range 48 57 c || in_range 97 102 c)%bool.

Lemma hex_digit_is_hex (x : Z) : 0 <= x < 16 -> is_hex (Sha1.hex_digit x) = true.
Proof.
  intros H.
  assert (E : In x (map Z.of_nat (seq 0 16))).
  { apply in_map_iff. exists (Z.to_nat x). split; [lia|]. apply in_seq. lia. }
  simpl in E.
  repeat (destruct E as [<- | E]; [reflexivity|]). contradiction.
Qed.

Lemma be_bytes_range (n : nat) (x : Z) :
  Forall (fun b => 0 <= b < 256) (Sha1.be_bytes n x).
Proof.
  induction n as [|n IH]; cbn [Sha1.be_bytes]; constructor; [|exact IH].
  change 255 with (Z.ones 8). rewrite Z.land_ones by lia.
  apply Z.mod_pos_bound. lia.
Qed.

Lemma be_bytes_length (n : nat) (x : Z) : length (Sha1.be_bytes n x) = n.
Proof. induction n; cbn [Sha1.be_bytes length]; congruence. Qed.

Lemma digest_bytes (msg : list Z) :
  length (Sha1.digest msg) = 20%nat
  /\ Forall (fun b => 0 <= b < 256) (Sha1.digest msg).
Proof.
  unfold Sha1.digest.
  destruct (fold_left _ _ _) as [[[[h0 h1] h2] h3] h4]. split.
  - rewrite !length_app, !be_bytes_length. reflexivity.
  - repeat (apply Forall_app; split); apply be_bytes_range.
Qed.

Lemma hex_byte_is_hex (b : Z) :
  0 <= b < 256 -> forallb is_hex (Sha1.hex_byte b) = true.
Proof.
  intros H. unfold Sha1.hex_byte. cbn [forallb].
  rewrite !hex_digit_is_hex; [reflexivity| |].
  - change 15 with (Z.ones 4). rewrite Z.land_ones by lia.
    apply Z.mod_pos_bound. lia.
  - rewrite Z.shiftr_div_pow2 by lia. change (2 ^ 4) with 16.
    split; [apply Z.div_pos; lia | apply Z.div_lt_upper_bound; lia].
Qed.

Lemma hexdigest_shape (msg : list Z) :
  length (Sha1.hexdigest msg) = 40%nat
  /\ forallb is_hex (Sha1.hexdigest msg) = true.
Proof.
  unfold Sha1.hexdigest. destruct (digest_bytes msg) as [Hl Hr].
  revert Hl Hr. generalize (Sha1.digest msg) as bs. intros bs Hl Hr.
  assert (G : forall n, length bs = n ->
                length (flat_map Sha1.hex_byte bs) = (2 * n)%nat
                /\ forallb is_hex (flat_map Sha1.hex_byte bs) = true).
  { clear Hl. induction Hr as [|b bs Hb _ IH]; intros n Hn.
    - subst n. split; reflexivity.
    - destruct n as [|n]; [discriminate|]. injection Hn as Hn.
      destruct (IH n Hn) as [IH1 IH2]. cbn [flat_map]. split.
      + rewrite length_app, IH1. cbn [Sha1.hex_byte length]. lia.
      + rewrite forallb_app, IH2, hex_byte_is_hex by exact Hb. reflexivity. }
  exact (G 20%nat Hl).
Qed.

Lemma is_hex_permitted (c : ascii) : is_hex c = true -> permitted c.
Proof.
  intros H. left.
  assert (G : (negb (is_hex c) || isalnum c)%bool = true).
  { revert c H. intros c _. revert c. apply forall_ascii. vm_compute. reflexivity. }
  rewrite H in G. exact G.
Qed.

Lemma slugify_permitted (t : str) : Forall permitted (slugify t).
Proof.
  unfold slugify. apply Forall_forall. intros x Hx.
  apply in_map_iff in Hx. destruct Hx as [c [<- _]].
  apply slug_char_permitted.
Qed.

Lemma make_slug_shape (title : json) (ts : str) (idx : N) (slug : str) :
  make_slug_or_hash title ts idx = Ok slug ->
  (length slug <= 50)%nat
  /\ Forall permitted slug
  /\ (truthy title = false ->
      length slug = 10%nat /\ forallb is_hex slug = true).
Proof.
  unfold make_slug_or_hash.
  destruct (hexdigest_shape (encode (hash_input ts idx))) as [Hl Hh].
  destruct (truthy title) eqn:Et.
  - destruct title as [| | | | t | |]; try discriminate.
    intros H. assert (E : slug = firstn 50 (slugify t)) by congruence.
    subst slug. clear H.
    split; [apply firstn_le_length|]. split; [|discriminate].
    pose proof (slugify_permitted t) as Hp.
    rewrite <- (firstn_skipn 50 (slugify t)) in Hp.
    apply Forall_app in Hp. apply Hp.
  - intros H.
    assert (E : slug = firstn 10 (Sha1.hexdigest (encode (hash_input ts idx))))
      by congruence.
    subst slug. clear H.
    assert (Hl10 : length (firstn 10 (Sha1.hexdigest (encode (hash_input ts idx)))) = 10%nat).
    { rewrite length_firstn, Hl. reflexivity. }
    assert (Hh10 : forallb is_hex
                     (firstn 10 (Sha1.hexdigest (encode (hash_input ts idx)))) = true).
    { rewrite <- (firstn_skipn 10 (Sha1.hexdigest _)), forallb_app in Hh.
      apply andb_true_iff in Hh. apply Hh. }
    split; [rewrite Hl10; lia|]. split; [|intros _; split; assumption].
    apply Forall_forall. intros c Hc. apply is_hex_permitted.
    rewrite forallb_forall in Hh10. apply Hh10, Hc.
Qed.

End SlugShape.

(** The slug of a thread has at most 50 characters, all of them letters,
    digits, hyphens or underscores; the slug of a thread whose title is
    false is made of exactly ten digits of base 16, in lower case. *)
Theorem slug_bounded_and_permitted
  (title : json) (ts : str) (idx : N) (slug : str) :
  make_slug_or_hash title ts idx = Ok slug ->
  length slug <= 50
  /\ Forall permitted slug
  /\ (truthy title = false ->
      length slug = 10 /\ forallb is_hex slug = true).
Proof. apply make_slug_shape. Qed.

Lemma slug_bounded_and_permitted_witness :
  length (lit "my_first_-_chat_") <= 50
  /\ Forall permitted (lit "my_first_-_chat_").
Proof.
  destruct (@slug_bounded_and_permitted (JStr (lit " My First - Chat! "))
              (lit "unknown") 3%N (lit "my_first_-_chat_"))
    as (H1 & H2 & _); [reflexivity|].
  split; assumption.
Defined.

(** ** Where the documents go *)

Section DocumentPath.

Lemma permitted_not_separator (c : ascii) :
  permitted c -> c <> "/"%char /\ c <> "."%char.
Proof.
  intros [H | [-> | ->]]; split; try discriminate; intros ->; discriminate.
Qed.

(** [os.path.join] under a folder without a final slash, with a name that
    does not start with one. *)
Lemma path_join_below (a b : str) (c : ascii) :
  startswith (lit "/") b = false ->
  last a c <> "/"%char -> a <> [] ->
  path_join a b = a ++ lit "/" ++ b.
Proof.
  intros Hb Hl Ha. unfold path_join. rewrite Hb.
  destruct (rev a) as [|x r] eqn:Er.
  - apply (f_equal (@rev ascii)) in Er. rewrite rev_involutive in Er.
    contradiction.
  - assert (Ea : a = rev r ++ [x]).
    { rewrite <- (rev_involutive a), Er. reflexivity. }
    rewrite Ea, last_last in Hl.
    destruct (eqb_char x "/") eqn:Ex; [|reflexivity].
    apply eqb_char_eq in Ex. contradiction.
Qed.

Lemma startswith_slash (b : str) :
  startswith (lit "/") b = false <-> (forall r, b <> "/"%char :: r).
Proof.
  destruct b as [|c b]; cbn [startswith lit list_ascii_of_string].
  - split; [intros _ r; discriminate | reflexivity].
  - destruct b; rewrite ?andb_true_r;
      (destruct (eqb_char "/" c) eqn:Ex;
       [apply eqb_char_eq in Ex; subst c; split;
        [discriminate | intros H; exfalso; eapply H; reflexivity]
       |split; [intros _ r E; injection E as E _; subst c;
                rewrite eqb_char_refl in Ex; discriminate | reflexivity]]).
Qed.

Lemma document_paths
  (title : json) (ts : str) (idx : N) (slug : str) :
  make_slug_or_hash title ts idx = Ok slug ->
  ~ In "/"%char slug /\ ~ In "."%char slug
  /\ single_path slug = CONV_PATH ++ lit "/" ++ slug ++ lit ".md"
  /\ forall i total,
       part_path slug i total
       = CONV_PATH ++ lit "/"
           ++ (match slug with [] => [] | _ :: _ => slug ++ lit "/" end)
           ++ partname slug i total.
Proof.
  intros H. apply make_slug_shape in H.
  destruct H as (_ & Hp & _).
  assert (Hs : forall c, In c slug -> c <> "/"%char /\ c <> "."%char).
  { intros c Hc. apply permitted_not_separator.
    rewrite Forall_forall in Hp. apply Hp, Hc. }
  assert (Hslash : forall c, In c slug -> c <> "/"%char)
    by (intros c Hc; apply (Hs c Hc)).
  split; [intros Hin; destruct (Hs _ Hin) as [Hx _]; apply Hx; reflexivity|].
  split; [intros Hin; destruct (Hs _ Hin) as [_ Hx]; apply Hx; reflexivity|].
  split.
  - unfold single_path. apply (@path_join_below _ _ "a"%char).
    + apply startswith_slash. intros r E.
      destruct slug as [|c slug']; [discriminate|].
      injection E as -> _. apply (Hslash "/"%char); [left|]; reflexivity.
    + discriminate.
    + discriminate.
  - intros i total. unfold part_path.
    destruct slug as [|c slug'].
    + reflexivity.
    + assert (Hc : c <> "/"%char) by (apply Hslash; left; reflexivity).
      rewrite (@path_join_below CONV_PATH (c :: slug') "a"%char);
        [| apply startswith_slash; intros r E; injection E as -> _;
           contradiction
         | discriminate | discriminate].
      rewrite (@path_join_below _ (partname (c :: slug') i total) "a"%char).
      * rewrite <- !app_assoc. reflexivity.
      * apply startswith_slash. intros r E. unfold partname in E.
        injection E as -> _. contradiction.
      * destruct (exists_last (l := c :: slug') ltac:(discriminate))
          as (front & z & Ez).
        rewrite Ez.
        replace (CONV_PATH ++ lit "/" ++ front ++ [z])
          with ((CONV_PATH ++ lit "/" ++ front) ++ [z])
          by (rewrite <- !app_assoc; reflexivity).
        rewrite last_last. apply Hslash. rewrite Ez.
        apply in_or_app. right. left. reflexivity.
      * discriminate.
Qed.

End DocumentPath.

(** Whatever the title, the documents of a thread are written under the
    conversations folder: the slug holds no path separator and no dot, the
    single document is [<folder>/<slug>.md], and the parts are in the
    subfolder of the slug (in the folder itself when the slug is empty). *)
Theorem document_path_in_folder
  (title : json) (ts : str) (idx : N) (slug : str) :
  make_slug_or_hash title ts idx = Ok slug ->
  ~ In "/"%char slug /\ ~ In "."%char slug
  /\ single_path slug = CONV_PATH ++ lit "/" ++ slug ++ lit ".md"
  /\ forall i total,
       part_path slug i total
       = CONV_PATH ++ lit "/"
           ++ (match slug with [] => [] | _ :: _ => slug ++ lit "/" end)
           ++ partname slug i total.
Proof. apply document_paths. Qed.

Lemma document_path_in_folder_witness :
  single_path (lit "___etc_passwd")
  = lit "gpt_export_markdown/conversations/___etc_passwd.md".
Proof.
  destruct (@document_path_in_folder (JStr (lit "../etc/passwd"))
              (lit "unknown") 0%N (lit "___etc_passwd"))
    as (_ & _ & H & _); [reflexivity|].
  rewrite H. reflexivity.
Defined.

(** ** Blank titles *)

Section BlankTitle.




End BlankTitle.



(** ** Timestamps to the minute, and the date of the header *)

Section Minutes.

Import Calendar CalendarFacts.
Local Open Scope Z_scope.

Variable fromisoformat : str -> result datetime.

(** Two seconds of one minute get one text. *)
Lemma same_minute_same_text (t t' : Z) :
  t / 60 = t' / 60 ->
  format_ts fromisoformat (JInt t) = format_ts fromisoformat (JInt t').
Proof.
  intros H. unfold format_ts, format_ts_body, utcfromtimestamp.
  unfold min_timestamp, max_timestamp.
  assert (E1 : (-62135596800 <=? t) = (-62135596800 <=? t')).
  { destruct (Z.leb_spec (-62135596800) t), (Z.leb_spec (-62135596800) t');
      try reflexivity; exfalso; Z.div_mod_to_equations; lia. }
  assert (E2 : (t <=? 253402300799) = (t' <=? 253402300799)).
  { destruct (Z.leb_spec t 253402300799), (Z.leb_spec t' 253402300799);
      try reflexivity; exfalso; Z.div_mod_to_equations; lia. }
  rewrite E1, E2.
  destruct ((-62135596800 <=? t') && (t' <=? 253402300799))%bool;
    [|reflexivity].
  assert (Ed : t / 86400 = t' / 86400) by (Z.div_mod_to_equations; lia).
  assert (Eh : t mod 86400 / 3600 = t' mod 86400 / 3600)
    by (Z.div_mod_to_equations; lia).
  assert (En : t mod 86400 mod 3600 / 60 = t' mod 86400 mod 3600 / 60)
    by (Z.div_mod_to_equations; lia).
  rewrite Ed. destruct (civil_from_days (t' / 86400)) as [[y m] d].
  cbn [bind]. unfold strftime. cbn [year month day hour minute].
  rewrite Eh, En. reflexivity.
Qed.

Lemma cut_at (c : ascii) (a a' b b' : str) :
  ~ In c a -> ~ In c a' -> a ++ c :: b = a' ++ c :: b' -> a = a' /\ b = b'.
Proof.
  revert a'. induction a as [|x a IH]; intros [|x' a'] Ha Ha' E;
    cbn [app] in E.
  - injection E as E. auto.
  - injection E as E _. exfalso. apply Ha'. left. auto.
  - injection E as E _. exfalso. apply Ha. left. auto.
  - injection E as -> E.
    destruct (IH a') as [-> ->]; auto;
      intros Hin; [apply Ha | apply Ha']; right; exact Hin.
Qed.

Lemma digits_without (c : ascii) (s : str) :
  is_digit c = false -> Forall (fun x => is_digit x = true) s -> ~ In c s.
Proof.
  intros Hc Hs Hin. rewrite Forall_forall in Hs. apply Hs in Hin. congruence.
Qed.

Lemma str_of_N_digits (n : N) :
  Forall (fun c => is_digit c = true) (str_of_N n).
Proof. apply uint_digits. Qed.

Lemma fmt_N_inj (w : nat) (n m : N) : fmt_N w n = fmt_N w m -> n = m.
Proof.
  intros H. apply (f_equal parse_N) in H. rewrite !parse_fmt_N in H. exact H.
Qed.

(** What [strftime] prints tells the fields apart. *)
Lemma strftime_inj (a b : datetime) :
  valid a -> valid b -> strftime a = strftime b ->
  year a = year b /\ month a = month b /\ day a = day b
  /\ hour a = hour b /\ minute a = minute b.
Proof.
  intros Ha Hb E. unfold strftime in E. unfold valid in Ha, Hb.
  apply (@cut_at "-"%char) in E;
    [|apply digits_without; [reflexivity | apply str_of_N_digits]..].
  destruct E as [Ey E]. apply str_of_N_inj in Ey.
  apply (@cut_at "-"%char) in E;
    [|apply digits_without; [reflexivity | apply fmt_N_digits]..].
  destruct E as [Em E]. apply fmt_N_inj in Em.
  apply (@cut_at " "%char) in E;
    [|apply digits_without; [reflexivity | apply fmt_N_digits]..].
  destruct E as [Ed E]. apply fmt_N_inj in Ed.
  apply (@cut_at ":"%char) in E;
    [|apply digits_without; [reflexivity | apply fmt_N_digits]..].
  destruct E as [Eh En]. apply fmt_N_inj in Eh. apply fmt_N_inj in En.
  repeat split; lia.
Qed.

Lemma minute_of_datetime (dt : datetime) :
  valid dt ->
  epoch_seconds dt / 60
  = 1440 * epoch_days (year dt) (month dt) (day dt)
    + 60 * hour dt + minute dt.
Proof.
  intros (_ & _ & _ & _ & _ & Hs). unfold epoch_seconds.
  generalize (epoch_days (year dt) (month dt) (day dt)). intros e.
  Z.div_mod_to_equations. lia.
Qed.

Lemma same_text_same_minute (t t' : Z) :
  min_timestamp <= t <= max_timestamp ->
  min_timestamp <= t' <= max_timestamp ->
  format_ts fromisoformat (JInt t) = format_ts fromisoformat (JInt t') ->
  t / 60 = t' / 60.
Proof.
  intros Ht Ht'.
  destruct (utcfromtimestamp_spec Ht) as (a & Ea & Va & Sa & _).
  destruct (utcfromtimestamp_spec Ht') as (b & Eb & Vb & Sb & _).
  unfold format_ts, format_ts_body. rewrite Ea, Eb. cbn [bind].
  intros E. apply strftime_inj in E; [|assumption..].
  destruct E as (Ey & Em & Ed & Eh & En).
  rewrite <- Sa, <- Sb, !minute_of_datetime by assumption.
  rewrite Ey, Em, Ed, Eh, En. reflexivity.
Qed.

(** The first word of a text that starts with a run without white space,
    followed by a space. *)
Lemma first_word_of (a b : str) :
  a <> [] -> Forall (fun c => isspace c = false) a ->
  first_word (a ++ " "%char :: b) = Ok a.
Proof.
  intros Hne Ha. unfold first_word.
  destruct a as [|x a]; [contradiction|].
  assert (Hx : isspace x = false) by (inversion Ha; assumption).
  cbn [app lstrip]. rewrite Hx. f_equal.
  change (x :: a ++ " "%char :: b) with ((x :: a) ++ " "%char :: b).
  clear Hne Hx. revert Ha. generalize (x :: a). clear. intros a Ha.
  induction Ha as [|c a Hc _ IH]; cbn [app span].
  - reflexivity.
  - rewrite Hc. cbn [negb].
    destruct (span (fun c0 : ascii => negb (isspace c0)) (a ++ " "%char :: b))
      as [u v]. cbn [fst] in *. congruence.
Qed.

Lemma first_word_whole (a : str) :
  a <> [] -> Forall (fun c => isspace c = false) a -> first_word a = Ok a.
Proof.
  intros Hne Ha. unfold first_word.
  destruct a as [|x a]; [contradiction|].
  assert (Hx : isspace x = false) by (inversion Ha; assumption).
  cbn [lstrip]. rewrite Hx. f_equal.
  clear Hne Hx. revert Ha. generalize (x :: a). clear. intros a Ha.
  induction Ha as [|c a Hc _ IH]; cbn [span]; [reflexivity|].
  rewrite Hc. cbn [negb].
  destruct (span (fun c0 : ascii => negb (isspace c0)) a) as [u v].
  cbn [fst] in *. congruence.
Qed.

Lemma digit_not_space (c : ascii) : is_digit c = true -> isspace c = false.
Proof.
  intros H.
  assert (E : (negb (is_digit c) || negb (isspace c))%bool = true).
  { clear H. revert c. apply forall_ascii. vm_compute. reflexivity. }
  rewrite H in E. cbn in E. apply negb_true_iff in E. exact E.
Qed.

Lemma str_of_N_nonempty (n : N) : str_of_N n <> [].
Proof.
  intros E. assert (H : str_of_N n = str_of_N 0 -> False).
  { rewrite E. discriminate. }
  assert (Hn : parse_N (fmt_N 0 n) = n) by apply parse_fmt_N.
  unfold fmt_N, zfill in Hn. cbn [Nat.sub repeat app] in Hn.
  rewrite E in Hn. cbn in Hn. subst n. apply H. reflexivity.
Qed.

(** The date that [strftime] prints, before the space. *)
Definition date_text (dt : datetime) : str :=
  str_of_N (Z.to_N (year dt)) ++ lit "-" ++ fmt_N 2 (Z.to_N (month dt))
    ++ lit "-" ++ fmt_N 2 (Z.to_N (day dt)).

Lemma first_word_strftime (dt : datetime) :
  first_word (strftime dt) = Ok (date_text dt).
Proof.
  unfold strftime.
  replace (str_of_N (Z.to_N (year dt)) ++ lit "-" ++ fmt_N 2 (Z.to_N (month dt))
             ++ lit "-" ++ fmt_N 2 (Z.to_N (day dt)) ++ lit " "
             ++ fmt_N 2 (Z.to_N (hour dt)) ++ lit ":" ++ fmt_N 2 (Z.to_N (minute dt)))
    with (date_text dt ++ " "%char
            :: fmt_N 2 (Z.to_N (hour dt)) ++ lit ":" ++ fmt_N 2 (Z.to_N (minute dt)))
    by (unfold date_text; rewrite <- !app_assoc; reflexivity).
  apply first_word_of.
  - unfold date_text. pose proof (str_of_N_nonempty (Z.to_N (year dt))).
    destruct (str_of_N (Z.to_N (year dt))); [contradiction | discriminate].
  - assert (Hg : forall s, Forall (fun c => is_digit c = true) s ->
                   Forall (fun c => isspace c = false) s).
    { intros s. apply Forall_impl. apply digit_not_space. }
    unfold date_text.
    apply Forall_app; split; [apply Hg, str_of_N_digits|].
    apply Forall_app; split; [repeat constructor|].
    apply Forall_app; split; [apply Hg, fmt_N_digits|].
    apply Forall_app; split; [repeat constructor|].
    apply Hg, fmt_N_digits.
Qed.

Lemma created_total (ts : json) :
  exists created,
    first_word (format_ts fromisoformat ts) = Ok created /\ created <> []
    /\ (format_ts fromisoformat ts = lit "unknown" \/
        exists dt, format_ts fromisoformat ts = strftime dt
                   /\ created = date_text dt).
Proof.
  assert (Hu : exists created,
             first_word (lit "unknown") = Ok created /\ created <> []).
  { exists (lit "unknown"). split; [reflexivity | discriminate]. }
  assert (Hd : forall dt, date_text dt <> []).
  { intros dt. unfold date_text.
    pose proof (str_of_N_nonempty (Z.to_N (year dt))).
    destruct (str_of_N (Z.to_N (year dt))); [contradiction | discriminate]. }
  unfold format_ts.
  destruct (format_ts_body fromisoformat ts) as [s|e] eqn:E.
  - assert (Hs : s = lit "unknown" \/ exists dt, s = strftime dt).
    { unfold format_ts_body in E.
      destruct ts as [| b | t | f | s0 | l | kv];
        try (left; congruence);
        repeat match type of E with
               | context [bind ?r _] => destruct r; cbn [bind] in E
               end; try discriminate;
        right; eexists; injection E as <-; reflexivity. }
    destruct Hs as [-> | [dt ->]].
    + destruct Hu as (c & Hc & Hn). exists c. auto.
    + exists (date_text dt). split; [apply first_word_strftime|].
      split; [apply Hd|]. right. exists dt. auto.
  - destruct Hu as (c & Hc & Hn). exists c. auto.
Qed.

End Minutes.

(** The formatter cuts a whole number of seconds down to its minute: two
    seconds of one minute get the same text, and within the years 1 to
    9999 two seconds of different minutes get different texts. *)
Theorem format_ts_by_minute
  (fromisoformat : str -> result datetime) (t t' : Z) :
  ((t / 60 = t' / 60)%Z ->
   format_ts fromisoformat (JInt t) = format_ts fromisoformat (JInt t'))
  /\ ((Calendar.min_timestamp <= t <= Calendar.max_timestamp)%Z ->
      (Calendar.min_timestamp <= t' <= Calendar.max_timestamp)%Z ->
      format_ts fromisoformat (JInt t) = format_ts fromisoformat (JInt t') ->
      (t / 60 = t' / 60)%Z).
Proof.
  split; [apply same_minute_same_text | apply same_text_same_minute].
Qed.

Lemma format_ts_by_minute_witness :
  format_ts (fun _ => Raise ValueError) (JInt 1700000000)
  = format_ts (fun _ => Raise ValueError) (JInt 1700000039)
  /\ (1700000000 / 60 = 1700000039 / 60)%Z.
Proof.
  destruct (format_ts_by_minute (fun _ => Raise ValueError)
              1700000000 1700000039) as [H1 H2].
  split; [apply H1; reflexivity|].
  apply H2; [unfold Calendar.min_timestamp, Calendar.max_timestamp; lia..|].
  apply H1. reflexivity.
Defined.

(** The [created] field of a header never fails on a timestamp of the
    formatter: [timestamp.split()[0]] is there and is not empty; it is
    ["unknown"] or the date printed by [strftime], without the time. *)
Theorem created_field_of_timestamp
  (fromisoformat : str -> result datetime) (ts : json) :
  exists created,
    first_word (format_ts fromisoformat ts) = Ok created /\ created <> []
    /\ (format_ts fromisoformat ts = lit "unknown" \/
        exists dt, format_ts fromisoformat ts = strftime dt
                   /\ created = date_text dt).
Proof. apply created_total. Qed.

(** ** The resolver on any text *)

Section ResolverShape.

Variable title : str.
Variable idx : N.

Lemma url_no_newline (v : str) : is_url v -> ~ In "010"%char v.
Proof.
  intros (body & -> & _ & Hb) Hin.
  apply in_app_or in Hin. destruct Hin as [Hin | Hin].
  - revert Hin. cbn. intuition discriminate.
  - apply in_app_or in Hin. destruct Hin as [Hin | Hin].
    + rewrite Forall_forall in Hb. apply Hb in Hin. discriminate.
    + revert Hin. cbn. intuition discriminate.
Qed.

(** A match that starts in the text ends in the text: the lines appended
    start with a newline. *)
Lemma url_ends_before_tail (v a tail : str) :
  is_url v -> safe_tail tail ->
  startswith v (a ++ tail) = true -> exists a', a = v ++ a'.
Proof.
  intros Hv [_ Ht] H. apply startswith_iff in H. destruct H as [t E].
  apply app_eq_app in E. destruct E as [l [[-> _] | [Ev El]]]; [eauto|].
  destruct l as [|x l];
    [exists []; rewrite app_nil_r in *; symmetry; exact Ev|].
  exfalso. destruct Ht as [-> | [t' ->]]; [discriminate|].
  injection El as <- _. apply (url_no_newline Hv). rewrite Ev.
  apply in_or_app. right. left. reflexivity.
Qed.

Lemma replace_before_tail (v r tail : str) :
  is_url v -> safe_tail tail ->
  forall a, replace (a ++ tail) v r = replace a v r ++ tail.
Proof.
  intros Hv Ht a. pose proof (url_nonempty Hv) as Hne.
  remember (length a) as n eqn:Hn. revert a Hn.
  induction n as [n IH] using lt_wf_ind. intros a Hn.
  destruct a as [|c a].
  - cbn [app]. rewrite (replace_tail Ht r Hv), (replace_nil r Hne).
    reflexivity.
  - destruct (startswith v ((c :: a) ++ tail)) eqn:E.
    + destruct (url_ends_before_tail _ Hv Ht E) as [a' Ea]. rewrite Ea.
      rewrite <- app_assoc, !(replace_hit r Hne), <- app_assoc. f_equal.
      apply (IH (length a')); [|reflexivity].
      apply (f_equal (@length ascii)) in Ea. rewrite length_app in Ea.
      pose proof (is_url_nonempty Hv). lia.
    + cbn [app] in *. rewrite (replace_skip r Hne _ _ E).
      rewrite (replace_skip r Hne).
      * cbn [app]. f_equal. apply (IH (length a)); [|reflexivity].
        simpl in Hn. lia.
      * destruct (startswith v (c :: a)) eqn:E'; [|reflexivity].
        apply startswith_iff in E'. destruct E' as [t Et].
        change (c :: a ++ tail) with ((c :: a) ++ tail) in E.
        rewrite Et, <- app_assoc, startswith_app in E. discriminate.
Qed.

(** The replacements of the loop, on the text alone. *)
Fixpoint replaced (urls : list str) (count : nat) (text : str) : str :=
  match urls with
  | [] => text
  | url :: urls' =>
      replaced urls' (S count)
        (replace text url (lit "media/" ++ name_of title idx count))
  end.

Lemma sanitize_loop_shape (urls : list str) :
  Forall is_url urls ->
  forall d text log,
    sanitize_loop urls (N.of_nat (S d)) title idx
      (text ++ image_lines title idx 1 d) (log ++ log_lines title idx 1 d)
    = (replaced urls (S d) text ++ image_lines title idx 1 (d + length urls),
       log ++ log_lines title idx 1 (d + length urls)).
Proof.
  induction 1 as [|v urls Hv _ IH]; intros d text log.
  - cbn [sanitize_loop replaced length]. rewrite Nat.add_0_r. reflexivity.
  - cbn [sanitize_loop replaced length]. fold (name_of title idx (S d)).
    rewrite (@replace_before_tail v _ _ Hv (image_lines_safe title idx d)).
    rewrite <- !app_assoc.
    replace (image_lines title idx 1 d ++ nl ++ nl
               ++ image_ref (name_of title idx (S d)))
      with (image_lines title idx 1 (S d))
      by (rewrite image_lines_S; reflexivity).
    replace (log_lines title idx 1 d
               ++ [log_entry (name_of title idx (S d)) title])
      with (log_lines title idx 1 (S d))
      by (rewrite log_lines_S; reflexivity).
    replace (N.of_nat (S d) + 1)%N with (N.of_nat (S (S d))) by lia.
    rewrite (IH (S d)). rewrite Nat.add_succ_r. reflexivity.
Qed.

Lemma findall_from_urls (fuel : nat) :
  forall s, Forall is_url (findall_from fuel s).
Proof.
  induction fuel as [|fuel IH]; intros s; [constructor|].
  destruct s as [|c s]; [constructor|]. cbn [findall_from].
  destruct (match_url (c :: s)) as [u|] eqn:Em; [|apply IH].
  constructor; [apply (match_url_spec _ Em) | apply IH].
Qed.

Lemma sanitize_shape (content : str) (log : list str) :
  sanitize_and_log_images content title idx log
  = (replaced (findall_urls content) 1 content
       ++ image_lines title idx 1 (length (findall_urls content)),
     log ++ log_lines title idx 1 (length (findall_urls content))).
Proof.
  unfold sanitize_and_log_images.
  pose proof (@sanitize_loop_shape (findall_urls content)
                (findall_from_urls _ _) 0 content log) as E.
  unfold image_lines at 1, log_lines at 1 in E.
  cbn [seq flat_map map Nat.add] in E. rewrite !app_nil_r in E.
  exact E.
Qed.

(** *** Texts that the resolver leaves alone *)

Lemma span_stop (p : ascii -> bool) (a : str) (c : ascii) (r : str) :
  Forall (fun x => p x = true) a -> p c = false ->
  span p (a ++ c :: r) = (a, c :: r).
Proof.
  induction 1 as [|x a Hx _ IH]; intros Hc; cbn [app span].
  - rewrite Hc. reflexivity.
  - rewrite Hx, (IH Hc). reflexivity.
Qed.

Lemma match_url_complete (u t : str) :
  is_url u -> match_url (u ++ t) = Some u.
Proof.
  intros (body & -> & Hne & Hb). unfold match_url.
  rewrite <- !app_assoc, startswith_app, skipn_length_app.
  change (lit ".png" ++ t) with ("."%char :: lit "png" ++ t).
  rewrite (@span_stop url_char body "."%char (lit "png" ++ t) Hb eq_refl).
  destruct body; [contradiction | reflexivity].
Qed.

Lemma findall_from_complete (u a b : str) :
  is_url u ->
  forall fuel, length (a ++ u ++ b) <= fuel ->
               findall_from fuel (a ++ u ++ b) <> [].
Proof.
  intros Hu. pose proof (is_url_nonempty Hu) as Hlen.
  induction a as [|c a IH]; intros fuel Hf.
  - cbn [app] in *. rewrite length_app in Hf.
    destruct fuel as [|fuel]; [lia|].
    destruct u as [|x u]; [simpl in Hlen; lia|].
    cbn [app findall_from].
    change (x :: u ++ b) with ((x :: u) ++ b).
    rewrite (match_url_complete b Hu). discriminate.
  - cbn [app length] in *. destruct fuel as [|fuel]; [lia|].
    cbn [findall_from]. destruct (match_url _); [discriminate|].
    apply IH. lia.
Qed.

Lemma findall_from_occurs (fuel : nat) :
  forall s u, In u (findall_from fuel s) -> exists a b, s = a ++ u ++ b.
Proof.
  induction fuel as [|fuel IH]; intros s u Hin; [contradiction|].
  destruct s as [|c s]; [contradiction|]. cbn [findall_from] in Hin.
  destruct (match_url (c :: s)) as [v|] eqn:Em.
  - destruct (match_url_spec _ Em) as [_ [t Et]].
    destruct Hin as [<- | Hin].
    + exists [], t. exact Et.
    + apply IH in Hin. destruct Hin as (a & b & E).
      rewrite Et, skipn_length_app in E. subst t.
      exists (v ++ a), b. rewrite Et, <- app_assoc. reflexivity.
  - apply IH in Hin. destruct Hin as (a & b & ->).
    exists (c :: a), b. reflexivity.
Qed.

(** A text holds a match of the pattern. *)
Definition holds_url (content : str) : Prop :=
  exists a u b, is_url u /\ content = a ++ u ++ b.

Lemma findall_nil_iff (content : str) :
  findall_urls content = [] <-> ~ holds_url content.
Proof.
  unfold findall_urls, holds_url. split.
  - intros E (a & u & b & Hu & ->).
    apply (@findall_from_complete u a b Hu _ (le_n _)). exact E.
  - intros H. destruct (findall_from _ _) as [|u l] eqn:E; [reflexivity|].
    exfalso. apply H.
    assert (Hin : In u (findall_from (length content) content))
      by (rewrite E; left; reflexivity).
    destruct (findall_from_occurs _ _ _ Hin) as (a & b & Ec).
    exists a, u, b. split; [|exact Ec].
    pose proof (findall_from_urls (length content) content) as Hall.
    rewrite Forall_forall in Hall. apply Hall, Hin.
Qed.

Lemma untouched_iff (content : str) (log : list str) :
  sanitize_and_log_images content title idx log = (content, log)
  <-> ~ holds_url content.
Proof.
  rewrite <- findall_nil_iff. split.
  - intros E. rewrite sanitize_shape in E.
    destruct (findall_urls content) as [|u l]; [reflexivity|].
    exfalso. injection E as _ E.
    apply (f_equal (@length str)) in E. rewrite length_app in E.
    unfold log_lines in E. rewrite length_map, length_seq in E.
    simpl in E. lia.
  - intros E. unfold sanitize_and_log_images. rewrite E. reflexivity.
Qed.

(** *** No match is left *)

Lemma host_not_in_safe_tail (tail a1 a2 : str) :
  safe_tail tail -> tail = a1 ++ a2 -> startswith url_prefix a2 = false.
Proof.
  intros [Hc _] E. destruct (startswith url_prefix a2) eqn:H; [|reflexivity].
  exfalso.
  change url_prefix with (lit "https:" ++ skipn 6 url_prefix) in H.
  apply startswith_prefix, startswith_iff in H. destruct H as [t ->].
  rewrite E in Hc. rewrite Forall_forall in Hc.
  apply (Hc ":"%char); [|reflexivity].
  apply in_or_app. right. simpl. tauto.
Qed.

Lemma no_host_after_renaming (g : str -> str) (tail : str) (ts : list token) :
  (forall u, is_name (g u)) -> safe_tail tail -> aligned ts ->
  forall a1 a2, rewrite_with g ts ++ tail = a1 ++ a2 ->
                startswith url_prefix a2 = false.
Proof.
  intros Hg Ht. induction ts as [|[c|u] ts IH]; intros Hal a1 a2 E.
  - cbn in E. apply (@host_not_in_safe_tail tail a1 a2 Ht E).
  - destruct Hal as [Hc Hal]. unfold rewrite_with in *.
    cbn [flat_map token_text app] in E.
    destruct a1 as [|x a1].
    + cbn [app] in E. subst a2.
      destruct (startswith url_prefix
                  (c :: flat_map (token_text g) ts ++ tail)) eqn:H;
        [|reflexivity].
      exfalso.
      change url_prefix with ("h"%char :: skipn 1 url_prefix) in H, Hc.
      cbn [startswith] in H, Hc. apply andb_true_iff in H.
      destruct H as [H1 H2]. rewrite H1 in Hc. cbn [andb] in Hc.
      rewrite (@host_run g (fun u => or_intror (Hg u)) tail Ht ts Hal 1
                 (le_n 1) H2) in Hc.
      discriminate.
    + injection E as _ E. apply (IH Hal a1 a2 E).
  - destruct Hal as [_ Hal]. unfold rewrite_with in *.
    cbn [flat_map token_text] in E. rewrite <- app_assoc in E.
    apply app_eq_app in E. destruct E as [l [[Hgu Ha2] | [_ E]]].
    + destruct l as [|x l].
      * cbn [app] in Ha2. apply (IH Hal [] a2). symmetry. exact Ha2.
      * rewrite Ha2. apply (@host_not_in_name (g u) a1 (x :: l)).
        -- apply Hg.
        -- exact Hgu.
        -- discriminate.
    + apply (IH Hal _ _ E).
Qed.

Lemma no_host_no_match (fuel : nat) :
  forall s, (forall a1 a2, s = a1 ++ a2 -> startswith url_prefix a2 = false) ->
            findall_from fuel s = [].
Proof.
  induction fuel as [|fuel IH]; intros s H; [reflexivity|].
  destruct s as [|c s]; [reflexivity|]. cbn [findall_from].
  unfold match_url. rewrite (H [] (c :: s) eq_refl).
  apply IH. intros a1 a2 E. apply (H (c :: a1) a2). rewrite E. reflexivity.
Qed.

Lemma resolved_has_no_match (content : str) (log : list str) :
  host_only_in_matches content = true ->
  findall_urls (fst (sanitize_and_log_images content title idx log)) = [].
Proof.
  intros H. rewrite (sanitize_spec title idx content log H). cbn [fst].
  apply no_host_no_match. intros a1 a2 E.
  apply (@no_host_after_renaming _ _ _
           (fun u => renamed_is_name title idx _)
           (image_lines_safe title idx _)
           (tokens_aligned _ H) a1 a2 E).
Qed.

End ResolverShape.

(** Whatever the text, the resolver returns the text with the matches
    replaced one URL after the other, then one image line per match; the
    lines already appended are never touched by a later replacement.  The
    media log keeps its entries and gains one per match, in order. *)
Theorem resolver_appends_per_match
  (content title : str) (idx : N) (log : list str) :
  let n := length (findall_urls content) in
  let name := fun k => base_name title idx (N.of_nat k) in
  sanitize_and_log_images content title idx log
  = (replaced title idx (findall_urls content) 1 content
       ++ flat_map (fun k => nl ++ nl ++ image_ref (name k)) (seq 1 n),
     log ++ map (fun k => log_entry (name k) title) (seq 1 n)).
Proof. apply sanitize_shape. Qed.

(** The resolver returns the text and the media log as they were exactly
    when no part of the text is a URL of the pattern. *)
Theorem resolver_untouched_iff
  (content title : str) (idx : N) (log : list str) :
  sanitize_and_log_images content title idx log = (content, log)
  <-> ~ holds_url content.
Proof. apply untouched_iff. Qed.

(** In a text where the host prefix only starts matches, the resolver
    leaves no URL of the pattern behind: on what it returns, the resolver
    changes nothing. *)
Theorem resolver_idempotent
  (content title : str) (idx : N) (log log' : list str) (title' : str)
  (idx' : N) :
  host_only_in_matches content = true ->
  let text := fst (sanitize_and_log_images content title idx log) in
  findall_urls text = []
  /\ sanitize_and_log_images text title' idx' log' = (text, log').
Proof.
  intros H text.
  assert (E : findall_urls text = [])
    by (apply resolved_has_no_match; exact H).
  split; [exact E|]. unfold sanitize_and_log_images. rewrite E. reflexivity.
Qed.

Lemma resolver_idempotent_witness :
  sanitize_and_log_images
    (lit "see media/t_000_01.png" ++ nl ++ nl
       ++ lit "![image](media/t_000_01.png)") (lit "t") 0 []
  = (lit "see media/t_000_01.png" ++ nl ++ nl
       ++ lit "![image](media/t_000_01.png)", []).
Proof.
  destruct (@resolver_idempotent (lit "see " ++ url_prefix ++ lit "a.png")
              (lit "t") 0%N [] [] (lit "t") 0%N) as [_ H];
    [reflexivity|].
  exact H.
Defined.

(** ** The names of the image files *)

Section ImageNames.

Variable title : str.

Lemma base_name_inj (i i' c c' : N) :
  base_name title i c = base_name title i' c' -> i = i' /\ c = c'.
Proof.
  unfold base_name. intros H. do 2 apply app_inv_head in H.
  apply (@cut_at "_"%char) in H;
    [|apply digits_without; [reflexivity | apply fmt_N_digits]..].
  destruct H as [Hi H]. apply fmt_N_inj in Hi.
  apply app_inv_tail in H. apply fmt_N_inj in H. auto.
Qed.

Lemma first_entry (content : str) (idx : N) (log : list str) :
  findall_urls content <> [] ->
  exists rest,
    snd (sanitize_and_log_images content title idx log)
    = log ++ log_entry (base_name title idx 1) title :: rest.
Proof.
  intros H. rewrite sanitize_shape. cbn [snd].
  destruct (findall_urls content) as [|u l]; [contradiction|].
  cbn [length]. unfold log_lines. cbn [seq map]. eexists. reflexivity.
Qed.

End ImageNames.

(** For one title, the file name of an image tells the thread and the
    number of the match in its message, and nothing more: within a
    message and from thread to thread the names differ, and two messages
    of one thread that each hold a match both log the same first name. *)
Theorem image_names_by_thread_and_match
  (title : str) (idx : N) :
  (forall i i' c c',
      base_name title i c = base_name title i' c' -> i = i' /\ c = c')
  /\ (forall content content' log log',
        findall_urls content <> [] -> findall_urls content' <> [] ->
        exists rest rest',
          snd (sanitize_and_log_images content title idx log)
          = log ++ log_entry (base_name title idx 1) title :: rest
          /\ snd (sanitize_and_log_images content' title idx log')
             = log' ++ log_entry (base_name title idx 1) title :: rest').
Proof.
  split; [apply base_name_inj|].
  intros content content' log log' H H'.
  destruct (@first_entry title content idx log H) as [rest E].
  destruct (@first_entry title content' idx log' H') as [rest' E'].
  exists rest, rest'. split; assumption.
Qed.

Lemma image_names_by_thread_and_match_witness :
  snd (sanitize_and_log_images (url_prefix ++ lit "a.png") (lit "T") 7 [])
  = [lit "t_007_01.png — from 'T'"]
  /\ snd (sanitize_and_log_images (lit "x " ++ url_prefix ++ lit "b.png")
            (lit "T") 7 [])
     = [lit "t_007_01.png — from 'T'"].
Proof.
  destruct (image_names_by_thread_and_match (lit "T") 7) as [_ H].
  destruct (H (url_prefix ++ lit "a.png")
              (lit "x " ++ url_prefix ++ lit "b.png") [] [])
    as (rest & rest' & _ & _); [discriminate | discriminate |].
  split; reflexivity.
Defined.

(** ** The text of a message *)

Section PartsText.

Variable title : str.
Variable idx : N.

(** A part that carries the text [s]: a string, or a dict that is not an
    image-asset pointer and has [s] under ["text"]. *)
Definition text_part (part : json) (s : str) : Prop :=
  part = JStr s
  \/ exists kv, part = JDict kv
                /\ is_str (get kv (lit "content_type") JNull)
                     (lit "image_asset_pointer") = false
                /\ lookup (lit "text") kv = Some (JStr s).

Lemma process_part_text (part : json) (s : str) :
  text_part part s -> process_part part title = Ok ([JStr s], []).
Proof.
  intros [-> | (kv & -> & Hc & Ht)]; [reflexivity|].
  unfold process_part. rewrite Hc, Ht. reflexivity.
Qed.

Lemma process_parts_loop_texts (parts : list json) (ss : list str) :
  Forall2 text_part parts ss ->
  forall results log,
    process_parts_loop parts title results log
    = Ok (results ++ map JStr ss, log).
Proof.
  induction 1 as [|part s parts ss Hp _ IH]; intros results log.
  - cbn. rewrite app_nil_r. reflexivity.
  - cbn [process_parts_loop]. rewrite (process_part_text Hp).
    cbn [bind fst snd]. rewrite IH, app_nil_r, <- app_assoc. reflexivity.
Qed.

Lemma all_str_strings (ss : list str) : all_str (map JStr ss) = Ok ss.
Proof.
  induction ss as [|s ss IH]; [reflexivity|].
  cbn [map all_str]. rewrite IH. reflexivity.
Qed.

Lemma all_str_raises (vs : list json) (v : json) :
  In v vs -> (forall s, v <> JStr s) -> all_str vs = Raise TypeError.
Proof.
  induction vs as [|x vs IH]; intros Hin Hv; [contradiction|].
  destruct Hin as [-> | Hin].
  - destruct v; try reflexivity. exfalso. apply (Hv s). reflexivity.
  - cbn [all_str]. destruct x; try reflexivity.
    rewrite (IH Hin Hv). reflexivity.
Qed.

(** The loop only adds to its results and to the media log. *)
Lemma process_parts_loop_grows (parts : list json) :
  forall results log res log',
    process_parts_loop parts title results log = Ok (res, log') ->
    (exists new, res = results ++ new) /\ (exists new, log' = log ++ new).
Proof.
  induction parts as [|part parts IH]; intros results log res log' H.
  - injection H as <- <-. split; exists []; rewrite app_nil_r; reflexivity.
  - cbn [process_parts_loop] in H.
    destruct (process_part part title) as [[r l]|e]; [|discriminate].
    cbn [bind fst snd] in H. apply IH in H.
    destruct H as [[n1 ->] [n2 ->]].
    split; eexists; rewrite <- app_assoc; reflexivity.
Qed.

(** *** What [strip] returns *)

Lemma lstrip_cut (s : str) :
  exists pre, s = pre ++ lstrip s /\ forallb isspace pre = true
              /\ match lstrip s with
                 | [] => True
                 | c :: _ => isspace c = false
                 end.
Proof.
  induction s as [|c s IH].
  - exists []. repeat split.
  - cbn [lstrip]. destruct (isspace c) eqn:Ec.
    + destruct IH as (pre & E & Hp & Hh). exists (c :: pre).
      split; [cbn [app]; congruence|]. split; [|exact Hh].
      cbn [forallb]. rewrite Ec, Hp. reflexivity.
    + exists []. repeat split. exact Ec.
Qed.

(** A text without white space at either end. *)
Definition stripped (s : str) : Prop :=
  match s with
  | [] => True
  | c :: _ => isspace c = false /\ isspace (last s c) = false
  end.

Lemma strip_stripped (s : str) : stripped (strip s).
Proof.
  unfold strip, rstrip.
  destruct (lstrip_cut s) as (_ & _ & _ & Hl).
  destruct (lstrip_cut (rev (lstrip s))) as (pre & E & Hp & Hm).
  destruct (lstrip (rev (lstrip s))) as [|m M] eqn:EM; [exact I|].
  cbn [rev]. unfold stripped.
  destruct (rev M ++ [m]) as [|x X] eqn:EX;
    [destruct (rev M); discriminate|].
  rewrite <- EX, last_last. split; [|exact Hm].
  apply (f_equal (@rev ascii)) in E.
  rewrite rev_involutive, rev_app_distr in E. cbn [rev] in E.
  rewrite EX in E. rewrite E in Hl. exact Hl.
Qed.

Lemma stripped_fixed (s : str) : stripped s -> strip s = s.
Proof.
  destruct s as [|c s]; [reflexivity|]. intros [Hc Hl].
  unfold strip, rstrip. cbn [lstrip]. rewrite Hc.
  destruct (exists_last (l := c :: s) ltac:(discriminate)) as (f & z & E).
  rewrite E in *. rewrite last_last in Hl.
  rewrite rev_app_distr. cbn [rev app lstrip]. rewrite Hl.
  cbn [rev]. rewrite rev_involutive. reflexivity.
Qed.

Lemma process_parts_stripped (parts : list json) (log : list str)
  (text : str) (log' : list str) :
  process_parts parts title idx log = Ok (text, log') ->
  stripped text /\ exists new, log' = log ++ new.
Proof.
  unfold process_parts.
  destruct (process_parts_loop parts title [] log) as [[res l]|e] eqn:E;
    [|discriminate].
  cbn [bind fst snd]. destruct (all_str res) as [ss|e]; [|discriminate].
  cbn [bind]. intros H. assert (Et : text = strip (join nl ss)) by congruence.
  assert (El : log' = l) by congruence. subst text log'.
  split; [apply strip_stripped|].
  apply (process_parts_loop_grows _ _ _ E).
Qed.

End PartsText.

(** The text of a message is the texts of its parts, those of the strings
    and those under ["text"], joined by newlines and stripped; such parts
    add nothing to the media log. *)
Theorem message_text_joins_parts
  (parts : list json) (ss : list str) (title : str) (idx : N)
  (log : list str) :
  Forall2 text_part parts ss ->
  process_parts parts title idx log = Ok (strip (join nl ss), log).
Proof.
  intros H. unfold process_parts.
  rewrite (process_parts_loop_texts title H). cbn [bind fst snd app].
  rewrite all_str_strings. reflexivity.
Qed.

Lemma message_text_joins_parts_witness :
  process_parts
    [JStr (lit " Hello"); JDict [(lit "text", JStr (lit "world "))]]
    (lit "T") 0 [lit "earlier"]
  = Ok (lit "Hello" ++ nl ++ lit "world", [lit "earlier"]).
Proof.
  rewrite (@message_text_joins_parts _ [lit " Hello"; lit "world "]).
  - reflexivity.
  - constructor; [left; reflexivity|].
    constructor; [|constructor].
    right. eexists. repeat split.
Defined.

(** A part that carries under ["text"] a value that is not a string makes
    [process_parts] raise whatever the other parts are; when no part
    raises by itself, it is the [TypeError] of [join]. *)
Theorem non_string_text_raises
  (before after : list json) (kv : list (str * json)) (v : json)
  (title : str) (idx : N) (log : list str) :
  is_str (get kv (lit "content_type") JNull) (lit "image_asset_pointer")
  = false ->
  lookup (lit "text") kv = Some v ->
  (forall s, v <> JStr s) ->
  (exists e, process_parts (before ++ JDict kv :: after) title idx log
             = Raise e)
  /\ (forall r,
        process_parts_loop (before ++ JDict kv :: after) title [] log = Ok r ->
        process_parts (before ++ JDict kv :: after) title idx log
        = Raise TypeError).
Proof.
  intros Hc Ht Hv.
  assert (G : forall r,
             process_parts_loop (before ++ JDict kv :: after) title [] log
             = Ok r -> In v (fst r)).
  { intros [res l] H. rewrite process_parts_loop_app in H.
    destruct (process_parts_loop before title [] log) as [[r1 l1]|e];
      [|discriminate].
    cbn [bind fst snd process_parts_loop] in H.
    unfold process_part in H. rewrite Hc, Ht in H. cbn [bind fst snd] in H.
    apply process_parts_loop_grows in H. destruct H as [[new ->] _].
    cbn [fst]. apply in_or_app. left. apply in_or_app. right. left.
    reflexivity. }
  unfold process_parts.
  destruct (process_parts_loop _ title [] log) as [r|e].
  - cbn [bind]. rewrite (all_str_raises _ (G r eq_refl) Hv). cbn [bind].
    split; [eauto | reflexivity].
  - cbn [bind]. split; [exists e; reflexivity | intros r H; discriminate H].
Qed.

Lemma non_string_text_raises_witness :
  process_parts [JStr (lit "a"); JDict [(lit "text", JInt 5)]] (lit "T") 0 []
  = Raise TypeError.
Proof.
  destruct (@non_string_text_raises [JStr (lit "a")] []
              [(lit "text", JInt 5)] (JInt 5) (lit "T") 0%N [])
    as [_ H]; [reflexivity | reflexivity | discriminate |].
  apply (H ([JStr (lit "a"); JInt 5], [])). reflexivity.
Defined.

(** ** Image-asset pointers *)

Section AssetPointer.

Lemma split_from_whole (sep s : str) :
  contains sep s = false ->
  forall fuel cur, split_from fuel sep s cur = [rev cur ++ s].
Proof.
  induction s as [|c s IH]; intros H fuel cur.
  - destruct fuel; cbn [split_from]; rewrite ?app_nil_r; reflexivity.
  - cbn [contains] in H. apply orb_false_iff in H. destruct H as [H1 H2].
    destruct fuel as [|fuel]; [reflexivity|].
    cbn [split_from]. rewrite H1, (IH H2). cbn [rev].
    rewrite <- app_assoc. reflexivity.
Qed.

Lemma split_from_hit (sep : str) (c : ascii) (s cur : str) (fuel : nat) :
  startswith sep (c :: s) = true ->
  split_from (S fuel) sep (c :: s) cur
  = rev cur :: split_from fuel sep (skipn (length sep) (c :: s)) [].
Proof. intros H. cbn [split_from]. rewrite H. reflexivity. Qed.

Lemma split_from_miss (sep : str) (c : ascii) (s cur : str) (fuel : nat) :
  startswith sep (c :: s) = false ->
  split_from (S fuel) sep (c :: s) cur = split_from fuel sep s (c :: cur).
Proof. intros H. cbn [split_from]. rewrite H. reflexivity. Qed.

Lemma asset_id_of (id : str) :
  contains (lit "file-") id = false ->
  last (split (lit "file-service://file-" ++ id) (lit "file-")) [] = id.
Proof.
  intros H. unfold split. rewrite length_app.
  change (length (lit "file-service://file-")) with 20.
  generalize (length id). intros n.
  cbn [Nat.add lit list_ascii_of_string app].
  rewrite split_from_hit by reflexivity. cbn [skipn length].
  do 10 (rewrite split_from_miss by reflexivity).
  rewrite split_from_hit by reflexivity. cbn [skipn length].
  rewrite (@split_from_whole _ _ H). reflexivity.
Qed.

Lemma image_ref_stripped (name : str) : stripped (image_ref name).
Proof.
  assert (H : forall d, last (image_ref name) d = ")"%char).
  { intros d. unfold image_ref. rewrite app_assoc. apply last_last. }
  unfold image_ref in *. cbn [lit list_ascii_of_string app] in *.
  split; [reflexivity | rewrite H; reflexivity].
Qed.

End AssetPointer.

(** A part that is an image-asset pointer to ["file-service://file-<id>"],
    where ["file-"] does not occur again in [<id>], becomes the image line
    of the file ["file-<id>.png"], and adds the entry of that file to the
    media log. *)
Theorem asset_pointer_becomes_image
  (kv : list (str * json)) (id title : str) (idx : N) (log : list str) :
  get kv (lit "content_type") JNull = JStr (lit "image_asset_pointer") ->
  lookup (lit "asset_pointer") kv
  = Some (JStr (lit "file-service://file-" ++ id)) ->
  contains (lit "file-") id = false ->
  let name := lit "file-" ++ id ++ lit ".png" in
  process_part (JDict kv) title
  = Ok ([JStr (lit "![image](media/" ++ name ++ lit ")")],
        [name ++ lit " — from '" ++ title ++ lit "'"])
  /\ process_parts [JDict kv] title idx log
     = Ok (lit "![image](media/" ++ name ++ lit ")",
           log ++ [name ++ lit " — from '" ++ title ++ lit "'"]).
Proof.
  intros Hc Ha Hid name.
  assert (E : process_part (JDict kv) title
              = Ok ([JStr (image_ref name)], [log_entry name title])).
  { unfold process_part, get. unfold get in Hc. rewrite Hc, Ha.
    cbn [is_str]. rewrite eqb_refl.
    change (lit "file-service://file-" ++ id)
      with (lit "file-service://file-" ++ id).
    rewrite startswith_app, (@asset_id_of _ Hid). reflexivity. }
  split; [exact E|].
  unfold process_parts. cbn [process_parts_loop]. rewrite E.
  cbn [bind fst snd app all_str join]. f_equal. f_equal.
  apply stripped_fixed. apply image_ref_stripped.
Qed.

Lemma asset_pointer_becomes_image_witness :
  process_parts
    [JDict [(lit "content_type", JStr (lit "image_asset_pointer"));
            (lit "asset_pointer", JStr (lit "file-service://file-AbC123"))]]
    (lit "T") 0 []
  = Ok (lit "![image](media/file-AbC123.png)",
        [lit "file-AbC123.png — from 'T'"]).
Proof.
  destruct (@asset_pointer_becomes_image
              [(lit "content_type", JStr (lit "image_asset_pointer"));
               (lit "asset_pointer", JStr (lit "file-service://file-AbC123"))]
              (lit "AbC123") (lit "T") 0%N [])
    as [_ H]; [reflexivity..|].
  exact H.
Defined.

(** ** What extraction keeps *)

Section ExtractedMessages.

Variable cfg : config.
Variable title : str.
Variable idx : N.

(** A message of the output: its role is not left out by the
    configuration, its text is not empty and has no white space at either
    end. *)
Definition well_formed (m : message) : Prop :=
  excluded cfg (fst m) = false /\ snd m <> [] /\ stripped (snd m).

Lemma extract_node_keeps (node : json) (acc acc' : extraction) :
  extract_node cfg title idx node acc = Ok acc' ->
  (messages acc' = messages acc
   \/ exists m, well_formed m /\ messages acc' = messages acc ++ [m])
  /\ exists new, media_log_entries acc' = media_log_entries acc ++ new.
Proof.
  unfold extract_node.
  assert (Hsame : (messages acc = messages acc
                   \/ exists m, well_formed m
                                /\ messages acc = messages acc ++ [m])
                  /\ exists new, media_log_entries acc
                                 = media_log_entries acc ++ new).
  { split; [left; reflexivity | exists []; rewrite app_nil_r; reflexivity]. }
  destruct (as_dict node) as [kv|e]; [|discriminate]. cbn [bind].
  destruct (negb (truthy _)); [intros [= <-]; exact Hsame|].
  destruct (as_dict (get kv _ _)) as [msg_kv|e]; [|discriminate]. cbn [bind].
  destruct (as_dict (get msg_kv (lit "author") _)) as [author|e];
    [|discriminate]. cbn [bind].
  destruct (is_str _ _ && _)%bool eqn:Ex; [intros [= <-]; exact Hsame|].
  destruct (as_dict (get msg_kv (lit "content") _)) as [content_kv|e];
    [|discriminate]. cbn [bind].
  destruct (iter _) as [parts|e]; [|discriminate]. cbn [bind].
  destruct (process_parts _ _ _ _) as [[text log']|e] eqn:Ep; [|discriminate].
  apply process_parts_stripped in Ep. destruct Ep as [Hs Hl].
  cbn [bind fst snd].
  destruct text as [|c text]; intros [= <-];
    cbn [messages media_log_entries]; (split; [|exact Hl]).
  - left. reflexivity.
  - right. eexists. split; [|reflexivity].
    split; [exact Ex|]. split; [discriminate | exact Hs].
Qed.

Lemma extract_nodes_keep (nodes : list json) :
  forall acc acc',
    extract_nodes cfg title idx nodes acc = Ok acc' ->
    (exists new, Forall well_formed new
                 /\ messages acc' = messages acc ++ new)
    /\ exists new, media_log_entries acc' = media_log_entries acc ++ new.
Proof.
  induction nodes as [|node nodes IH]; intros acc acc' H.
  - injection H as <-. split; exists []; rewrite app_nil_r; auto.
  - cbn [extract_nodes] in H.
    destruct (extract_node cfg title idx node acc) as [acc1|e] eqn:E;
      [|discriminate].
    cbn [bind] in H. apply IH in H. apply extract_node_keeps in E.
    destruct H as [(new & Hn & Hm) (l2 & Hl2)].
    destruct E as [Hm1 (l1 & Hl1)]. split.
    + destruct Hm1 as [Hm1 | (m & Hw & Hm1)]; rewrite Hm, Hm1.
      * exists new. auto.
      * exists (m :: new). split; [constructor; assumption|].
        rewrite <- app_assoc. reflexivity.
    + exists (l1 ++ l2). rewrite Hl2, Hl1, app_assoc. reflexivity.
Qed.

End ExtractedMessages.

(** Every message that extraction returns for a thread has a role that
    the configuration does not leave out and a text that is not empty and
    neither starts nor ends with white space; the media log keeps the
    entries it had. *)
Theorem extracted_messages_well_formed
  (cfg : config) (thread : list (str * json)) (title : str) (idx : N)
  (total : nat) (log : list str) (ex : extraction) :
  extract_messages cfg thread title idx total log = Ok ex ->
  Forall (well_formed cfg) (messages ex)
  /\ exists new, media_log_entries ex = log ++ new.
Proof.
  unfold extract_messages.
  destruct (as_dict _) as [mapping|e]; [|discriminate]. cbn [bind].
  intros H. apply extract_nodes_keep in H.
  destruct H as [(new & Hn & Hm) Hl]. cbn [messages media_log_entries] in *.
  split; [rewrite Hm; exact Hn | exact Hl].
Qed.

Lemma extracted_messages_well_formed_witness :
  Forall (well_formed default_config)
    [(JStr (lit "user"), lit "Hello")].
Proof.
  destruct (@extracted_messages_well_formed default_config
              [(lit "mapping",
                JDict [(lit "n1", JDict [(lit "message", JNull)]);
                       (lit "n2",
                        JDict [(lit "message",
                                JDict [(lit "author",
                                        JDict [(lit "role", JStr (lit "user"))]);
                                       (lit "content",
                                        JDict [(lit "parts",
                                                JList [JStr (lit " Hello ")])])])]);
                       (lit "n3",
                        JDict [(lit "message",
                                JDict [(lit "content",
                                        JDict [(lit "parts",
                                                JList [JStr (lit "  ")])])])])])]
              (lit "T") 0%N 0 []
              (mk_extraction [(JStr (lit "user"), lit "Hello")] 1 []))
    as [H _]; [reflexivity|].
  exact H.
Defined.

(** ** The header of a generated document *)

Section GeneratedHeader.

(** The skip check on a text that begins with its header block. *)
Lemma skip_of_leading_block (fs : disk) (path block rest : str) :
  fs path = Some (Text (header_open ++ block ++ header_close ++ rest)) ->
  first_at header_close block rest ->
  should_skip_file fs path = contains (lit "manual_edit: true") block.
Proof.
  intros Hf Hfirst. unfold should_skip_file. rewrite Hf.
  assert (Hs : search_header true
                 (header_open ++ block ++ header_close ++ rest)
               = Some block).
  { apply search_header_some. exists [], rest.
    split; [reflexivity|]. split; [reflexivity|]. split; [|exact Hfirst].
    intros p1 p2 Hp Hne. symmetry in Hp. apply app_eq_nil in Hp.
    destruct Hp as [_ ->]. contradiction. }
  rewrite Hs.
  change (MANUAL_EDIT_KEY ++ lit ": true") with (lit "manual_edit: true").
  destruct (contains (lit "manual_edit: true") block) eqn:E.
  - change (lit "manual_edit: true") with (MANUAL_EDIT_KEY ++ lit ": true")
      in E.
    rewrite (contains_prefix _ _ _ E). reflexivity.
  - destruct (contains MANUAL_EDIT_KEY block); reflexivity.
Qed.

(** *** Where a mark can start *)

Lemma no_start_app (sep a a' b : str) :
  no_start sep a (a' ++ b) -> no_start sep a' b -> no_start sep (a ++ a') b.
Proof.
  intros Ha Ha' a1 a2 E Hne. apply app_eq_app in E.
  destruct E as [l [[E1 E2] | [E1 E2]]].
  - destruct l as [|x l].
    + cbn [app] in E2. apply (Ha' [] a2); [symmetry; exact E2 | exact Hne].
    + rewrite E2, <- app_assoc. apply (Ha a1 (x :: l) E1). discriminate.
  - apply (Ha' l a2 E2 Hne).
Qed.

Lemma no_start_literal (sep lt b : str) :
  forallb (fun k => clash sep (skipn k lt)) (seq 0 (length lt)) = true ->
  no_start sep lt b.
Proof.
  intros H a1 a2 E Hne.
  assert (Ea2 : a2 = skipn (length a1) lt)
    by (rewrite E, skipn_length_app; reflexivity).
  rewrite Ea2. apply clash_startswith.
  rewrite forallb_forall in H. apply H. apply in_seq.
  apply (f_equal (@length ascii)) in E. rewrite length_app in E.
  destruct a2; [contradiction|]. simpl in E. lia.
Qed.

Lemma no_start_without (h : ascii) (sep t b : str) :
  ~ In h t -> no_start (h :: sep) t b.
Proof.
  intros Hh a1 a2 E Hne. destruct a2 as [|x a2]; [contradiction|].
  cbn [app startswith]. destruct (eqb_char h x) eqn:Ex; [|reflexivity].
  apply eqb_char_eq in Ex. subst x. exfalso. apply Hh. rewrite E.
  apply in_or_app. right. left. reflexivity.
Qed.

(** *** Where a key can occur *)

Lemma contains_app_l (k x y : str) :
  contains k x = true -> contains k (x ++ y) = true.
Proof.
  rewrite !contains_iff. intros (a & b & ->). exists a, (b ++ y).
  rewrite <- !app_assoc. reflexivity.
Qed.

Lemma contains_app_r (k x y : str) :
  contains k y = true -> contains k (x ++ y) = true.
Proof.
  rewrite !contains_iff. intros (a & b & ->). exists (x ++ a), b.
  rewrite <- !app_assoc. reflexivity.
Qed.

(** A key without the character [q] does not lie across a [q]. *)
Lemma contains_across (k x y : str) (q : ascii) :
  k <> [] -> ~ In q k ->
  contains k (x ++ q :: y) = (contains k x || contains k y)%bool.
Proof.
  intros Hk Hq.
  destruct (contains k x) eqn:Ex.
  { cbn [orb]. apply contains_app_l. exact Ex. }
  destruct (contains k y) eqn:Ey.
  { cbn [orb]. apply contains_app_r.
    change (q :: y) with ([q] ++ y). apply contains_app_r. exact Ey. }
  cbn [orb]. destruct (contains k (x ++ q :: y)) eqn:E; [|reflexivity].
  exfalso. apply contains_iff in E. destruct E as (a & b & E).
  apply app_eq_app in E. destruct E as [l [[Hx Hr] | [Ha Hr]]].
  - (* the key starts in [x] *)
    apply app_eq_app in Hr. destruct Hr as [l' [[Hk' Hy] | [Hl Hb]]].
    + destruct l' as [|z l'].
      * rewrite app_nil_r in Hk'. subst l.
        assert (C : contains k x = true)
          by (apply contains_iff; exists a, []; rewrite app_nil_r; exact Hx).
        congruence.
      * cbn [app] in Hy. injection Hy as <- _. apply Hq. rewrite Hk'.
        apply in_or_app. right. left. reflexivity.
    + assert (C : contains k x = true)
        by (apply contains_iff; exists a, l'; rewrite Hx, Hl; reflexivity).
      congruence.
  - (* the key starts at [q] or after it *)
    destruct l as [|z l].
    + cbn [app] in Hr. destruct k as [|k0 k]; [contradiction|].
      injection Hr as <- _. apply Hq. left. reflexivity.
    + injection Hr as _ Hy.
      assert (C : contains k y = true)
        by (apply contains_iff; exists l, b; exact Hy).
      congruence.
Qed.

(** *** The first word of the timestamp *)

Lemma first_word_within (s created : str) :
  first_word s = Ok created ->
  Forall (fun c => isspace c = false) created
  /\ exists pre post, s = pre ++ created ++ post.
Proof.
  unfold first_word. destruct (lstrip_cut s) as (pre & E & _ & _).
  destruct (lstrip s) as [|c t] eqn:El; [discriminate|].
  destruct (span (fun c => negb (isspace c)) (c :: t)) as [a b] eqn:Es.
  cbn [fst]. intros H. assert (created = a) by congruence. subst a. clear H.
  apply span_spec in Es. destruct Es as [Es Ha]. split.
  - eapply Forall_impl; [|exact Ha]. intros x Hx.
    apply negb_true_iff in Hx. exact Hx.
  - exists pre, b. rewrite <- Es. exact E.
Qed.

(** The header block of a generated document. *)
Definition own_block (shown created : str) : str :=
  lit "title: " ++ dq ++ shown ++ dq ++ nl
    ++ lit "created: " ++ dq ++ created ++ dq ++ nl
    ++ lit "tags:" ++ nl ++ lit "  - ai" ++ nl
    ++ lit "source: " ++ dq ++ lit "AI" ++ dq.

Lemma preamble_block (shown heading timestamp created body : str) :
  preamble shown heading timestamp created ++ body
  = header_open ++ own_block shown created ++ header_close
      ++ (nl ++ nl ++ lit "# " ++ heading ++ nl
            ++ lit "_Started: " ++ timestamp ++ lit "_" ++ nl ++ nl ++ body).
Proof.
  unfold preamble, own_block, header_open, header_close.
  rewrite <- !app_assoc. reflexivity.
Qed.

Lemma own_block_closes (shown created rest : str) :
  ~ In "010"%char shown -> ~ In "010"%char created ->
  first_at header_close (own_block shown created) rest.
Proof.
  intros Hs Hc. unfold first_at. fold (no_start header_close
    (own_block shown created) (header_close ++ rest)).
  unfold own_block.
  change (lit "title: " ++ dq ++ shown ++ dq ++ nl ++ lit "created: " ++ dq
            ++ created ++ dq ++ nl ++ lit "tags:" ++ nl ++ lit "  - ai" ++ nl
            ++ lit "source: " ++ dq ++ lit "AI" ++ dq)
    with ((lit "title: " ++ dq) ++ shown
            ++ (dq ++ nl ++ lit "created: " ++ dq) ++ created
            ++ (dq ++ nl ++ lit "tags:" ++ nl ++ lit "  - ai" ++ nl
                  ++ lit "source: " ++ dq ++ lit "AI" ++ dq)).
  apply no_start_app; [apply no_start_literal; reflexivity|].
  apply no_start_app; [apply no_start_without; exact Hs|].
  apply no_start_app; [apply no_start_literal; reflexivity|].
  apply no_start_app; [apply no_start_without; exact Hc|].
  apply no_start_literal. reflexivity.
Qed.

Lemma own_block_key (k shown created : str) :
  k <> [] -> ~ In "034"%char k ->
  contains k (lit "title: ") = false ->
  contains k (nl ++ lit "created: ") = false ->
  contains k (nl ++ lit "tags:" ++ nl ++ lit "  - ai" ++ nl ++ lit "source: ")
  = false ->
  contains k (lit "AI") = false ->
  contains k [] = false ->
  contains k (own_block shown created)
  = (contains k shown || contains k created)%bool.
Proof.
  intros Hk Hq H1 H2 H3 H4 H5. unfold own_block.
  change (lit "title: " ++ dq ++ shown ++ dq ++ nl ++ lit "created: " ++ dq
            ++ created ++ dq ++ nl ++ lit "tags:" ++ nl ++ lit "  - ai" ++ nl
            ++ lit "source: " ++ dq ++ lit "AI" ++ dq)
    with (lit "title: " ++ "034"%char
            :: shown ++ "034"%char
            :: (nl ++ lit "created: ") ++ "034"%char
            :: created ++ "034"%char
            :: (nl ++ lit "tags:" ++ nl ++ lit "  - ai" ++ nl
                  ++ lit "source: ") ++ "034"%char
            :: lit "AI" ++ "034"%char :: []).
  rewrite !(fun x y => @contains_across k x y _ Hk Hq), H1, H2, H3, H4, H5.
  rewrite !orb_false_r. reflexivity.
Qed.

Lemma own_document_skip (fs : disk) (path : str)
  (shown heading timestamp created body : str) :
  fs path = Some (Text (preamble shown heading timestamp created ++ body)) ->
  ~ In "010"%char shown ->
  first_word timestamp = Ok created ->
  contains MANUAL_EDIT_KEY timestamp = false ->
  should_skip_file fs path = contains (lit "manual_edit: true") shown.
Proof.
  intros Hf Hs Hc Ht. rewrite preamble_block in Hf.
  destruct (@first_word_within _ _ Hc) as [Hsp (pre & post & Ets)].
  assert (Hnl : ~ In "010"%char created).
  { intros Hin. rewrite Forall_forall in Hsp. apply Hsp in Hin.
    discriminate. }
  rewrite (@skip_of_leading_block _ _ _ _ Hf
             (@own_block_closes shown created _ Hs Hnl)).
  rewrite own_block_key; try reflexivity; try discriminate.
  - destruct (contains (lit "manual_edit: true") created) eqn:E;
      [|apply orb_false_r].
    exfalso.
    change (lit "manual_edit: true") with (MANUAL_EDIT_KEY ++ lit ": true")
      in E.
    apply contains_prefix in E.
    assert (C : contains MANUAL_EDIT_KEY timestamp = true).
    { rewrite Ets. apply contains_app_r, contains_app_l. exact E. }
    congruence.
  - cbn. intuition discriminate.
Qed.

Lemma own_document_manual_edit_aux
  (repr : json -> str) (w w' : world) (slug title timestamp : str)
  (msgs : list message) (idx : N) (toc : list str) :
  ~ In "010"%char title ->
  contains MANUAL_EDIT_KEY timestamp = false ->
  should_skip_file (files w) (single_path slug) = false ->
  write_single_convo repr w slug title timestamp msgs idx = Ok (w', toc) ->
  should_skip_file (files w') (single_path slug)
  = contains (lit "manual_edit: true") title.
Proof.
  intros Hnl Hts Hs. unfold write_single_convo. fold (single_path slug).
  rewrite Hs.
  destruct (files w (single_path slug)) as [[c| |]|] eqn:Ef;
    try discriminate;
    (destruct (first_word timestamp) as [created|e] eqn:Ec; [|discriminate];
     cbn [bind];
     destruct (render_messages _ _ _ _ _ _) as [body log];
     unfold write_text; rewrite Ef; cbn [bind];
     intros H; assert (Ew : w' = mk_world
                                   (write_file (files w) (single_path slug)
                                      (preamble title title timestamp created
                                         ++ body)) log) by congruence;
     subst w'; cbn [files];
     apply (@own_document_skip _ _ title title timestamp created body);
     [apply write_file_same | exact Hnl | exact Ec | exact Hts]).
Qed.

End GeneratedHeader.



(** ** What the writers overwrite and what they keep *)

Section WriterKeeps.

Variable cfg : config.
Variable repr : json -> str.

Lemma should_skip_ext (fs fs' : disk) (p : str) :
  fs' p = fs p -> should_skip_file fs' p = should_skip_file fs p.
Proof. intros H. unfold should_skip_file. rewrite H. reflexivity. Qed.

(** A file marked as a manual edit is the same after as before. *)
Definition keeps_manual_edits (w w' : world) : Prop :=
  forall p, should_skip_file (files w) p = true -> files w' p = files w p.

Lemma keeps_refl (w : world) : keeps_manual_edits w w.
Proof. intros p _. reflexivity. Qed.

Lemma keeps_trans (w1 w2 w3 : world) :
  keeps_manual_edits w1 w2 -> keeps_manual_edits w2 w3 ->
  keeps_manual_edits w1 w3.
Proof.
  intros H12 H23 p Hp. rewrite <- (H12 p Hp). apply H23.
  rewrite (@should_skip_ext _ _ _ (H12 p Hp)). exact Hp.
Qed.

Lemma write_text_keeps (w w' : world) (path content : str) (log : list str) :
  should_skip_file (files w) path = false ->
  write_text w path content log = Ok w' -> keeps_manual_edits w w'.
Proof.
  intros Hs H p Hp. unfold write_text in H.
  assert (Hne : p <> path) by (intros ->; congruence).
  destruct (files w path) as [[c| |]|]; try discriminate;
    injection H as <-; cbn [files]; apply write_file_other; exact Hne.
Qed.

Lemma write_single_keeps (w w' : world) (slug title timestamp : str)
  (msgs : list message) (idx : N) (toc : list str) :
  write_single_convo repr w slug title timestamp msgs idx = Ok (w', toc) ->
  keeps_manual_edits w w'.
Proof.
  unfold write_single_convo.
  destruct (should_skip_file (files w) _) eqn:Es.
  - intros [= <- _]. apply keeps_refl.
  - destruct (files w _) as [[c| |]|] eqn:Ef; try discriminate;
      (destruct (first_word timestamp) as [created|e]; [|discriminate];
       cbn [bind];
       destruct (render_messages _ _ _ _ _ _) as [body log];
       destruct (write_text _ _ _ _) as [w1|e] eqn:Ew; [|discriminate];
       cbn [bind]; intros H; assert (w' = w1) by congruence; subst w1;
       apply (@write_text_keeps _ _ _ _ _ Es Ew)).
Qed.

Lemma write_part_keeps (w w' : world) (slug title timestamp : str) (idx : N)
  (total i : nat) (part : list message) (line : str) :
  write_part repr w slug title timestamp idx total i part = Ok (w', line) ->
  keeps_manual_edits w w'.
Proof.
  unfold write_part.
  destruct (should_skip_file (files w) _) eqn:Es.
  - intros [= <- _]. apply keeps_refl.
  - destruct (files w _) as [[c| |]|] eqn:Ef; try discriminate;
      (destruct (first_word timestamp) as [created|e]; [|discriminate];
       cbn [bind];
       destruct (render_messages _ _ _ _ _ _) as [body log];
       destruct (write_text _ _ _ _) as [w1|e] eqn:Ew; [|discriminate];
       cbn [bind]; intros H; assert (w' = w1) by congruence; subst w1;
       apply (@write_text_keeps _ _ _ _ _ Es Ew)).
Qed.

Lemma write_parts_keeps (slug title timestamp : str) (idx : N) (total : nat)
  (parts : list (list message)) :
  forall w i w' toc,
    write_parts repr w slug title timestamp idx total i parts = Ok (w', toc) ->
    keeps_manual_edits w w'.
Proof.
  induction parts as [|part parts IH]; intros w i w' toc H.
  - injection H as <- _. apply keeps_refl.
  - cbn [write_parts] in H.
    destruct (write_part repr w slug title timestamp idx total i part)
      as [[w1 line]|e] eqn:E1; [|discriminate].
    cbn [bind fst snd] in H.
    destruct (write_parts repr w1 slug title timestamp idx total (S i) parts)
      as [[w2 toc2]|e] eqn:E2; [|discriminate].
    cbn [bind fst snd] in H. injection H as <- _.
    eapply keeps_trans; [eapply write_part_keeps; exact E1 | eapply IH; exact E2].
Qed.

Lemma route_keeps (w w' : world) (slug title timestamp : str)
  (msgs : list message) (idx : N) (toc : list str) :
  route cfg repr w slug title timestamp msgs idx = Ok (w', toc) ->
  keeps_manual_edits w w'.
Proof.
  unfold route. destruct (Nat.ltb _ _).
  - unfold write_chunked_convo.
    destruct (chunks _ msgs) as [parts|e]; [|discriminate]. cbn [bind].
    destruct (write_parts _ _ _ _ _ _ _ _ _) as [[w1 toc1]|e] eqn:E;
      [|discriminate].
    cbn [bind fst snd]. intros [= <- _]. eapply write_parts_keeps; exact E.
  - apply write_single_keeps.
Qed.

End WriterKeeps.

(** Neither writer touches a file that the skip check marks as a manual
    edit: whatever thread is written, single or in parts, every marked
    file of the disk is afterwards what it was. *)
Theorem writers_keep_manual_edits
  (cfg : config) (repr : json -> str) (w w' : world)
  (slug title timestamp : str) (msgs : list message) (idx : N)
  (toc : list str) :
  route cfg repr w slug title timestamp msgs idx = Ok (w', toc) ->
  forall p, should_skip_file (files w) p = true -> files w' p = files w p.
Proof. apply route_keeps. Qed.

Lemma writers_keep_manual_edits_witness :
  files
    (mk_world
       (fun p => if eqb p (single_path (lit "t"))
                 then Some (Text (header_open ++ lit "manual_edit: true"
                                    ++ header_close))
                 else None) [])
    (single_path (lit "t"))
  = Some (Text (header_open ++ lit "manual_edit: true" ++ header_close)).
Proof.
  refine (eq_trans
            (@writers_keep_manual_edits default_config (fun _ => [])
               (mk_world
                  (fun p => if eqb p (single_path (lit "t"))
                            then Some (Text (header_open
                                               ++ lit "manual_edit: true"
                                               ++ header_close))
                            else None) [])
               _ (lit "t") (lit "T") (lit "unknown")
               [(JStr (lit "user"), lit "Hello")] 0%N
               [lit "- T (unknown) — *manual edit skipped*"]
               _ (single_path (lit "t")) _) _).
  - reflexivity.
  - reflexivity.
  - reflexivity.
Defined.

(** ** Two threads with one slug *)

Section OneSlug.

Variable repr : json -> str.

(** What the single writer puts in the file when it writes. *)
Lemma write_single_writes (w w' : world) (slug title timestamp : str)
  (msgs : list message) (idx : N) (toc : list str) :
  should_skip_file (files w) (single_path slug) = false ->
  write_single_convo repr w slug title timestamp msgs idx = Ok (w', toc) ->
  exists created,
    first_word timestamp = Ok created
    /\ files w' (single_path slug)
       = Some (Text (preamble title title timestamp created
                       ++ fst (render_messages repr
                                 (nl ++ nl ++ lit "---" ++ nl ++ nl)
                                 title idx msgs (media_log w))))
    /\ toc = [lit "- [" ++ title ++ lit " (" ++ timestamp ++ lit ")]("
                ++ CONVERSATION_FOLDER ++ lit "/" ++ (slug ++ lit ".md")
                ++ lit ")"].
Proof.
  intros Hs. unfold write_single_convo. fold (single_path slug). rewrite Hs.
  destruct (files w (single_path slug)) as [[c| |]|] eqn:Ef;
    try discriminate;
    (destruct (first_word timestamp) as [created|e] eqn:Ec; [|discriminate];
     cbn [bind];
     destruct (render_messages _ _ _ _ _ _) as [body log];
     unfold write_text; rewrite Ef; cbn [bind fst];
     intros H; exists created; split; [reflexivity|];
     assert (Ew : w' = mk_world
                         (write_file (files w) (single_path slug)
                            (preamble title title timestamp created ++ body))
                         log) by congruence;
     split; [subst w'; cbn [files]; apply write_file_same | congruence]).
Qed.

End OneSlug.

(** Two threads that get the same slug share one file: when the single
    writer has written the first (its title on one line and without
    ["manual_edit: true"]), writing the second replaces the document of
    the first by the document of the second, and the index gets a link to
    that one file for each of the two. *)
Theorem same_slug_last_thread_wins
  (repr : json -> str) (w w1 w2 : world) (slug : str)
  (title1 timestamp1 : str) (msgs1 : list message) (idx1 : N)
  (title2 timestamp2 : str) (msgs2 : list message) (idx2 : N)
  (toc1 toc2 : list str) :
  should_skip_file (files w) (single_path slug) = false ->
  ~ In "010"%char title1 ->
  contains (lit "manual_edit: true") title1 = false ->
  contains MANUAL_EDIT_KEY timestamp1 = false ->
  write_single_convo repr w slug title1 timestamp1 msgs1 idx1 = Ok (w1, toc1) ->
  write_single_convo repr w1 slug title2 timestamp2 msgs2 idx2
  = Ok (w2, toc2) ->
  exists created,
    first_word timestamp2 = Ok created
    /\ files w2 (single_path slug)
       = Some (Text (preamble title2 title2 timestamp2 created
                       ++ fst (render_messages repr
                                 (nl ++ nl ++ lit "---" ++ nl ++ nl)
                                 title2 idx2 msgs2 (media_log w1))))
    /\ toc1 = [lit "- [" ++ title1 ++ lit " (" ++ timestamp1 ++ lit ")]("
                 ++ CONVERSATION_FOLDER ++ lit "/" ++ (slug ++ lit ".md")
                 ++ lit ")"]
    /\ toc2 = [lit "- [" ++ title2 ++ lit " (" ++ timestamp2 ++ lit ")]("
                 ++ CONVERSATION_FOLDER ++ lit "/" ++ (slug ++ lit ".md")
                 ++ lit ")"].
Proof.
  intros Hs Hnl Hk Hts H1 H2.
  assert (Hs1 : should_skip_file (files w1) (single_path slug) = false).
  { rewrite (@own_document_manual_edit_aux repr w w1 slug title1 timestamp1
               msgs1 idx1 toc1 Hnl Hts Hs H1). exact Hk. }
  destruct (@write_single_writes repr w w1 slug title1 timestamp1 msgs1 idx1
              toc1 Hs H1) as (c1 & _ & _ & Htoc1).
  destruct (@write_single_writes repr w1 w2 slug title2 timestamp2 msgs2 idx2
              toc2 Hs1 H2) as (c2 & Hc2 & Hf2 & Htoc2).
  exists c2. auto.
Qed.

Lemma same_slug_last_thread_wins_witness :
  exists created,
    first_word (lit "unknown") = Ok created
    /\ write_file
         (write_file (fun _ => None) (single_path (lit "plan"))
            (preamble (lit "Plan") (lit "Plan") (lit "unknown")
               (lit "unknown")
               ++ lit "**[user]**:" ++ nl ++ lit "first" ++ nl ++ nl
               ++ lit "---" ++ nl ++ nl))
         (single_path (lit "plan"))
         (preamble (lit "plan") (lit "plan") (lit "unknown") (lit "unknown")
            ++ lit "**[user]**:" ++ nl ++ lit "second" ++ nl ++ nl
            ++ lit "---" ++ nl ++ nl)
         (single_path (lit "plan"))
       = Some (Text (preamble (lit "plan") (lit "plan") (lit "unknown")
                       created
                       ++ lit "**[user]**:" ++ nl ++ lit "second" ++ nl ++ nl
                       ++ lit "---" ++ nl ++ nl)).
Proof.
  destruct (@same_slug_last_thread_wins (fun _ => [])
              (mk_world (fun _ => None) [])
              (mk_world
                 (write_file (fun _ => None) (single_path (lit "plan"))
                    (preamble (lit "Plan") (lit "Plan") (lit "unknown")
                       (lit "unknown")
                       ++ lit "**[user]**:" ++ nl ++ lit "first" ++ nl ++ nl
                       ++ lit "---" ++ nl ++ nl)) [])
              (mk_world
                 (write_file
                    (write_file (fun _ => None) (single_path (lit "plan"))
                       (preamble (lit "Plan") (lit "Plan") (lit "unknown")
                          (lit "unknown")
                          ++ lit "**[user]**:" ++ nl ++ lit "first" ++ nl
                          ++ nl ++ lit "---" ++ nl ++ nl))
                    (single_path (lit "plan"))
                    (preamble (lit "plan") (lit "plan") (lit "unknown")
                       (lit "unknown")
                       ++ lit "**[user]**:" ++ nl ++ lit "second" ++ nl ++ nl
                       ++ lit "---" ++ nl ++ nl)) [])
              (lit "plan")
              (lit "Plan") (lit "unknown")
              [(JStr (lit "user"), lit "first")] 0%N
              (lit "plan") (lit "unknown")
              [(JStr (lit "user"), lit "second")] 1%N
              [lit "- [Plan (unknown)](conversations/plan.md)"]
              [lit "- [plan (unknown)](conversations/plan.md)"])
    as (created & Hc & Hf & _).
  - reflexivity.
  - cbn. intuition discriminate.
  - reflexivity.
  - reflexivity.
  - vm_compute. reflexivity.
  - vm_compute. reflexivity.
  - exists created. split; [exact Hc|].
    assert (E : Ok created = Ok (lit "unknown"))
      by (rewrite <- Hc; reflexivity).
    injection E as ->. reflexivity.
Defined.

(** ** How many parts *)

Section PartCount.

Variable A : Type.

Lemma chunks_count (n : nat) (l : list A) :
  0 < n ->
  exists parts,
    chunks n l = Ok parts
    /\ concat parts = l
    /\ Forall (fun p => 1 <= length p <= n) parts
    /\ length parts = (length l + n - 1) / n.
Proof.
  intros Hn. destruct l as [|x l'] eqn:El.
  - exists []. unfold chunks. rewrite range_positive_step by exact Hn.
    cbn [bind length range_from map concat]. repeat split; [constructor|].
    cbn [Nat.add]. symmetry. apply Nat.div_small. lia.
  - rewrite <- El.
    destruct (@chunks_spec A l n Hn) as (front & lst & E & Hc & Hf & Hl);
      [rewrite El; discriminate|].
    exists (front ++ [lst]). split; [exact E|]. split; [exact Hc|]. split.
    + apply Forall_app. split.
      * eapply Forall_impl; [|exact Hf]. cbv beta. intros p Hp. lia.
      * constructor; [exact Hl | constructor].
    + assert (Hlen : length l = n * length front + length lst).
      { rewrite <- Hc at 1.
        rewrite concat_app, length_app, (length_concat_uniform Hf).
        cbn [concat]. rewrite app_nil_r. reflexivity. }
      rewrite length_app. cbn [length].
      replace (length l + n - 1)
        with ((length front) * n + (length lst + n - 1)) by lia.
      rewrite Nat.div_add_l by lia.
      replace ((length lst + n - 1) / n) with 1; [lia|].
      apply Nat.div_unique with (r := length lst - 1); lia.
Qed.

End PartCount.

(** With a positive threshold [n] the messages are cut into the whole of
    [len / n], rounded up, parts, none of them empty and none longer than
    [n]; with the threshold 0 the cutting raises [ValueError], and so does
    the routing of every thread that has a message. *)
Theorem part_count_rounds_up
  (cfg : config) (repr : json -> str) (w : world)
  (slug title timestamp : str) (msgs : list message) (idx : N) :
  (0 < MAX_MESSAGES_PER_FILE cfg ->
   exists parts,
     chunks (MAX_MESSAGES_PER_FILE cfg) msgs = Ok parts
     /\ concat parts = msgs
     /\ Forall (fun p => 1 <= length p <= MAX_MESSAGES_PER_FILE cfg) parts
     /\ length parts
        = (length msgs + MAX_MESSAGES_PER_FILE cfg - 1)
            / MAX_MESSAGES_PER_FILE cfg)
  /\ (MAX_MESSAGES_PER_FILE cfg = 0 ->
      chunks 0 msgs = Raise ValueError
      /\ (msgs <> [] ->
          route cfg repr w slug title timestamp msgs idx = Raise ValueError)).
Proof.
  split.
  - apply chunks_count.
  - intros E. split; [reflexivity|]. intros Hne.
    unfold route, write_chunked_convo. rewrite E.
    destruct msgs; [contradiction | reflexivity].
Qed.

Lemma part_count_rounds_up_witness :
  exists parts,
    chunks 100 (repeat (JStr (lit "user"), lit "Hi") 250) = Ok parts
    /\ length parts = 3.
Proof.
  destruct (@part_count_rounds_up default_config (fun _ => [])
              (mk_world (fun _ => None) []) (lit "s") (lit "T")
              (lit "unknown") (repeat (JStr (lit "user"), lit "Hi") 250) 0%N)
    as [H _].
  destruct H as (parts & E & _ & _ & Hl); [simpl; lia|].
  exists parts. split; [exact E|].
  etransitivity; [exact Hl|]. rewrite repeat_length. reflexivity.
Defined.

(** ** The writers on any title *)

Section AnyTitleFacts.

Variable cfg : config.
Variable repr : json -> str.

(** When it returns, the resolver on any title returns what the resolver
    on the text of the title returns. *)
Lemma sanitize_any_ok (content : str) (title : json) (idx : N)
  (log : list str) (r : str * list str) :
  AnyTitle.sanitize_and_log_images content title idx log = Ok r ->
  sanitize_and_log_images content (AnyTitle.title_text repr title) idx log = r.
Proof.
  unfold AnyTitle.sanitize_and_log_images.
  assert (H : findall_urls content = [] ->
              sanitize_and_log_images content (AnyTitle.title_text repr title)
                idx log = (content, log)).
  { intros E. unfold sanitize_and_log_images. rewrite E.
    reflexivity. }
  destruct title; try (intros [= <-]; reflexivity);
    (destruct (findall_urls content); [|discriminate]);
    intros [= <-]; apply H; reflexivity.
Qed.

Lemma render_any_ok (rule : str) (title : json) (idx : N)
  (msgs : list message) :
  forall log r,
    AnyTitle.render_messages repr rule title idx msgs log = Ok r ->
    render_messages repr rule (AnyTitle.title_text repr title) idx msgs log = r.
Proof.
  induction msgs as [|[role content] msgs IH]; intros log r H.
  - injection H as <-. reflexivity.
  - cbn [AnyTitle.render_messages] in H.
    destruct (AnyTitle.sanitize_and_log_images content title idx log)
      as [[c l]|e] eqn:Es; [|discriminate].
    apply sanitize_any_ok in Es. cbn [bind fst snd] in H.
    destruct (AnyTitle.render_messages repr rule title idx msgs l)
      as [[rest l']|e] eqn:Er; [|discriminate].
    apply IH in Er. cbn [bind fst snd] in H. injection H as <-.
    cbn [render_messages]. rewrite Es, Er. reflexivity.
Qed.

Lemma write_single_any_ok (w : world) (slug : str) (title : json)
  (timestamp : str) (msgs : list message) (idx : N) (r : world * list str) :
  AnyTitle.write_single_convo repr w slug title timestamp msgs idx = Ok r ->
  write_single_convo repr w slug (AnyTitle.title_text repr title) timestamp msgs
    idx = Ok r.
Proof.
  unfold AnyTitle.write_single_convo, write_single_convo.
  destruct (should_skip_file _ _); [auto|].
  destruct (files w _) as [[c| |]|]; try discriminate;
    (destruct (first_word timestamp) as [created|e]; [|discriminate];
     cbn [bind];
     destruct (AnyTitle.render_messages _ _ _ _ _ _) as [[body log]|e] eqn:Er;
     [|discriminate];
     apply render_any_ok in Er; rewrite Er; cbn [bind fst snd]; auto).
Qed.

Lemma write_part_any_ok (w : world) (slug : str) (title : json)
  (timestamp : str) (idx : N) (total i : nat) (part : list message)
  (r : world * str) :
  AnyTitle.write_part repr w slug title timestamp idx total i part = Ok r ->
  write_part repr w slug (AnyTitle.title_text repr title) timestamp idx total i
    part = Ok r.
Proof.
  unfold AnyTitle.write_part, write_part.
  destruct (should_skip_file _ _); [auto|].
  destruct (files w _) as [[c| |]|]; try discriminate;
    (destruct (first_word timestamp) as [created|e]; [|discriminate];
     cbn [bind];
     destruct (AnyTitle.render_messages _ _ _ _ _ _) as [[body log]|e] eqn:Er;
     [|discriminate];
     apply render_any_ok in Er; rewrite Er; cbn [bind fst snd]; auto).
Qed.

Lemma write_parts_any_ok (slug : str) (title : json) (timestamp : str)
  (idx : N) (total : nat) (parts : list (list message)) :
  forall w i r,
    AnyTitle.write_parts repr w slug title timestamp idx total i parts = Ok r ->
    write_parts repr w slug (AnyTitle.title_text repr title) timestamp idx total
      i parts = Ok r.
Proof.
  induction parts as [|part parts IH]; intros w i r H; [exact H|].
  cbn [AnyTitle.write_parts] in H. cbn [write_parts].
  destruct (AnyTitle.write_part repr w slug title timestamp idx total i part)
    as [r1|e] eqn:E1; [|discriminate].
  apply write_part_any_ok in E1. rewrite E1. cbn [bind] in *.
  destruct (AnyTitle.write_parts repr (fst r1) slug title timestamp idx total
              (S i) parts) as [r2|e] eqn:E2; [|discriminate].
  apply IH in E2. rewrite E2. exact H.
Qed.

Lemma route_any_ok (w : world) (slug : str) (title : json) (timestamp : str)
  (msgs : list message) (idx : N) (r : world * list str) :
  AnyTitle.route cfg repr w slug title timestamp msgs idx = Ok r ->
  route cfg repr w slug (AnyTitle.title_text repr title) timestamp msgs idx
  = Ok r.
Proof.
  unfold AnyTitle.route, route.
  destruct (Nat.ltb _ _); [|apply write_single_any_ok].
  unfold AnyTitle.write_chunked_convo, write_chunked_convo.
  destruct (chunks _ msgs) as [parts|e]; [|discriminate]. cbn [bind].
  destruct (AnyTitle.write_parts _ _ _ _ _ _ _ _ _) as [r1|e] eqn:E;
    [|discriminate].
  apply write_parts_any_ok in E. rewrite E. auto.
Qed.

(** On a title that is a string the writers are the writers above. *)
Lemma render_any_str (rule t : str) (idx : N) (msgs : list message) :
  forall log,
    AnyTitle.render_messages repr rule (JStr t) idx msgs log
    = Ok (render_messages repr rule t idx msgs log).
Proof.
  induction msgs as [|[role content] msgs IH]; intros log; [reflexivity|].
  cbn [AnyTitle.render_messages render_messages
         AnyTitle.sanitize_and_log_images bind].
  destruct (sanitize_and_log_images content t idx log) as [c l].
  cbn [fst snd]. rewrite IH. cbn [bind].
  destruct (render_messages repr rule t idx msgs l) as [rest l'].
  reflexivity.
Qed.

Lemma route_any_str (w : world) (slug t timestamp : str)
  (msgs : list message) (idx : N) :
  AnyTitle.route cfg repr w slug (JStr t) timestamp msgs idx
  = route cfg repr w slug t timestamp msgs idx.
Proof.
  assert (Hp : forall w total i part,
             AnyTitle.write_part repr w slug (JStr t) timestamp idx total i
               part
             = write_part repr w slug t timestamp idx total i part).
  { intros w0 total i part.
    unfold AnyTitle.write_part, write_part.
    destruct (should_skip_file _ _); [reflexivity|].
    destruct (files w0 _) as [[c| |]|]; try reflexivity;
      (destruct (first_word timestamp) as [created|e]; [|reflexivity];
       cbn [bind]; rewrite render_any_str; cbn [bind AnyTitle.title_text];
       destruct (render_messages _ _ _ _ _ _) as [body log];
       reflexivity). }
  assert (Hps : forall parts total w i,
             AnyTitle.write_parts repr w slug (JStr t) timestamp idx total i
               parts
             = write_parts repr w slug t timestamp idx total i
                 parts).
  { induction parts as [|part parts IH]; intros total w0 i; [reflexivity|].
    cbn [AnyTitle.write_parts write_parts]. rewrite Hp.
    destruct (write_part _ _ _ _ _ _ _ _ _) as [r1|e];
      [|reflexivity].
    cbn [bind]. rewrite IH. reflexivity. }
  unfold AnyTitle.route, route.
  destruct (Nat.ltb _ _).
  - unfold AnyTitle.write_chunked_convo, write_chunked_convo.
    destruct (chunks _ msgs) as [parts|e]; [|reflexivity]. cbn [bind].
    rewrite Hps. reflexivity.
  - unfold AnyTitle.write_single_convo, write_single_convo.
    destruct (should_skip_file _ _); [reflexivity|].
    destruct (files w _) as [[c| |]|]; try reflexivity;
      (destruct (first_word timestamp) as [created|e]; [|reflexivity];
       cbn [bind]; rewrite render_any_str; cbn [bind AnyTitle.title_text];
       destruct (render_messages _ _ _ _ _ _) as [body log];
       reflexivity).
Qed.

End AnyTitleFacts.

(** ** A title that is not a string *)

Section NotAString.

Variable repr : json -> str.
Variable title : json.
Hypothesis not_a_string : forall s, title <> JStr s.

Lemma sanitize_any_not_str (content : str) (idx : N) (log : list str) :
  AnyTitle.sanitize_and_log_images content title idx log
  = match findall_urls content with
    | [] => Ok (content, log)
    | _ :: _ => Raise AttributeError
    end.
Proof.
  unfold AnyTitle.sanitize_and_log_images.
  destruct title; try reflexivity. exfalso. eapply not_a_string. reflexivity.
Qed.

Lemma render_any_plain (rule : str) (idx : N) (msgs : list message) :
  Forall (fun m => ~ holds_url (snd m)) msgs ->
  forall log,
    AnyTitle.render_messages repr rule title idx msgs log
    = Ok (render_messages repr rule (AnyTitle.title_text repr title) idx msgs log).
Proof.
  induction 1 as [|[role content] msgs Hm _ IH]; intros log; [reflexivity|].
  cbn [AnyTitle.render_messages render_messages].
  rewrite sanitize_any_not_str.
  cbn [snd] in Hm. apply findall_nil_iff in Hm.
  unfold sanitize_and_log_images. rewrite Hm.
  cbn [sanitize_loop bind fst snd]. rewrite IH. cbn [bind].
  destruct (render_messages repr rule (AnyTitle.title_text repr title) idx msgs log)
    as [rest l']. reflexivity.
Qed.

Lemma render_any_raises (rule : str) (idx : N) (msgs : list message) :
  Exists (fun m => holds_url (snd m)) msgs ->
  forall log,
    AnyTitle.render_messages repr rule title idx msgs log
    = Raise AttributeError.
Proof.
  induction msgs as [|[role content] msgs IH]; intros Hex log.
  - inversion Hex.
  - cbn [AnyTitle.render_messages]. rewrite sanitize_any_not_str.
    destruct (findall_urls content) as [|u l] eqn:Ef; [|reflexivity].
    cbn [bind snd]. rewrite IH; [reflexivity|].
    inversion Hex as [? ? Hm | ? ? Hrest]; subst; [|exact Hrest].
    exfalso. cbn [snd] in Hm. apply findall_nil_iff in Ef. contradiction.
Qed.

Lemma write_single_not_str (w : world) (slug timestamp : str)
  (msgs : list message) (idx : N) :
  should_skip_file (files w) (single_path slug) = false ->
  open_ok w (single_path slug) ->
  (exists created, first_word timestamp = Ok created) ->
  (Exists (fun m => holds_url (snd m)) msgs ->
   AnyTitle.write_single_convo repr w slug title timestamp msgs idx
   = Raise AttributeError)
  /\ (Forall (fun m => ~ holds_url (snd m)) msgs ->
      AnyTitle.write_single_convo repr w slug title timestamp msgs idx
      = write_single_convo repr w slug (AnyTitle.title_text repr title) timestamp
          msgs idx).
Proof.
  intros Hs Ho [created Hc].
  unfold AnyTitle.write_single_convo, write_single_convo.
  fold (single_path slug). rewrite Hs, Hc. cbn [bind]. unfold open_ok in Ho.
  split; intros H.
  - rewrite (render_any_raises _ _ H).
    destruct (files w (single_path slug)) as [[c| |]|];
      try reflexivity. contradiction.
  - rewrite (render_any_plain _ _ H). cbn [bind].
    destruct (render_messages _ _ _ _ _ _) as [body log].
    destruct (files w (single_path slug)) as [[c| |]|]; reflexivity.
Qed.

End NotAString.

(** A thread whose title is not a string ([null], as an export has it for
    a chat without a title) and that is written as one document: when a
    message holds a URL of the pattern, [slugify] is called on the title
    and the writer raises [AttributeError]; when none does, the document
    is written with the title as [str] prints it. *)
Theorem title_not_a_string
  (repr : json -> str) (title : json) (w : world) (slug timestamp : str)
  (msgs : list message) (idx : N) :
  (forall s, title <> JStr s) ->
  should_skip_file (files w) (single_path slug) = false ->
  open_ok w (single_path slug) ->
  (exists created, first_word timestamp = Ok created) ->
  (Exists (fun m => holds_url (snd m)) msgs ->
   AnyTitle.write_single_convo repr w slug title timestamp msgs idx
   = Raise AttributeError)
  /\ (Forall (fun m => ~ holds_url (snd m)) msgs ->
      AnyTitle.write_single_convo repr w slug title timestamp msgs idx
      = write_single_convo repr w slug (AnyTitle.title_text repr title) timestamp
          msgs idx).
Proof. intros Hn. apply (@write_single_not_str repr title Hn). Qed.

Lemma title_not_a_string_witness :
  AnyTitle.write_single_convo (fun _ => []) (mk_world (fun _ => None) [])
    (lit "bf545e1a58") JNull (lit "2023-11-14 22:13")
    [(JStr (lit "user"), lit "see " ++ url_prefix ++ lit "a.png")] 0
  = Raise AttributeError.
Proof.
  destruct (@title_not_a_string (fun _ => []) JNull
              (mk_world (fun _ => None) []) (lit "bf545e1a58")
              (lit "2023-11-14 22:13")
              [(JStr (lit "user"), lit "see " ++ url_prefix ++ lit "a.png")]
              0%N) as [H _].
  - discriminate.
  - reflexivity.
  - discriminate.
  - eexists. reflexivity.
  - apply H. constructor. exists (lit "see "), (url_prefix ++ lit "a.png"), [].
    split; [|rewrite app_nil_r; reflexivity].
    exists (lit "a"). split; [reflexivity|].
    split; [discriminate | repeat constructor].
Defined.

(** ** What a thread changes *)

Section ThreadEffects.

Variable cfg : config.
Variable repr : json -> str.

(** A path under the conversations folder. *)
Definition under_conversations (p : str) : bool :=
  startswith (CONV_PATH ++ lit "/") p.

(** Outside the conversations folder the files are the same. *)
Definition same_outside (w w' : world) : Prop :=
  forall p, under_conversations p = false -> files w' p = files w p.

Lemma same_outside_refl (w : world) : same_outside w w.
Proof. intros p _. reflexivity. Qed.

Lemma same_outside_trans (w1 w2 w3 : world) :
  same_outside w1 w2 -> same_outside w2 w3 -> same_outside w1 w3.
Proof. intros H12 H23 p Hp. rewrite (H23 p Hp). apply H12, Hp. Qed.

Lemma write_text_outside (w w' : world) (path content : str)
  (log : list str) :
  under_conversations path = true ->
  write_text w path content log = Ok w' -> same_outside w w'.
Proof.
  intros Hu H p Hp. unfold write_text in H.
  assert (Hne : p <> path) by (intros ->; congruence).
  destruct (files w path) as [[c| |]|]; try discriminate;
    injection H as <-; cbn [files]; apply write_file_other; exact Hne.
Qed.

(** The media log only grows. *)
Definition log_grows (w w' : world) : Prop :=
  exists new, media_log w' = media_log w ++ new.

Lemma render_messages_log (rule title : str) (idx : N)
  (msgs : list message) :
  forall log, exists new,
    snd (render_messages repr rule title idx msgs log) = log ++ new.
Proof.
  induction msgs as [|[role content] msgs IH]; intros log.
  - exists []. rewrite app_nil_r. reflexivity.
  - cbn [render_messages]. rewrite sanitize_shape.
    destruct (IH (log ++ log_lines title idx 1
                           (length (findall_urls content)))) as [new E].
    destruct (render_messages repr rule title idx msgs _) as [rest l'].
    cbn [snd] in *. rewrite E, <- app_assoc. eexists. reflexivity.
Qed.

(** The shape of the lines that a thread adds to the index. *)
Definition entry_line (l : str) : Prop := startswith (lit "- ") l = true.
Definition part_line (l : str) : Prop :=
  startswith (lit "  - [Part ") l = true.

Variables slug title timestamp : str.
Variable idx : N.
Hypothesis slug_paths :
  under_conversations (single_path slug) = true
  /\ forall i total, under_conversations (part_path slug i total) = true.

Lemma write_single_effects (w w' : world) (msgs : list message)
  (toc : list str) :
  write_single_convo repr w slug title timestamp msgs idx = Ok (w', toc) ->
  same_outside w w' /\ log_grows w w'
  /\ exists line, toc = [line] /\ entry_line line.
Proof.
  unfold write_single_convo. fold (single_path slug).
  destruct (should_skip_file (files w) _).
  - intros H. assert (E1 : w' = w) by congruence.
    assert (E2 : toc = [lit "- " ++ title ++ lit " (" ++ timestamp
                          ++ lit ") — *manual edit skipped*"])
      by congruence.
    subst w' toc. split; [apply same_outside_refl|].
    split; [exists []; rewrite app_nil_r; reflexivity|].
    eexists. split; reflexivity.
  - destruct (files w (single_path slug)) as [[c| |]|] eqn:Ef;
      try discriminate;
      (destruct (first_word timestamp) as [created|e]; [|discriminate];
       cbn [bind];
       pose proof (render_messages_log (nl ++ nl ++ lit "---" ++ nl ++ nl)
                     title idx msgs (media_log w)) as [new Hlog];
       destruct (render_messages _ _ _ _ _ _) as [body log];
       destruct (write_text _ _ _ _) as [w1|e] eqn:Ew; [|discriminate];
       cbn [bind]; intros H;
       assert (E1 : w' = w1) by congruence;
       assert (E2 : toc = [lit "- [" ++ title ++ lit " (" ++ timestamp
                             ++ lit ")](" ++ CONVERSATION_FOLDER ++ lit "/"
                             ++ (slug ++ lit ".md") ++ lit ")"])
         by congruence;
       subst w1 toc;
       split; [apply (@write_text_outside _ _ _ _ _ (proj1 slug_paths) Ew)|];
       split; [|eexists; split; reflexivity];
       unfold write_text in Ew; rewrite Ef in Ew; injection Ew as <-;
       exists new; exact Hlog).
Qed.

Lemma write_part_effects (w w' : world) (total i : nat)
  (part : list message) (line : str) :
  write_part repr w slug title timestamp idx total i part = Ok (w', line) ->
  same_outside w w' /\ log_grows w w' /\ part_line line.
Proof.
  unfold write_part. fold (part_path slug i total).
  destruct (should_skip_file (files w) _).
  - intros H. assert (E1 : w' = w) by congruence.
    assert (E2 : line = lit "  - [" ++ part_label i total
                          ++ lit "] — *manual edit skipped*")
      by congruence.
    subst w' line. split; [apply same_outside_refl|].
    split; [exists []; rewrite app_nil_r; reflexivity | reflexivity].
  - destruct (files w (part_path slug i total)) as [[c| |]|] eqn:Ef;
      try discriminate;
      (destruct (first_word timestamp) as [created|e]; [|discriminate];
       cbn [bind];
       pose proof (render_messages_log (nl ++ nl) title idx part
                     (media_log w)) as [new Hlog];
       destruct (render_messages _ _ _ _ _ _) as [body log];
       destruct (write_text _ _ _ _) as [w1|e] eqn:Ew; [|discriminate];
       cbn [bind]; intros H;
       assert (E1 : w' = w1) by congruence;
       assert (E2 : line = lit "  - [" ++ part_label i total ++ lit "]("
                             ++ CONVERSATION_FOLDER ++ lit "/" ++ slug
                             ++ lit "/" ++ partname slug i total ++ lit ")")
         by congruence;
       subst w1 line;
       split; [apply (@write_text_outside _ _ _ _ _
                        (proj2 slug_paths i total) Ew)|];
       split; [|reflexivity];
       unfold write_text in Ew; rewrite Ef in Ew; injection Ew as <-;
       exists new; exact Hlog).
Qed.

Lemma log_grows_trans (w1 w2 w3 : world) :
  log_grows w1 w2 -> log_grows w2 w3 -> log_grows w1 w3.
Proof.
  intros [a Ha] [b Hb]. exists (a ++ b). rewrite Hb, Ha, app_assoc.
  reflexivity.
Qed.

Lemma write_parts_effects (total : nat) (parts : list (list message)) :
  forall w i w' toc,
    write_parts repr w slug title timestamp idx total i parts = Ok (w', toc) ->
    same_outside w w' /\ log_grows w w' /\ Forall part_line toc.
Proof.
  induction parts as [|part parts IH]; intros w i w' toc H.
  - injection H as <- <-. split; [apply same_outside_refl|].
    split; [exists []; rewrite app_nil_r; reflexivity | constructor].
  - cbn [write_parts] in H.
    destruct (write_part repr w slug title timestamp idx total i part)
      as [[w1 line]|e] eqn:E1; [|discriminate].
    cbn [bind fst snd] in H.
    destruct (write_parts repr w1 slug title timestamp idx total (S i) parts)
      as [[w2 toc2]|e] eqn:E2; [|discriminate].
    cbn [bind fst snd] in H. injection H as <- <-.
    apply write_part_effects in E1. apply IH in E2.
    destruct E1 as (A1 & B1 & C1). destruct E2 as (A2 & B2 & C2).
    split; [eapply same_outside_trans; eassumption|].
    split; [eapply log_grows_trans; eassumption|].
    constructor; assumption.
Qed.

Lemma route_effects (w w' : world) (msgs : list message) (toc : list str) :
  route cfg repr w slug title timestamp msgs idx = Ok (w', toc) ->
  same_outside w w' /\ log_grows w w'
  /\ exists line rest,
       toc = line :: rest /\ entry_line line /\ Forall part_line rest.
Proof.
  unfold route. destruct (Nat.ltb _ _).
  - unfold write_chunked_convo.
    destruct (chunks _ msgs) as [parts|e]; [|discriminate]. cbn [bind].
    destruct (write_parts _ _ _ _ _ _ _ _ _) as [[w1 toc1]|e] eqn:E;
      [|discriminate].
    cbn [bind fst snd]. intros H.
    assert (E1 : w' = w1) by congruence.
    assert (E2 : toc = (lit "- " ++ title ++ lit " (" ++ timestamp ++ lit ")")
                         :: toc1) by congruence.
    subst w1 toc. apply write_parts_effects in E.
    destruct E as (A & B & C). split; [exact A|]. split; [exact B|].
    eexists; eexists. split; [reflexivity|]. split; [reflexivity | exact C].
  - intros H. apply write_single_effects in H.
    destruct H as (A & B & line & -> & Hl). split; [exact A|].
    split; [exact B|]. exists line, []. repeat split; [exact Hl | constructor].
Qed.

End ThreadEffects.

(** ** A thread by itself *)

Section ThreadAlone.

Variable cfg : config.
Variable repr : json -> str.

Lemma process_parts_loop_alone (title : str) (parts : list json) :
  forall results log,
    process_parts_loop parts title results log
    = match process_parts_loop parts title [] [] with
      | Ok (r, l) => Ok (results ++ r, log ++ l)
      | Raise e => Raise e
      end.
Proof.
  induction parts as [|part parts IH]; intros results log.
  - cbn. rewrite !app_nil_r. reflexivity.
  - cbn [process_parts_loop].
    destruct (process_part part title) as [[r1 l1]|e]; [|reflexivity].
    cbn [bind fst snd app]. rewrite (IH (results ++ r1)), (IH r1 l1).
    destruct (process_parts_loop parts title [] []) as [[r l]|e];
      [|reflexivity].
    rewrite <- !app_assoc. reflexivity.
Qed.

Lemma process_parts_alone (title : str) (idx : N) (parts : list json)
  (log : list str) :
  process_parts parts title idx log
  = match process_parts parts title idx [] with
    | Ok (text, l) => Ok (text, log ++ l)
    | Raise e => Raise e
    end.
Proof.
  unfold process_parts. rewrite process_parts_loop_alone.
  destruct (process_parts_loop parts title [] []) as [[r l]|e];
    [|reflexivity].
  cbn [bind fst snd app]. destruct (all_str r); reflexivity.
Qed.

(** The accumulators with what a node, or a run of nodes, adds. *)
Definition extended (acc ex : extraction) : extraction :=
  mk_extraction (messages acc ++ messages ex)
    (total_messages acc + total_messages ex)
    (media_log_entries acc ++ media_log_entries ex).

Lemma extended_nothing (acc : extraction) :
  extended acc (mk_extraction [] 0 []) = acc.
Proof.
  destruct acc as [m t l]. unfold extended. cbn.
  rewrite !app_nil_r, Nat.add_0_r. reflexivity.
Qed.

Lemma extract_node_alone (title : str) (idx : N) (node : json)
  (acc : extraction) :
  extract_node cfg title idx node acc
  = match extract_node cfg title idx node (mk_extraction [] 0 []) with
    | Ok ex => Ok (extended acc ex)
    | Raise e => Raise e
    end.
Proof.
  unfold extract_node.
  destruct (as_dict node) as [kv|e]; [|reflexivity]. cbn [bind].
  destruct (negb (truthy _)); [rewrite extended_nothing; reflexivity|].
  destruct (as_dict (get kv _ _)) as [msg_kv|e]; [|reflexivity]. cbn [bind].
  destruct (as_dict (get msg_kv (lit "author") _)) as [author|e];
    [|reflexivity]. cbn [bind].
  destruct (is_str _ _ && _)%bool; [rewrite extended_nothing; reflexivity|].
  destruct (as_dict (get msg_kv (lit "content") _)) as [content_kv|e];
    [|reflexivity]. cbn [bind].
  destruct (iter _) as [parts|e]; [|reflexivity]. cbn [bind].
  rewrite process_parts_alone. cbn [media_log_entries].
  destruct (process_parts parts title idx []) as [[text l]|e];
    [|reflexivity].
  cbn [bind fst snd]. unfold extended.
  destruct text; cbn [messages total_messages media_log_entries app];
    rewrite ?app_nil_r, ?Nat.add_0_r, ?Nat.add_1_r; reflexivity.
Qed.

Lemma extract_nodes_alone (title : str) (idx : N) (nodes : list json) :
  forall acc,
    extract_nodes cfg title idx nodes acc
    = match extract_nodes cfg title idx nodes (mk_extraction [] 0 []) with
      | Ok ex => Ok (extended acc ex)
      | Raise e => Raise e
      end.
Proof.
  induction nodes as [|node nodes IH]; intros acc.
  - cbn. rewrite extended_nothing. reflexivity.
  - cbn [extract_nodes]. rewrite extract_node_alone.
    destruct (extract_node cfg title idx node (mk_extraction [] 0 []))
      as [ex1|e]; [|reflexivity].
    cbn [bind]. rewrite (IH (extended acc ex1)), (IH ex1).
    destruct (extract_nodes cfg title idx nodes (mk_extraction [] 0 []))
      as [ex|e]; [|reflexivity].
    unfold extended. cbn [messages total_messages media_log_entries].
    rewrite <- !app_assoc, Nat.add_assoc. reflexivity.
Qed.

Lemma extract_nodes_counts (title : str) (idx : N) (nodes : list json) :
  forall acc ex,
    extract_nodes cfg title idx nodes acc = Ok ex ->
    total_messages ex + length (messages acc)
    = total_messages acc + length (messages ex).
Proof.
  intros acc ex H. apply (extract_nodes_appends cfg title idx) in H.
  destruct H as (new & Hm & Ht & _). rewrite Hm, Ht, length_app. lia.
Qed.

(** The messages of a thread, as the loop over the threads extracts them:
    they depend on the thread and on its index alone. *)
Definition thread_messages (idx : nat) (thread : json)
  : result (list message) :=
  kv <- as_dict thread ;;
  ex <- extract_messages cfg kv
          (AnyTitle.title_text repr (get kv (lit "title") (JStr (lit "Untitled"))))
          (N.of_nat idx) 0 [] ;;
  Ok (messages ex).

Lemma extract_messages_alone (kv : list (str * json)) (title : str)
  (idx : N) (total : nat) (log : list str) (ex : extraction) :
  extract_messages cfg kv title idx total log = Ok ex ->
  exists ex0,
    extract_messages cfg kv title idx 0 [] = Ok ex0
    /\ messages ex = messages ex0
    /\ total_messages ex = total + length (messages ex0)
    /\ media_log_entries ex = log ++ media_log_entries ex0.
Proof.
  unfold extract_messages.
  destruct (as_dict _) as [mapping|e]; [|discriminate]. cbn [bind].
  rewrite extract_nodes_alone.
  destruct (extract_nodes cfg title idx (map snd mapping)
              (mk_extraction [] 0 [])) as [ex0|e] eqn:E; [|discriminate].
  intros H. assert (Ex : ex = extended (mk_extraction [] total log) ex0)
    by congruence.
  exists ex0. split; [reflexivity|]. subst ex.
  apply extract_nodes_counts in E. cbn in E.
  unfold extended. cbn [messages total_messages media_log_entries app].
  repeat split. lia.
Qed.

End ThreadAlone.

(** ** The loop over the threads *)

Section RunFacts.

Variable cfg : config.
Variable GENERATE_TOC : bool.
Variable fromisoformat : str -> result datetime.
Variable repr : json -> str.

(** The title, the timestamp and the slug of a thread. *)
Definition thread_title (kv : list (str * json)) : json :=
  get kv (lit "title") (JStr (lit "Untitled")).

Definition thread_timestamp (kv : list (str * json)) : str :=
  format_ts fromisoformat (get kv (lit "create_time") (JStr [])).

Lemma thread_step_inv (st st' : Main.state) (idx : nat) (thread : json) :
  Main.thread_step cfg fromisoformat repr st idx thread = Ok st' ->
  exists kv slug msgs lines new,
    thread = JDict kv
    /\ make_slug_or_hash (thread_title kv) (thread_timestamp kv)
         (N.of_nat idx) = Ok slug
    /\ thread_messages cfg repr idx thread = Ok msgs
    /\ route cfg repr
         (mk_world (files (Main.disk_log st))
            (media_log (Main.disk_log st) ++ new))
         slug (AnyTitle.title_text repr (thread_title kv)) (thread_timestamp kv)
         msgs (N.of_nat idx)
       = Ok (Main.disk_log st', lines)
    /\ Main.toc st' = Main.toc st ++ lines
    /\ Main.total_threads st' = S (Main.total_threads st)
    /\ Main.total_messages st'
       = Main.total_messages st + length msgs.
Proof.
  unfold Main.thread_step.
  destruct thread as [| | | | | |kv]; try discriminate. cbn [as_dict bind].
  fold (thread_title kv). fold (thread_timestamp kv).
  destruct (make_slug_or_hash _ _ _) as [slug|e] eqn:Eslug; [|discriminate].
  cbn [bind].
  destruct (extract_messages _ _ _ _ _ _) as [ex|e] eqn:Ex; [|discriminate].
  cbn [bind]. apply extract_messages_alone in Ex.
  destruct Ex as (ex0 & E0 & Hm & Ht & Hl).
  destruct ex as [msgs total log]. cbn [messages total_messages
    media_log_entries] in *.
  destruct (AnyTitle.route _ _ _ _ _ _ _ _) as [[w' lines]|e] eqn:Er;
    [|discriminate].
  cbn [bind fst snd]. intros H. apply route_any_ok in Er.
  exists kv, slug, msgs, lines, (media_log_entries ex0).
  split; [reflexivity|]. split; [exact Eslug|].
  split.
  { unfold thread_messages. cbn [as_dict bind]. fold (thread_title kv).
    rewrite E0. cbn [bind]. congruence. }
  rewrite <- Hl.
  assert (Es : st' = Main.mk_state w' (Main.toc st ++ lines)
                       (S (Main.total_threads st)) total) by congruence.
  subst st'. cbn [Main.disk_log Main.toc Main.total_threads
                    Main.total_messages].
  split; [exact Er|]. repeat split. rewrite Ht, Hm. reflexivity.
Qed.

(** What a thread, and the loop, leave of the state they find. *)
Record step_effects (st st' : Main.state) : Prop := mk_effects {
  eff_keeps : keeps_manual_edits (Main.disk_log st) (Main.disk_log st');
  eff_outside : same_outside (Main.disk_log st) (Main.disk_log st');
  eff_log : log_grows (Main.disk_log st) (Main.disk_log st')
}.

Lemma step_effects_refl (st : Main.state) : step_effects st st.
Proof.
  split; [apply keeps_refl | apply same_outside_refl|].
  exists []. rewrite app_nil_r. reflexivity.
Qed.

Lemma step_effects_trans (a b c : Main.state) :
  step_effects a b -> step_effects b c -> step_effects a c.
Proof.
  intros [K1 O1 L1] [K2 O2 L2]. split.
  - eapply keeps_trans; eassumption.
  - eapply same_outside_trans; eassumption.
  - eapply log_grows_trans; eassumption.
Qed.

Lemma slug_under_conversations (title : json) (ts : str) (idx : N)
  (slug : str) :
  make_slug_or_hash title ts idx = Ok slug ->
  under_conversations (single_path slug) = true
  /\ forall i total, under_conversations (part_path slug i total) = true.
Proof.
  intros H. apply document_paths in H. destruct H as (_ & _ & Hs & Hp).
  unfold under_conversations. split.
  - rewrite Hs, app_assoc. apply startswith_app.
  - intros i total. rewrite Hp, app_assoc. apply startswith_app.
Qed.

(** The lines of a thread in the index: the line of the thread, then the
    lines of its parts if it has parts. *)
Definition index_block (lines : list str) : Prop :=
  exists line rest,
    lines = line :: rest /\ entry_line line /\ Forall part_line rest.

Lemma thread_step_effects (st st' : Main.state) (idx : nat) (thread : json) :
  Main.thread_step cfg fromisoformat repr st idx thread = Ok st' ->
  step_effects st st'
  /\ exists msgs lines,
       thread_messages cfg repr idx thread = Ok msgs
       /\ index_block lines
       /\ Main.toc st' = Main.toc st ++ lines
       /\ Main.total_threads st' = S (Main.total_threads st)
       /\ Main.total_messages st' = Main.total_messages st + length msgs.
Proof.
  intros H. apply thread_step_inv in H.
  destruct H as (kv & slug & msgs & lines & new & -> & Hslug & Hmsgs & Hr
                 & Htoc & Htt & Htm).
  pose proof (route_keeps _ _ _ _ _ _ _ _ Hr) as Hk.
  destruct (@route_effects cfg repr slug _ _ _
              (slug_under_conversations _ _ _ Hslug) _ _ _ _ Hr)
    as (Ho & [l Hl] & Hb).
  split.
  - split.
    + exact Hk.
    + exact Ho.
    + cbn [media_log] in Hl. exists (new ++ l). rewrite Hl, app_assoc.
      reflexivity.
  - exists msgs, lines. repeat split; assumption.
Qed.

(** The messages of the threads, thread by thread. *)
Fixpoint loop_messages (idx : nat) (threads : list json)
  : list (list message) :=
  match threads with
  | [] => []
  | thread :: threads' =>
      match thread_messages cfg repr idx thread with
      | Ok msgs => msgs
      | Raise _ => []
      end :: loop_messages (S idx) threads'
  end.

Lemma thread_loop_effects (threads : list json) :
  forall st idx st',
    Main.thread_loop cfg fromisoformat repr st idx threads = Ok st' ->
    step_effects st st'
    /\ Main.total_threads st' = Main.total_threads st + length threads
    /\ Main.total_messages st'
       = Main.total_messages st
         + length (concat (loop_messages idx threads))
    /\ exists blocks,
         Main.toc st' = Main.toc st ++ concat blocks
         /\ length blocks = length threads
         /\ Forall index_block blocks.
Proof.
  induction threads as [|thread threads IH]; intros st idx st' H.
  - injection H as <-. split; [apply step_effects_refl|].
    cbn. rewrite !Nat.add_0_r. repeat split.
    exists []. rewrite app_nil_r. repeat split. constructor.
  - cbn [Main.thread_loop] in H.
    destruct (Main.thread_step cfg fromisoformat repr st idx thread) as [st1|e] eqn:E1; [|discriminate].
    cbn [bind] in H. apply thread_step_effects in E1. apply IH in H.
    destruct E1 as (F1 & msgs & lines & Hm & Hb & Htoc1 & Htt1 & Htm1).
    destruct H as (F2 & Htt2 & Htm2 & blocks & Htoc2 & Hlen & Hbs).
    split; [eapply step_effects_trans; eassumption|].
    split; [cbn [length]; lia|]. split.
    + cbn [loop_messages concat]. rewrite Hm, length_app. lia.
    + exists (lines :: blocks). cbn [concat length].
      split; [rewrite Htoc2, Htoc1, <- app_assoc; reflexivity|].
      split; [lia | constructor; assumption].
Qed.

(** *** The index and the media log *)

Lemma finish_effects (st st' : Main.state) :
  Main.finish GENERATE_TOC st = Ok st' ->
  Main.toc st' = Main.toc st
  /\ Main.total_threads st' = Main.total_threads st
  /\ Main.total_messages st' = Main.total_messages st
  /\ media_log (Main.disk_log st') = media_log (Main.disk_log st)
  /\ (forall p, p <> index_path -> p <> media_log_path ->
        files (Main.disk_log st') p = files (Main.disk_log st) p)
  /\ files (Main.disk_log st') index_path
     = (if GENERATE_TOC then Some (Text (join nl (Main.toc st)))
        else files (Main.disk_log st) index_path)
  /\ files (Main.disk_log st') media_log_path
     = match media_log (Main.disk_log st) with
       | [] => files (Main.disk_log st) media_log_path
       | _ :: _ => Some (Text (join nl (media_log (Main.disk_log st))))
       end.
Proof.
  unfold Main.finish. destruct st as [[fs log] toc tt tm].
  cbn [Main.disk_log Main.toc Main.total_threads Main.total_messages
         files media_log].
  assert (Hne : media_log_path <> index_path) by discriminate.
  assert (Hne' : index_path <> media_log_path) by discriminate.
  assert (Hw : forall (g : disk) path content l w1,
             write_text (mk_world g l) path content l = Ok w1 ->
             w1 = mk_world (write_file g path content) l).
  { intros g path content l w1. unfold write_text. cbn [files].
    destruct (g path) as [[c| |]|]; congruence. }
  destruct GENERATE_TOC.
  - destruct (write_text _ index_path _ _) as [w1|e] eqn:E1; [|discriminate].
    apply Hw in E1. subst w1. cbn [bind media_log].
    destruct log as [|x log].
    + intros H. injection H as <-. cbn.
      repeat split;
        repeat first [ reflexivity | apply write_file_same
                     | rewrite write_file_other by assumption | intro ].
    + destruct (write_text _ media_log_path _ _) as [w2|e] eqn:E2;
        [|discriminate].
      apply Hw in E2. subst w2. cbn [bind]. intros H. injection H as <-. cbn.
      repeat split;
        repeat first [ reflexivity | apply write_file_same
                     | rewrite write_file_other by assumption | intro ].
  - cbn [bind media_log]. destruct log as [|x log].
    + intros H. injection H as <-. cbn. repeat split.
    + destruct (write_text _ media_log_path _ _) as [w2|e] eqn:E2;
        [|discriminate].
      apply Hw in E2. subst w2. cbn [bind]. intros H. injection H as <-. cbn.
      repeat split;
        repeat first [ reflexivity | apply write_file_same
                     | rewrite write_file_other by assumption | intro ].
Qed.

Lemma main_inv (fs : disk) (raw_data : json) (st : Main.state) :
  Main.main cfg GENERATE_TOC fromisoformat repr fs raw_data = Ok st ->
  exists conversations threads st1,
    conversations_of raw_data = Ok conversations
    /\ iter conversations = Ok threads
    /\ Main.thread_loop cfg fromisoformat repr (Main.start fs) 0 threads = Ok st1
    /\ Main.finish GENERATE_TOC st1 = Ok st.
Proof.
  unfold Main.main.
  destruct (conversations_of raw_data) as [c|e]; [|discriminate].
  cbn [bind]. destruct (iter c) as [threads|e] eqn:Ei; [|discriminate].
  cbn [bind].
  destruct (Main.thread_loop _ _ _ _ _ _) as [st1|e] eqn:E; [|discriminate].
  cbn [bind]. intros H. exists c, threads, st1.
  split; [reflexivity|]. split; [exact Ei|]. split; [exact E | exact H].
Qed.

End RunFacts.

(** ** The run as a whole *)

Section RunTheorems.

Variable cfg : config.
Variable GENERATE_TOC : bool.
Variable fromisoformat : str -> result datetime.
Variable repr : json -> str.

Lemma main_effects (fs : disk) (raw_data : json) (st : Main.state) :
  Main.main cfg GENERATE_TOC fromisoformat repr fs raw_data = Ok st ->
  exists threads st1,
    (conversations <- conversations_of raw_data ;; iter conversations)
    = Ok threads
    /\ Main.thread_loop cfg fromisoformat repr (Main.start fs) 0 threads
       = Ok st1
    /\ Main.finish GENERATE_TOC st1 = Ok st
    /\ step_effects (Main.start fs) st1.
Proof.
  intros H. apply main_inv in H.
  destruct H as (c & threads & st1 & Hc & Hi & Hl & Hf).
  exists threads, st1. rewrite Hc. cbn [bind].
  split; [exact Hi|]. split; [exact Hl|]. split; [exact Hf|].
  apply thread_loop_effects in Hl. apply Hl.
Qed.

End RunTheorems.

(** A run never touches a document that the skip check marks as a manual
    edit: every such file, the index and the media log apart, is after
    the run what it was before. *)
Theorem run_keeps_manual_edits
  (cfg : config) (GENERATE_TOC : bool)
  (fromisoformat : str -> result datetime) (repr : json -> str)
  (fs : disk) (raw_data : json) (st : Main.state) (p : str) :
  Main.main cfg GENERATE_TOC fromisoformat repr fs raw_data = Ok st ->
  should_skip_file fs p = true ->
  p <> index_path -> p <> media_log_path ->
  files (Main.disk_log st) p = fs p.
Proof.
  intros H Hs Hi Hm. apply main_effects in H.
  destruct H as (threads & st1 & _ & _ & Hf & [Hk _ _]).
  apply finish_effects in Hf. destruct Hf as (_ & _ & _ & _ & Hp & _).
  rewrite (Hp p Hi Hm). apply (Hk p). exact Hs.
Qed.

Lemma run_keeps_manual_edits_witness :
  exists st,
    Main.main default_config true (fun _ => Raise ValueError) (fun _ => [])
      (fun p => if eqb p (single_path (lit "t"))
                then Some (Text (header_open ++ lit "manual_edit: true"
                                   ++ header_close))
                else None)
      (JList [JDict [(lit "title", JStr (lit "T"))]]) = Ok st
    /\ files (Main.disk_log st) (single_path (lit "t"))
       = Some (Text (header_open ++ lit "manual_edit: true" ++ header_close)).
Proof.
  destruct (Main.main default_config true (fun _ => Raise ValueError)
              (fun _ => [])
              (fun p => if eqb p (single_path (lit "t"))
                        then Some (Text (header_open ++ lit "manual_edit: true"
                                           ++ header_close))
                        else None)
              (JList [JDict [(lit "title", JStr (lit "T"))]]))
    as [st|e] eqn:E; [|vm_compute in E; discriminate].
  exists st. split; [reflexivity|].
  rewrite (@run_keeps_manual_edits _ _ _ _ _ _ _ (single_path (lit "t")) E);
    [reflexivity | reflexivity | vm_compute; discriminate
    | vm_compute; discriminate].
Defined.


(** A run changes no file outside its folders: a path that is not under
    the conversations folder, and is neither the index nor the media log,
    holds after the run what it held before, whatever the titles of the
    threads are. *)
Theorem run_writes_within_its_folders
  (cfg : config) (GENERATE_TOC : bool)
  (fromisoformat : str -> result datetime) (repr : json -> str)
  (fs : disk) (raw_data : json) (st : Main.state) (p : str) :
  Main.main cfg GENERATE_TOC fromisoformat repr fs raw_data = Ok st ->
  under_conversations p = false ->
  p <> index_path -> p <> media_log_path ->
  files (Main.disk_log st) p = fs p.
Proof.
  intros H Hu Hi Hm. apply main_effects in H.
  destruct H as (threads & st1 & _ & _ & Hf & [_ Ho _]).
  apply finish_effects in Hf. destruct Hf as (_ & _ & _ & _ & Hp & _).
  rewrite (Hp p Hi Hm). apply (Ho p). exact Hu.
Qed.

Lemma run_writes_within_its_folders_witness :
  exists st,
    Main.main default_config true (fun _ => Raise ValueError) (fun _ => [])
      (fun p => if eqb p (lit "notes.txt") then Some (Text (lit "mine"))
                else None)
      (JList [JDict [(lit "title", JStr (lit "../notes.txt"))]]) = Ok st
    /\ files (Main.disk_log st) (lit "notes.txt") = Some (Text (lit "mine")).
Proof.
  destruct (Main.main default_config true (fun _ => Raise ValueError)
              (fun _ => [])
              (fun p => if eqb p (lit "notes.txt")
                        then Some (Text (lit "mine")) else None)
              (JList [JDict [(lit "title", JStr (lit "../notes.txt"))]]))
    as [st|e] eqn:E; [|vm_compute in E; discriminate].
  exists st. split; [reflexivity|].
  rewrite (@run_writes_within_its_folders _ _ _ _ _ _ _ (lit "notes.txt") E);
    [reflexivity | reflexivity | vm_compute; discriminate
    | vm_compute; discriminate].
Defined.


(** After a run the index is the lines of [toc] joined by newlines,
    whatever the file held before, a mark of manual edit included; without
    [GENERATE_TOC] it is left as it was.  The media log is the entries
    joined by newlines when there is an entry; when there is none the
    file is not written, and a media log of an earlier run stays. *)
Theorem run_index_and_media_log
  (cfg : config) (GENERATE_TOC : bool)
  (fromisoformat : str -> result datetime) (repr : json -> str)
  (fs : disk) (raw_data : json) (st : Main.state) :
  Main.main cfg GENERATE_TOC fromisoformat repr fs raw_data = Ok st ->
  files (Main.disk_log st) index_path
  = (if GENERATE_TOC then Some (Text (join nl (Main.toc st)))
     else fs index_path)
  /\ files (Main.disk_log st) media_log_path
     = match media_log (Main.disk_log st) with
       | [] => fs media_log_path
       | _ :: _ => Some (Text (join nl (media_log (Main.disk_log st))))
       end.
Proof.
  intros H. apply main_effects in H.
  destruct H as (threads & st1 & _ & _ & Hf & [_ Ho _]).
  apply finish_effects in Hf.
  destruct Hf as (Htoc & _ & _ & Hlog & _ & Hi & Hm).
  rewrite Hi, Hm, Htoc, Hlog. split.
  - destruct GENERATE_TOC; [reflexivity|]. apply (Ho index_path).
    reflexivity.
  - destruct (media_log (Main.disk_log st1)); [|reflexivity].
    apply (Ho media_log_path). reflexivity.
Qed.

Lemma run_index_and_media_log_witness :
  exists st,
    Main.main default_config true (fun _ => Raise ValueError) (fun _ => [])
      (fun p => if eqb p media_log_path then Some (Text (lit "old"))
                else None)
      (JList [JDict [(lit "title", JStr (lit "T"))]]) = Ok st
    /\ files (Main.disk_log st) index_path
       = Some (Text (lit "# ChatGPT Conversation Index" ++ nl ++ nl
                       ++ lit "- [T (unknown)](conversations/t.md)"))
    /\ files (Main.disk_log st) media_log_path = Some (Text (lit "old")).
Proof.
  destruct (Main.main default_config true (fun _ => Raise ValueError)
              (fun _ => [])
              (fun p => if eqb p media_log_path then Some (Text (lit "old"))
                        else None)
              (JList [JDict [(lit "title", JStr (lit "T"))]]))
    as [st|e] eqn:E; [|vm_compute in E; discriminate].
  exists st. split; [reflexivity|].
  destruct (@run_index_and_media_log _ _ _ _ _ _ _ E) as [Hi Hm].
  rewrite Hi, Hm. vm_compute in E. injection E as <-. split; reflexivity.
Defined.




(** ** What a run can raise *)

Section RunExceptions.

Variable cfg : config.
Variable GENERATE_TOC : bool.
Variable fromisoformat : str -> result datetime.
Variable repr : json -> str.















Variables (slug : str) (title : json) (timestamp : str) (idx : N).
Hypothesis timestamp_word : exists created, first_word timestamp = Ok created.





End RunExceptions.

Section RunRaises.

Variable cfg : config.
Variable GENERATE_TOC : bool.
Variable fromisoformat : str -> result datetime.
Variable repr : json -> str.
Hypothesis threshold_positive : 0 < MAX_MESSAGES_PER_FILE cfg.





End RunRaises.


